(** * aiPitchEvaluator: the audio delivery-metrics pipeline

    A shallow embedding of [backend/audioAnalysis.js] (the functions
    [analyzeAudioProperties], [processAudioBuffer],
    [extractSamplesFromBuffer], the five [calculateReal*] scores, the two
    derived scores and the signal helpers) and the properties the
    specification states about it; then of the code around it: the content
    analysis, the transcription fallbacks, the evaluation endpoint and the
    store of recordings, with properties read off that code.

    Numbers.  A JavaScript number is an IEEE-754 binary64 value; it is
    embedded as Rocq's primitive [float], whose operations are the same
    correctly rounded ones, so the definitions below evaluate bit for bit
    as the source does, including NaN and the infinities.  Numbers that the
    source only uses as array lengths, indices and loop counters are [nat].
    The transcendental functions of [Math] ([cos], [sin], [log10], [pow])
    are implementation-approximated in ECMAScript: they are a parameter of
    the development, the record [MathLib].

    Exceptions.  A function that can throw returns a [result]; [try]/[catch]
    is [try_catch].

    The file has three parts: the embedding of the source, the definitions
    the properties are stated with, and the lemmas and theorems. *)

From Stdlib Require Import ZArith List Lia Bool Floats.
From Stdlib Require Uint63 Strings.Byte.
From Stdlib Require Strings.String Strings.Ascii DecimalZ.
From Stdlib Require Import NArith DecimalString.
Import ListNotations.
Import String.StringSyntax.
Delimit Scope string_scope with string.

Set Warnings "-inexact-float,-register-all".

(** ** Exceptions *)

Inductive error : Type :=
| RangeError
| TypeError.

Inductive result (A : Type) : Type :=
| Ok (a : A)
| Throw (e : error).

Arguments Ok {A} a.
Arguments Throw {A} e.

Definition bind {A B : Type} (r : result A) (k : A -> result B) : result B :=
  match r with
  | Ok a => k a
  | Throw e => Throw e
  end.

Notation "x <- r ;; k" := (bind r (fun x => k))
  (at level 61, r at next level, right associativity).

(** [try { body } catch (error) { handler }] *)
Definition try_catch {A : Type} (body : result A) (handler : error -> result A)
  : result A :=
  match body with
  | Ok a => Ok a
  | Throw e => handler e
  end.

(** Run [f] on every element, left to right, stopping at the first throw. *)
Fixpoint mapM {A B : Type} (f : A -> result B) (l : list A) : result (list B) :=
  match l with
  | [] => Ok []
  | a :: l' => b <- f a ;; bs <- mapM f l' ;; Ok (b :: bs)
  end.

(** ** JavaScript numbers *)

Module JS.

Open Scope float_scope.

Definition of_nat (n : nat) : float :=
  PrimFloat.of_uint63 (Uint63.of_Z (Z.of_nat n)).

Definition of_Z (z : Z) : float :=
  if (z <? 0)%Z then - PrimFloat.of_uint63 (Uint63.of_Z (- z))
  else PrimFloat.of_uint63 (Uint63.of_Z z).

(** The integer part (towards minus infinity) of a finite number; 0 for NaN
    and the infinities, which no caller passes. *)
Definition floorZ (x : float) : Z :=
  match Prim2SF x with
  | S754_finite s m e =>
      let v := if s then Z.neg m else Z.pos m in
      if (0 <=? e)%Z then (v * 2 ^ e)%Z else (v / 2 ^ (- e))%Z
  | _ => 0%Z
  end.

(** [Math.floor] *)
Definition Math_floor (x : float) : float :=
  match Prim2SF x with
  | S754_finite _ _ e => if (0 <=? e)%Z then x else of_Z (floorZ x)
  | _ => x
  end.

(** [Math.round]: the nearest integer, a tie going towards plus infinity. *)
Definition Math_round (x : float) : float :=
  let f := Math_floor x in
  if 0.5 <=? x - f then f + 1 else f.

(** [Math.max] and [Math.min] on two arguments: NaN if either is NaN. *)
Definition Math_max (a b : float) : float :=
  if is_nan a || is_nan b then nan else if a <? b then b else a.

Definition Math_min (a b : float) : float :=
  if is_nan a || is_nan b then nan else if b <? a then b else a.

Definition Math_sqrt (x : float) : float := PrimFloat.sqrt x.

(** [Math.PI] *)
Definition Math_PI : float := 0x1.921fb54442d18p+1.

(** Storing into a [Float32Array] rounds to the nearest single-precision
    value ([Math.fround]). *)
Definition fround (x : float) : float :=
  match Prim2SF x with
  | S754_finite s m e =>
      SF2Prim (binary_normalize 24 128 (if s then Z.neg m else Z.pos m) e s)
  | _ => x
  end.

(** A number used as a length or an index. *)
Definition to_nat (x : float) : nat := Z.to_nat (floorZ x).

(** [x] is a non-negative integer below 2^32, the lengths [new Array(x)]
    accepts. *)
Definition is_array_length (x : float) : bool :=
  (x =? Math_floor x) && (0 <=? x) && (x <? 4294967296).

End JS.

Import JS.

(** The approximated functions of [Math]. *)
Record MathLib : Type := {
  Math_cos : float -> float;
  Math_sin : float -> float;
  Math_log10 : float -> float;
  Math_pow : float -> float -> float
}.

(** ** Arrays *)

(** [a.slice(lo, hi)] *)
Definition slice {A : Type} (a : list A) (lo hi : nat) : list A :=
  firstn (hi - lo) (skipn lo a).

(** [new Array(len)]: throws RangeError unless [len] is an array length. *)
Definition new_Array (len : float) : result nat :=
  if is_array_length len then Ok (to_nat len) else Throw RangeError.

(** [for (let i = start; cond(i); i += step) body], run with [fuel] units of
    fuel.  Every loop of the source stops at or before an array length; it is
    run here with that many units (one more for an inclusive bound), which
    suffice whenever [step >= 1].  With [step = 0] the loop of the source
    does not end, and the state returned here stands for no run of it; the
    steps are 1 or a window size, and the window sizes of the pipeline, at
    its sample rate 44100, are 882 and 441. *)
Fixpoint for_loop {S : Type} (fuel i : nat) (cond : nat -> bool) (step : nat)
    (body : nat -> S -> S) (s : S) : S :=
  match fuel with
  | O => s
  | Datatypes.S fuel' =>
      if cond i
      then for_loop fuel' (i + step) cond step body (body i s)
      else s
  end.

(** ** Sample decoder *)

Definition Buffer : Type := list Byte.byte.

Definition byte_val (b : Byte.byte) : Z := Z.of_N (Strings.Byte.to_N b).

(** Two's complement reading of a 16-bit pattern. *)
Definition int16_of (u : Z) : Z :=
  if (u <? 32768)%Z then u else (u - 65536)%Z.

(** [buffer.readInt16LE(offset)]: throws when the two bytes are not both
    inside the buffer. *)
Definition readInt16LE (buffer : Buffer) (offset : nat) : result Z :=
  match nth_error buffer offset, nth_error buffer (offset + 1) with
  | Some lo, Some hi => Ok (int16_of (byte_val lo + 256 * byte_val hi))
  | _, _ => Throw RangeError
  end.

(** [new Float32Array(buffer.length / 2)] has [floor (length / 2)] elements
    (the constructor truncates its argument); element [i] is written once,
    with the value read at byte offset [2 i]. *)
Definition extractSamplesFromBuffer (buffer : Buffer) : result (list float) :=
  let samples_length := (length buffer / 2)%nat in
  mapM (fun i =>
          sample <- readInt16LE buffer (i * 2) ;;
          Ok (fround (of_Z sample / 32768.0)%float))
       (seq 0 samples_length).

Record AudioData : Type := {
  buffer : Buffer;
  sampleRate : float;
  channels : float;
  duration : float;
  samples : list float
}.

Definition processAudioBuffer (audioBuffer : Buffer) : result AudioData :=
  try_catch
    (samples <- extractSamplesFromBuffer audioBuffer ;;
     Ok {| buffer := audioBuffer;
           sampleRate := 44100;
           channels := 1;
           duration := (of_nat (length audioBuffer) / (44100 * 2))%float;
           samples := samples |})
    (fun error => Throw error).

(** ** Window energy *)

Definition calculateWindowEnergy (window : list float) : float :=
  let energy := fold_left (fun energy w => energy + w * w) window 0 in
  energy / of_nat (length window).

(** ** Segmentation *)

Record Segment : Type := {
  seg_start : float;
  seg_end : float
}.

(** The variables of the segmentation loops: the list built so far, the
    flag ([inSpeech] or [inSilence]) and the start of the open run. *)
Record SegState : Type := {
  segments : list Segment;
  inRun : bool;
  runStart : float
}.

Definition initSegState : SegState :=
  {| segments := []; inRun := false; runStart := 0 |}.

Definition speechWindowSize (sampleRate : float) : nat :=
  to_nat (Math_floor (sampleRate * 0.02)).

Definition energyThreshold : float := 0.001.

Definition speechStep (samples : list float) (sampleRate : float)
    (i : nat) (st : SegState) : SegState :=
  let windowSize := speechWindowSize sampleRate in
  let window := slice samples i (Nat.min (i + windowSize) (length samples)) in
  let energy := calculateWindowEnergy window in
  if (energyThreshold <? energy) && negb (inRun st) then
    {| segments := segments st;
       inRun := true;
       runStart := of_nat i / sampleRate |}
  else if (energy <=? energyThreshold) && inRun st then
    {| segments := segments st ++
                   [{| seg_start := runStart st;
                       seg_end := of_nat i / sampleRate |}];
       inRun := false;
       runStart := runStart st |}
  else st.

(** The state in which the loop of [detectSpeechSegments] ends. *)
Definition speechLoop (samples : list float) (sampleRate : float) : SegState :=
  for_loop (length samples) 0 (fun i => (i <? length samples)%nat)
           (speechWindowSize sampleRate)
           (speechStep samples sampleRate) initSegState.

Definition detectSpeechSegments (samples : list float) (sampleRate : float)
  : list Segment :=
  segments (speechLoop samples sampleRate).

Definition silenceWindowSize (sampleRate : float) : nat :=
  to_nat (Math_floor (sampleRate * 0.01)).

Definition silenceStep (samples : list float) (sampleRate : float)
    (threshold minDuration : float) (i : nat) (st : SegState) : SegState :=
  let windowSize := silenceWindowSize sampleRate in
  let window := slice samples i (Nat.min (i + windowSize) (length samples)) in
  let energy := calculateWindowEnergy window in
  if (energy <? threshold) && negb (inRun st) then
    {| segments := segments st;
       inRun := true;
       runStart := of_nat i / sampleRate |}
  else if (threshold <=? energy) && inRun st then
    let duration := of_nat i / sampleRate - runStart st in
    {| segments := if minDuration <=? duration
                   then segments st ++
                        [{| seg_start := runStart st;
                            seg_end := of_nat i / sampleRate |}]
                   else segments st;
       inRun := false;
       runStart := runStart st |}
  else st.

Definition silenceLoop (samples : list float) (sampleRate : float)
    (threshold minDuration : float) : SegState :=
  for_loop (length samples) 0 (fun i => (i <? length samples)%nat)
           (silenceWindowSize sampleRate)
           (silenceStep samples sampleRate threshold minDuration) initSegState.

Definition detectSilentSegments (samples : list float) (sampleRate : float)
    (threshold minDuration : float) : list Segment :=
  segments (silenceLoop samples sampleRate threshold minDuration).

(** [segments.reduce((total, segment) => total + (segment.end - segment.start), 0)] *)
Definition totalTime (segs : list Segment) : float :=
  fold_left (fun total segment => total + (seg_end segment - seg_start segment))
            segs 0.

(** ** Pace *)

Definition calculateRealPace (audioData : AudioData) : result float :=
  try_catch
    (let speechSegments :=
       detectSpeechSegments (samples audioData) (sampleRate audioData) in
     let totalSpeechTime := totalTime speechSegments in
     let speechRate :=
       if 0 <? totalSpeechTime
       then of_nat (length speechSegments) / totalSpeechTime
       else 0 in
     if speechRate <? 1.5 then Ok 2
     else if speechRate <? 2.5 then Ok 3
     else if speechRate <? 4.0 then Ok 5
     else if speechRate <? 5.0 then Ok 4
     else Ok 3)
    (fun error => Ok 3.5).

(** ** Pauses *)

Definition calculateRealPauses (audioData : AudioData) : result float :=
  try_catch
    (let silenceThreshold := 0.01 in
     let minPauseDuration := 0.2 in
     let silentSegments :=
       detectSilentSegments (samples audioData) (sampleRate audioData)
                            silenceThreshold minPauseDuration in
     let totalSilenceTime := totalTime silentSegments in
     let silenceRatio := totalSilenceTime / duration audioData in
     if silenceRatio <? 0.05 then Ok 2
     else if silenceRatio <? 0.15 then Ok 5
     else if silenceRatio <? 0.25 then Ok 4
     else if silenceRatio <? 0.35 then Ok 3
     else Ok 2)
    (fun error => Ok 3.5).

(** ** Pitch *)

(** The inner loop of [estimatePitch]: the sum of the lagged products and
    the number of terms. *)
Definition lagSum (window : list float) (period : nat) : float * nat :=
  for_loop (length window) 0 (fun i => (i <? length window - period)%nat) 1
           (fun i '(correlation, count) =>
              (correlation + nth i window nan * nth (i + period) window nan,
               Datatypes.S count))
           (0, O).

Definition pitchStep (window : list float) (period : nat)
    (best : nat * float) : nat * float :=
  let '(bestPeriod, bestCorrelation) := best in
  let '(correlation, count) := lagSum window period in
  if (0 <? count)%nat then
    let correlation := correlation / of_nat count in
    if bestCorrelation <? correlation then (period, correlation) else best
  else best.

Definition minPeriodOf (sampleRate : float) : nat :=
  to_nat (Math_floor (sampleRate / 800)).

Definition maxPeriodOf (sampleRate : float) : nat :=
  to_nat (Math_floor (sampleRate / 80)).

(** The pair [(bestPeriod, bestCorrelation)] when the loop over the periods
    ends. *)
Definition bestLag (window : list float) (sampleRate : float) : nat * float :=
  let minPeriod := minPeriodOf sampleRate in
  let maxPeriod := maxPeriodOf sampleRate in
  for_loop (Datatypes.S maxPeriod) minPeriod (fun period => (period <=? maxPeriod)%nat) 1
           (pitchStep window) (O, 0).

Definition estimatePitch (window : list float) (sampleRate : float) : float :=
  let bestPeriod := fst (bestLag window sampleRate) in
  if (0 <? bestPeriod)%nat then sampleRate / of_nat bestPeriod else 0.

(** The array [pitchValues] when the loop of [calculateRealTonalVariation]
    ends. *)
Definition pitchTrack (samples : list float) (sampleRate : float) : list float :=
  let windowSize := speechWindowSize sampleRate in
  for_loop (length samples) 0
           (fun i => (i <? length samples - windowSize)%nat) windowSize
           (fun i pitchValues =>
              let window := slice samples i (i + windowSize) in
              let pitch := estimatePitch window sampleRate in
              if 0 <? pitch then pitchValues ++ [pitch] else pitchValues)
           [].

(** ** The delivery metrics *)

Record AudioMetrics : Type := {
  pace : float;
  volume : float;
  clarity : float;
  pauseDuration : float;
  tonalVariation : float;
  confidence : float;
  enthusiasm : float
}.

Definition set_confidence (m : AudioMetrics) (v : float) : AudioMetrics :=
  {| pace := pace m; volume := volume m; clarity := clarity m;
     pauseDuration := pauseDuration m; tonalVariation := tonalVariation m;
     confidence := v; enthusiasm := enthusiasm m |}.

Definition set_enthusiasm (m : AudioMetrics) (v : float) : AudioMetrics :=
  {| pace := pace m; volume := volume m; clarity := clarity m;
     pauseDuration := pauseDuration m; tonalVariation := tonalVariation m;
     confidence := confidence m; enthusiasm := v |}.

(** The record [analyzeAudioProperties] returns from its [catch] block. *)
Definition defaultMetrics : AudioMetrics :=
  {| pace := 3.5; volume := 4.0; clarity := 3.8; pauseDuration := 2.1;
     tonalVariation := 3.2; confidence := 3.7; enthusiasm := 3.4 |}.

Definition calculateConfidenceFromMetrics (audioMetrics : AudioMetrics) : float :=
  let volume := volume audioMetrics in
  let clarity := clarity audioMetrics in
  let pace := pace audioMetrics in
  let tonalVariation := tonalVariation audioMetrics in
  let confidenceScore := 0 in
  let confidenceScore := confidenceScore + volume * 0.3 in
  let confidenceScore := confidenceScore + clarity * 0.3 in
  let confidenceScore := confidenceScore + pace * 0.2 in
  let confidenceScore :=
    if (3 <=? tonalVariation) && (tonalVariation <=? 4)
    then confidenceScore + 1.0
    else confidenceScore + tonalVariation * 0.2 in
  Math_round (Math_min 5 (Math_max 1 confidenceScore) * 10) / 10.

Definition calculateEnthusiasmFromMetrics (audioMetrics : AudioMetrics) : float :=
  let volume := volume audioMetrics in
  let tonalVariation := tonalVariation audioMetrics in
  let pace := pace audioMetrics in
  let enthusiasmScore := 0 in
  let enthusiasmScore := enthusiasmScore + volume * 0.4 in
  let enthusiasmScore := enthusiasmScore + tonalVariation * 0.4 in
  let enthusiasmScore :=
    if 4 <=? pace
    then enthusiasmScore + 1.0
    else enthusiasmScore + pace * 0.2 in
  Math_round (Math_min 5 (Math_max 1 enthusiasmScore) * 10) / 10.

Section Analysis.

Variable M : MathLib.

(** ** Volume *)

Definition calculateRealVolume (audioData : AudioData) : result float :=
  try_catch
    (let samples := samples audioData in
     let sumSquares := fold_left (fun sumSquares s => sumSquares + s * s) samples 0 in
     let rms := Math_sqrt (sumSquares / of_nat (length samples)) in
     let dbLevel := 20 * Math_log10 M (rms + 1e-10) in
     if dbLevel <? -40 then Ok 2
     else if dbLevel <? -25 then Ok 3
     else if dbLevel <? -10 then Ok 5
     else if dbLevel <? -5 then Ok 4
     else Ok 3)
    (fun error => Ok 4.0).

(** ** Spectrum *)

(** The body of the loop over [n] for frequency [k]: the pair
    [(realSum, imagSum)]. *)
Definition dftSums (real imag : list float) (N k : nat) : float * float :=
  for_loop N 0 (fun n => (n <? N)%nat) 1
           (fun n '(realSum, imagSum) =>
              let angle := -2 * Math_PI * of_nat k * of_nat n / of_nat N in
              (realSum + (nth n real nan * Math_cos M angle
                          - nth n imag nan * Math_sin M angle),
               imagSum + (nth n real nan * Math_sin M angle
                          + nth n imag nan * Math_cos M angle)))
           (0, 0).

(** [new Array(N / 2)] throws when [N / 2] is not an integer; otherwise the
    loop over [k] fills every element of [magnitude]. *)
Definition performFFT (samples : list float) : result (list float) :=
  let N := Nat.min 1024 (length samples) in
  let real := map (fun i => if (i <? length samples)%nat
                            then nth i samples nan else 0) (seq 0 N) in
  let imag := map (fun i => 0) (seq 0 N) in
  bins <- new_Array (of_nat N / 2) ;;
  Ok (map (fun k =>
             let '(realSum, imagSum) := dftSums real imag N k in
             Math_sqrt (realSum * realSum + imagSum * imagSum))
          (seq 0 bins)).

(** [spectrum[i]] for an index that may lie outside the array *)
Definition spectrumAt (spectrum : list float) (i : Z) : float :=
  if (i <? 0)%Z then nan else nth (Z.to_nat i) spectrum nan.

(** The loop runs [i] from [binMin] while [i <= binMax && i < spectrum.length].
    The quotients are finite at every call (a positive sample rate, and for
    the empty spectrum a bin size of plus infinity). *)
Definition getFrequencyRange (spectrum : list float)
    (freqMin freqMax sampleRate : float) : float :=
  let binSize := sampleRate / (2 * of_nat (length spectrum)) in
  let binMin := Math_floor (freqMin / binSize) in
  let binMax := Math_floor (freqMax / binSize) in
  let len := Z.of_nat (length spectrum) in
  let first := floorZ binMin in
  let count := Z.to_nat (len - first) in
  for_loop count 0
           (fun j => let i := (first + Z.of_nat j)%Z in
                     (of_Z i <=? binMax) && (i <? len)%Z) 1
           (fun j energy => energy + spectrumAt spectrum (first + Z.of_nat j))
           0.

Definition calculateRealClarity (audioData : AudioData) : result float :=
  try_catch
    (let samples := samples audioData in
     let sampleRate := sampleRate audioData in
     frequencySpectrum <- performFFT samples ;;
     let speechFreqRange := getFrequencyRange frequencySpectrum 300 3400 sampleRate in
     let noiseFreqRange := getFrequencyRange frequencySpectrum 0 300 sampleRate
                           + getFrequencyRange frequencySpectrum 3400 8000 sampleRate in
     let clarityRatio := speechFreqRange / (noiseFreqRange + speechFreqRange + 1e-10) in
     if 0.8 <? clarityRatio then Ok 5
     else if 0.6 <? clarityRatio then Ok 4
     else if 0.4 <? clarityRatio then Ok 3
     else if 0.2 <? clarityRatio then Ok 2
     else Ok 1)
    (fun error => Ok 3.8).

(** ** Tonal variation *)

Definition calculateRealTonalVariation (audioData : AudioData) : result float :=
  try_catch
    (let pitchValues := pitchTrack (samples audioData) (sampleRate audioData) in
     if (length pitchValues =? 0)%nat then Ok 2
     else
       let meanPitch := fold_left (fun sum p => sum + p) pitchValues 0
                        / of_nat (length pitchValues) in
       let variance :=
         fold_left (fun sum p => sum + Math_pow M (p - meanPitch) 2) pitchValues 0
         / of_nat (length pitchValues) in
       let pitchVariation := Math_sqrt variance in
       let variationRatio := pitchVariation / meanPitch in
       if variationRatio <? 0.05 then Ok 2
       else if variationRatio <? 0.15 then Ok 3
       else if variationRatio <? 0.25 then Ok 5
       else if variationRatio <? 0.35 then Ok 4
       else Ok 3)
    (fun error => Ok 3.2).

(** ** The pipeline *)

Definition analyzeAudioProperties (audioBuffer : Buffer) : result AudioMetrics :=
  try_catch
    (audioData <- processAudioBuffer audioBuffer ;;
     pace <- calculateRealPace audioData ;;
     volume <- calculateRealVolume audioData ;;
     clarity <- calculateRealClarity audioData ;;
     pauseDuration <- calculateRealPauses audioData ;;
     tonalVariation <- calculateRealTonalVariation audioData ;;
     let audioMetrics :=
       {| pace := pace; volume := volume; clarity := clarity;
          pauseDuration := pauseDuration; tonalVariation := tonalVariation;
          confidence := 0; enthusiasm := 0 |} in
     let audioMetrics :=
       set_confidence audioMetrics (calculateConfidenceFromMetrics audioMetrics) in
     let audioMetrics :=
       set_enthusiasm audioMetrics (calculateEnthusiasmFromMetrics audioMetrics) in
     Ok audioMetrics)
    (fun error => Ok defaultMetrics).

End Analysis.

(** * The encoder of the test script

    The test of the analysis (in [backend/]) fills a buffer with
    [testBuffer.writeInt16LE(intSample, i)] and passes it to
    [analyzeAudioProperties]. *)

(** The byte with the value [z mod 256]. *)
Definition byte_of (z : Z) : Byte.byte :=
  match Strings.Byte.of_N (Z.to_N (z mod 256)) with
  | Some b => b
  | None => Byte.x00
  end.

(** [buffer.writeInt16LE(value, offset)] for an integer [value]: the bytes
    stored at [offset] and [offset + 1]; a RangeError outside the 16-bit
    range. *)
Definition writeInt16LE (value : Z) : result (Byte.byte * Byte.byte) :=
  if ((value <? -32768) || (32767 <? value))%Z then Throw RangeError
  else Ok (byte_of value, byte_of (value / 256)).

(** * The content analysis and the evaluation endpoint

    A shallow embedding of [backend/geminiAnalysis.js], of the functions of
    [backend/freeTranscription.js] that choose the transcription method, of
    the temporary-file helpers of [backend/audioAnalysis.js] and of the
    handler of [POST /api/evaluate-pitch] in [backend/server.js].

    Strings.  A JavaScript string is its sequence of UTF-16 code units.

    Values.  What [JSON.parse] and [response.json()] produce is a [json]
    value; [undefined] is [None] of [option json].  Property access is the
    lookup of an own property: the source reads only the names
    [candidates], [content], [parts], [text], [storytelling],
    [audienceConnection], [persuasiveness], [score], [feedback],
    [strengths], [improvements], [overallFeedback], [keyMessages] and
    [emotionalTone], none of which a built-in prototype defines.

    The environment.  The replies of the network, the clock and the file
    system are arguments of the functions that use them.  [JSON.parse] and
    the conversions of strings and objects to numbers and to strings are
    functions of the engine taken as a parameter, the record [Builtins]. *)

Definition jsstring : Type := list N.

(** A string literal of the source (all of them are ASCII). *)
Definition lit (s : String.string) : jsstring :=
  map Ascii.N_of_ascii (String.list_ascii_of_string s).

Arguments lit s%_string.

Fixpoint string_eqb (a b : jsstring) : bool :=
  match a, b with
  | [], [] => true
  | x :: a', y :: b' => N.eqb x y && string_eqb a' b'
  | _, _ => false
  end.

Inductive json : Type :=
| JNull
| JBool (b : bool)
| JNum (x : float)
| JStr (s : jsstring)
| JArr (elements : list json)
| JObj (members : list (jsstring * json)).

(** ** Exceptions of the server code *)

Inductive exception : Type :=
| JsTypeError
| JsRangeError
| JsSyntaxError
| JsError (message : jsstring)
| DOMException (name : jsstring).

(** How a call or an awaited promise completes. *)
Inductive completion (A : Type) : Type :=
| Normal (a : A)
| Abrupt (e : exception).

Arguments Normal {A} a.
Arguments Abrupt {A} e.

(** The two groups of scores of a response. *)
Module Delivery.
Record t : Type := {
  pace : float;
  tone : float;
  clarity : float;
  confidence : float;
  enthusiasm : float
}.
End Delivery.

Module Engagement.
Record t : Type := {
  storytelling : float;
  audienceConnection : float;
  persuasiveness : float
}.
End Engagement.

Section Server.

Close Scope float_scope.

Definition and_then {A B : Type} (c : completion A) (k : A -> completion B)
  : completion B :=
  match c with
  | Normal a => k a
  | Abrupt e => Abrupt e
  end.

Notation "'do' x <- c ; k" := (and_then c (fun x => k))
  (at level 10, x name, c at level 100, k at level 200).

(** [try { body } catch (error) { handler }] *)
Definition catching {A : Type} (body : completion A)
    (handler : exception -> completion A) : completion A :=
  match body with
  | Normal a => Normal a
  | Abrupt e => handler e
  end.

(** ** Property access and truthiness *)

Fixpoint lookup (key : jsstring) (members : list (jsstring * json))
  : option json :=
  match members with
  | [] => None
  | (k, v) :: members' => if string_eqb k key then Some v else lookup key members'
  end.

Definition getProp (v : json) (key : jsstring) : option json :=
  match v with
  | JObj members => lookup key members
  | _ => None
  end.

(** [v.key]: a TypeError on [null] and [undefined]. *)
Definition member (v : option json) (key : jsstring) : completion (option json) :=
  match v with
  | None | Some JNull => Abrupt JsTypeError
  | Some o => Normal (getProp o key)
  end.

(** [v?.key] *)
Definition opt_member (v : option json) (key : jsstring) : option json :=
  match v with
  | None | Some JNull => None
  | Some o => getProp o key
  end.

(** [v?.[0]] *)
Definition opt_first (v : option json) : option json :=
  match v with
  | Some (JArr elements) => nth_error elements 0
  | Some (JStr (c :: _)) => Some (JStr [c])
  | Some (JObj members) => lookup (lit "0") members
  | _ => None
  end.

Definition truthy (v : option json) : bool :=
  match v with
  | None | Some JNull => false
  | Some (JBool b) => b
  | Some (JNum x) => negb ((x =? 0)%float || is_nan x)
  | Some (JStr s) => negb (Nat.eqb (length s) 0)
  | Some (JArr _) | Some (JObj _) => true
  end.

(** [a || b] *)
Definition or_else (a : option json) (b : json) : json :=
  match a with
  | Some v => if truthy a then v else b
  | None => b
  end.

(** [Array.isArray(a) ? a : []] *)
Definition array_or_empty (a : option json) : list json :=
  match a with
  | Some (JArr elements) => elements
  | _ => []
  end.

(** ** The engine *)

Record Builtins : Type := {
  JSON_parse : jsstring -> completion json;
  StringToNumber : jsstring -> float;
  (** [ToNumber] and [ToString] of an array or an object, which call its
      [valueOf] and [toString] and can throw. *)
  ObjectToNumber : json -> completion float;
  ObjectToString : json -> completion jsstring;
  (** [error.message] of an error the engine raised. *)
  engineMessage : exception -> jsstring
}.

Variable B : Builtins.
Variable M : MathLib.

Definition ToNumber (v : json) : completion float :=
  match v with
  | JNull => Normal 0%float
  | JBool b => Normal (if b then 1%float else 0%float)
  | JNum x => Normal x
  | JStr s => Normal (StringToNumber B s)
  | JArr _ | JObj _ => ObjectToNumber B v
  end.

(** ** The analysis record *)

Record Aspect : Type := {
  score : float;
  feedback : json;
  strengths : list json;
  improvements : list json
}.

Record ContentAnalysis : Type := {
  storytelling : Aspect;
  audienceConnection : Aspect;
  persuasiveness : Aspect;
  overallFeedback : json;
  keyMessages : list json;
  emotionalTone : json
}.

(** ** [normalizeAnalysis] *)

(** One of the three entries [storytelling], [audienceConnection] and
    [persuasiveness], which the source builds alike from
    [aspect = analysis.<name>]. *)
Definition normalizedAspect (aspect : option json) : completion Aspect :=
  do s <- ToNumber (or_else (opt_member aspect (lit "score")) (JNum 3));
  Normal
    {| score := Math_max 1 (Math_min 5 s);
       feedback := or_else (opt_member aspect (lit "feedback"))
                           (JStr (lit "No specific feedback available"));
       strengths := array_or_empty (opt_member aspect (lit "strengths"));
       improvements := array_or_empty (opt_member aspect (lit "improvements")) |}.

Definition normalizeAnalysis (analysis : json) : completion ContentAnalysis :=
  do st <- member (Some analysis) (lit "storytelling");
  do storytelling <- normalizedAspect st;
  do ac <- member (Some analysis) (lit "audienceConnection");
  do audienceConnection <- normalizedAspect ac;
  do pe <- member (Some analysis) (lit "persuasiveness");
  do persuasiveness <- normalizedAspect pe;
  do overall <- member (Some analysis) (lit "overallFeedback");
  do messages <- member (Some analysis) (lit "keyMessages");
  do tone <- member (Some analysis) (lit "emotionalTone");
  Normal
    {| storytelling := storytelling;
       audienceConnection := audienceConnection;
       persuasiveness := persuasiveness;
       overallFeedback := or_else overall (JStr (lit "Analysis completed successfully"));
       keyMessages := array_or_empty messages;
       emotionalTone := or_else tone (JStr (lit "Neutral tone detected")) |}.

(** ** The regular expressions *)

Definition is_digit (c : N) : bool := (48 <=? c)%N && (c <=? 57)%N.

(** [.] matches every code unit but the line terminators. *)
Definition is_line_terminator (c : N) : bool :=
  (c =? 10)%N || (c =? 13)%N || (c =? 8232)%N || (c =? 8233)%N.

(** Under the flag [i] (without [u]) a letter [a]-[z] of a pattern matches
    itself and its capital, and no code unit above 127. *)
Definition upper (c : N) : N :=
  if (97 <=? c)%N && (c <=? 122)%N then (c - 32)%N else c.

(** The rest of [s] after the literal [pattern], matched without case. *)
Fixpoint after_ci (pattern s : jsstring) : option jsstring :=
  match pattern, s with
  | [], _ => Some s
  | p :: pattern', c :: s' =>
      if (upper p =? upper c)%N then after_ci pattern' s' else None
  | _ :: _, [] => None
  end.

(** [\d+] at the head of [s], greedy: the digits and the rest. *)
Fixpoint span_digits (s : jsstring) : jsstring * jsstring :=
  match s with
  | c :: s' =>
      if is_digit c
      then let '(ds, rest) := span_digits s' in (c :: ds, rest)
      else ([], s)
  | [] => ([], [])
  end.

(** [.*?] before [\d]: the suffix of [s] that starts at its first digit,
    unless a line terminator or the end comes first. *)
Fixpoint lazy_to_digit (s : jsstring) : option jsstring :=
  match s with
  | [] => None
  | c :: s' =>
      if is_digit c then Some s
      else if is_line_terminator c then None
      else lazy_to_digit s'
  end.

(** [keyword.*?(\d+)] at the head of [s]: the capture and the rest. *)
Definition keyword_then_digits (keyword s : jsstring)
  : option (jsstring * jsstring) :=
  match after_ci keyword s with
  | Some rest =>
      match lazy_to_digit rest with
      | Some digits => Some (span_digits digits)
      | None => None
      end
  | None => None
  end.

(** [/(\d+)\/5|score.*?(\d+)|rating.*?(\d+)/i] at the head of [s]: the
    capture of the alternative that matched (the other two are
    [undefined]) and the rest of [s] after the match. *)
Definition scoreRegex_at (s : jsstring) : option (jsstring * jsstring) :=
  match span_digits s with
  | (d :: ds, 47%N :: 53%N :: rest) => Some (d :: ds, rest)
  | _ =>
      match keyword_then_digits (lit "score") s with
      | Some m => Some m
      | None => keyword_then_digits (lit "rating") s
      end
  end.

(** The captures of the successive [scoreRegex.exec(responseText)], each
    search starting where the last match ended ([lastIndex]).  A match is
    never empty, so [length s + 1] units of fuel suffice. *)
Fixpoint scoreRegex_exec_all (fuel : nat) (s : jsstring) : list jsstring :=
  match fuel with
  | O => []
  | S fuel' =>
      match scoreRegex_at s with
      | Some (capture, rest) => capture :: scoreRegex_exec_all fuel' rest
      | None =>
          match s with
          | [] => []
          | _ :: s' => scoreRegex_exec_all fuel' s'
          end
      end
  end.

(** [parseInt] of a string of decimal digits: the number nearest to its
    value. *)
Definition parseInt (digits : jsstring) : float :=
  SF2Prim (binary_normalize prec emax
             (fold_left (fun v c => (10 * v + (Z.of_N c - 48))%Z) digits 0%Z)
             0 false).

(** [/\{[\s\S]*\}/]: from the first opening brace to the last closing brace
    after it. *)
Fixpoint up_to_last_brace (s : jsstring) : option jsstring :=
  match s with
  | [] => None
  | c :: s' =>
      match up_to_last_brace s' with
      | Some m => Some (c :: m)
      | None => if (c =? 125)%N then Some [c] else None
      end
  end.

Fixpoint match_braces (s : jsstring) : option jsstring :=
  match s with
  | [] => None
  | c :: s' =>
      if (c =? 123)%N
      then match up_to_last_brace s' with
           | Some m => Some (c :: m)
           | None => None
           end
      else match_braces s'
  end.

(** ** [extractInsightsFromText] *)

(** [scores[i] || 3] *)
Definition score_or_3 (scores : list float) (i : nat) : float :=
  match nth_error scores i with
  | Some x => if (x =? 0)%float || is_nan x then 3%float else x
  | None => 3%float
  end.

Definition extractedAspect (score : float) : Aspect :=
  {| score := score;
     feedback := JStr (lit "Analysis extracted from text response");
     strengths := [JStr (lit "Extracted from AI analysis")];
     improvements := [JStr (lit "See detailed feedback")] |}.

(** [exec] converts its argument to a string; [slice] exists on strings and
    arrays only, so every other argument ends in a TypeError. *)
Definition extractInsightsFromText (responseText : json)
  : completion ContentAnalysis :=
  do text <- match responseText with
             | JStr s => Normal s
             | JArr _ => ObjectToString B responseText
             | _ => Abrupt JsTypeError
             end;
  let scores :=
    filter (fun score => (1 <=? score)%float && (score <=? 5)%float)
           (map parseInt (scoreRegex_exec_all (S (length text)) text)) in
  do overall <- match responseText with
                | JStr s => Normal (firstn 500 s ++ lit "...")
                | JArr elements =>
                    do t <- ObjectToString B (JArr (firstn 500 elements));
                    Normal (t ++ lit "...")
                | _ => Abrupt JsTypeError
                end;
  Normal
    {| storytelling := extractedAspect (score_or_3 scores 0);
       audienceConnection := extractedAspect (score_or_3 scores 1);
       persuasiveness := extractedAspect (score_or_3 scores 2);
       overallFeedback := JStr overall;
       keyMessages := [JStr (lit "Key insights from AI analysis")];
       emotionalTone := JStr (lit "Tone analysis from response") |}.

(** ** [parseGeminiResponse] *)

(** Only a string has [match]. *)
Definition parseGeminiResponse (responseText : json) : completion ContentAnalysis :=
  catching
    (match responseText with
     | JStr s =>
         match match_braces s with
         | Some jsonString =>
             do analysis <- JSON_parse B jsonString;
             normalizeAnalysis analysis
         | None => Abrupt (JsError (lit "No valid JSON found in Gemini response"))
         end
     | _ => Abrupt JsTypeError
     end)
    (fun error => extractInsightsFromText responseText).

(** ** [getFallbackAnalysis] *)

(** [s.split(sep)] for a separator of one code unit. *)
Fixpoint split (sep : N) (s : jsstring) : list jsstring :=
  match s with
  | [] => [[]]
  | c :: s' =>
      if (c =? sep)%N then [] :: split sep s'
      else match split sep s' with
           | w :: ws => (c :: w) :: ws
           | [] => [[c]]
           end
  end.

(** [regexp.test(s)] for a pattern given by its matcher at a position. *)
Fixpoint test (at_head : jsstring -> bool) (s : jsstring) : bool :=
  at_head s ||
  match s with
  | [] => false
  | _ :: s' => test at_head s'
  end.

Definition emotionalWords : list jsstring :=
  [lit "excited"; lit "passionate"; lit "believe"; lit "important";
   lit "amazing"].

(** The decimal digits of a count, as a template literal prints it. *)
Definition decimal (n : nat) : jsstring :=
  lit (NilEmpty.string_of_uint (Nat.to_uint n)).

Definition getFallbackAnalysis (transcriptionText : jsstring)
    (audioMetrics : AudioMetrics) : ContentAnalysis :=
  let wordCount := length (split 32 transcriptionText) in
  let hasQuestions := existsb (N.eqb 63) transcriptionText in
  let hasEmotionalWords :=
    test (fun s => existsb (fun w => match after_ci w s with
                                   | Some _ => true
                                   | None => false
                                   end) emotionalWords)
         transcriptionText in
  {| storytelling :=
       {| score := if (50 <? wordCount)%nat then 4%float else 3%float;
          feedback :=
            JStr (lit "Your pitch contains " ++ decimal wordCount ++ lit " words. "
                  ++ (if (50 <? wordCount)%nat
                      then lit "Good length for storytelling."
                      else lit "Consider expanding your narrative."));
          strengths := [JStr (lit "Clear communication");
                        JStr (lit "Structured approach")];
          improvements := [JStr (lit "Add more narrative elements");
                           JStr (lit "Include personal examples")] |};
     audienceConnection :=
       {| score := if hasQuestions then 4%float else 3%float;
          feedback :=
            JStr (if hasQuestions
                  then lit "Good use of questions to engage audience"
                  else lit "Consider adding questions to engage your audience");
          strengths := [JStr (lit "Direct communication")];
          improvements := [JStr (lit "Add more audience interaction");
                           JStr (lit "Include relatable examples")] |};
     persuasiveness :=
       {| score := if hasEmotionalWords then 4%float else 3%float;
          feedback :=
            JStr (if hasEmotionalWords
                  then lit "Good use of persuasive language"
                  else lit "Consider adding more compelling language");
          strengths := [JStr (lit "Clear message delivery")];
          improvements := [JStr (lit "Strengthen call to action");
                           JStr (lit "Add supporting evidence")] |};
     overallFeedback :=
       JStr (lit "Analysis completed using fallback system. For detailed AI insights, ensure Gemini API is configured.");
     keyMessages := [JStr (lit "Main pitch delivered clearly")];
     emotionalTone :=
       JStr (if hasEmotionalWords
             then lit "Enthusiastic and engaging"
             else lit "Professional and measured") |}.

(** ** [analyzeWithGemini] *)

(** [apiKey] is [process.env.GEMINI_API_KEY]; [reply] is how
    [fetch(...)] followed by [response.json()] completes.  The prompt
    depends on the transcription and the metrics only and goes to the
    request. *)
Definition analyzeWithGemini (apiKey : option jsstring) (reply : completion json)
    (transcriptionText : jsstring) (audioMetrics : AudioMetrics)
  : completion ContentAnalysis :=
  catching
    (if match apiKey with
        | None | Some [] => true
        | Some key => string_eqb key (lit "your_gemini_api_key_here")
        end
     then Normal (getFallbackAnalysis transcriptionText audioMetrics)
     else
       do data <- reply;
       let analysisText :=
         opt_member
           (opt_first
              (opt_member
                 (opt_member (opt_first (opt_member (Some data) (lit "candidates")))
                             (lit "content"))
                 (lit "parts")))
           (lit "text") in
       match analysisText with
       | Some text =>
           if truthy analysisText then parseGeminiResponse text
           else Normal (getFallbackAnalysis transcriptionText audioMetrics)
       | None => Normal (getFallbackAnalysis transcriptionText audioMetrics)
       end)
    (fun error => Normal (getFallbackAnalysis transcriptionText audioMetrics)).

(** ** Transcription *)

Definition message (e : exception) : jsstring :=
  match e with
  | JsError m => m
  | _ => engineMessage B e
  end.

(** What [fetch] resolves to: [response.ok], [response.status], and how
    [response.text()] and [response.json()] complete. *)
Record FetchResponse : Type := {
  ok : bool;
  status : nat;
  response_text : completion jsstring;
  response_json : completion json
}.

(** What the environment answers during a transcription: the key, the two
    conversions to WAV, the two requests, and the calls of the SDK
    attempt. *)
Record Attempts : Type := {
  HUGGINGFACE_API_KEY : option jsstring;
  convertToWav : completion unit;
  fetchWhisperLarge : completion FetchResponse;
  fetchWhisperTiny : completion FetchResponse;
  convertToWavForSDK : completion unit;
  ensureDir : completion unit;
  writeFile : completion unit;
  automaticSpeechRecognition : completion json;
  pathExists : completion bool;
  remove : completion unit
}.

(** [!process.env.HUGGINGFACE_API_KEY] *)
Definition noKey (a : Attempts) : bool :=
  match HUGGINGFACE_API_KEY a with
  | None | Some [] => true
  | Some (_ :: _) => false
  end.

(** [result.text], after [result.text.substring(0, 100)] was evaluated
    for the log: only a string has [substring]. *)
Definition text_of (result : json) : completion jsstring :=
  do text <- member (Some result) (lit "text");
  match text with
  | Some (JStr s) => Normal s
  | _ => Abrupt JsTypeError
  end.

Definition transcribeWithHuggingFaceHTTP (a : Attempts) : completion jsstring :=
  catching
    (if noKey a then Abrupt (JsError (lit "HUGGINGFACE_API_KEY not configured"))
     else
       do wavBuffer <- convertToWav a;
       do response <- fetchWhisperLarge a;
       if negb (ok response) then
         do errorText <- response_text response;
         Abrupt (JsError (lit "HuggingFace API error: " ++ decimal (status response)
                          ++ lit " - " ++ errorText))
       else
         do result <- response_json response;
         text_of result)
    (fun error => Abrupt error).

Definition transcribeWithHuggingFaceSimple (a : Attempts) : completion jsstring :=
  catching
    (if noKey a then Abrupt (JsError (lit "HUGGINGFACE_API_KEY not configured"))
     else
       do response <- fetchWhisperTiny a;
       if negb (ok response) then
         do errorText <- response_text response;
         Abrupt (JsError (lit "Simple HuggingFace API error: "
                          ++ decimal (status response)
                          ++ lit " - " ++ errorText))
       else
         do result <- response_json response;
         text_of result)
    (fun error => Abrupt error).

(** The [try] block of the SDK attempt. *)
Definition sdkAttempt (a : Attempts) : completion jsstring :=
  do wavBuffer <- convertToWavForSDK a;
  do tempDir <- ensureDir a;
  do written <- writeFile a;
  do response <- automaticSpeechRecognition a;
  text_of response.

(** Its [finally] block: [tempFilePath] is set once the conversion and
    [ensureDir] have succeeded. *)
Definition sdkCleanup (a : Attempts) : completion unit :=
  match convertToWavForSDK a, ensureDir a with
  | Normal _, Normal _ =>
      do found <- pathExists a;
      if found then remove a else Normal tt
  | _, _ => Normal tt
  end.

Definition transcribeWithHuggingFace (a : Attempts) : completion jsstring :=
  catching (transcribeWithHuggingFaceHTTP a)
    (fun httpError =>
       catching (transcribeWithHuggingFaceSimple a)
         (fun simpleError =>
            let attempt :=
              catching (sdkAttempt a)
                (fun sdkError =>
                   Abrupt (JsError (lit "All transcription methods failed: "
                                    ++ message sdkError))) in
            do _ <- sdkCleanup a;
            attempt)).

(** The [catch] block only logs, so a failure gives [undefined]. *)
Definition transcribeAudio (a : Attempts) (method : jsstring)
  : completion (option jsstring) :=
  catching
    (if string_eqb method (lit "huggingface")
     then do text <- transcribeWithHuggingFace a; Normal (Some text)
     else Abrupt (JsError (lit "Unknown transcription method: " ++ method)))
    (fun error => Normal None).

(** ** Temporary files *)

(** [pathExists] and [remove] are how the two calls of [fs] complete. *)
Definition cleanupTempFile (pathExists : completion bool)
    (remove : completion unit) : completion unit :=
  catching
    (do found <- pathExists;
     if found then remove else Normal tt)
    (fun error => Normal tt).

(** ** The endpoint [POST /api/evaluate-pitch] *)

Record Evaluation : Type := {
  delivery : Delivery.t;
  engagement : Engagement.t;
  transcription : jsstring;
  detailedAnalysis : ContentAnalysis;
  audioMetrics : AudioMetrics
}.

Inductive Response : Type :=
| BadRequest (error : jsstring)
| Evaluated (result : Evaluation) (overallScore : float) (success : bool)
            (processingTime : float).

(** What the environment answers while a request is handled. *)
Record Environment : Type := {
  startTime : float;
  saveTemporaryAudioFile : completion jsstring;
  attempts : Attempts;
  GEMINI_API_KEY : option jsstring;
  geminiReply : completion json;
  finishTime : float;
  tempFileExists : completion bool;
  tempFileRemove : completion unit
}.

(** What the handler did: the response it sent, if any, the path it passed
    to [cleanupTempFile], if it called it, and how the handler itself
    completed. *)
Record Handled : Type := {
  response : option Response;
  cleanedUp : option jsstring;
  completed : completion unit
}.

Definition of_result {A : Type} (r : result A) : completion A :=
  match r with
  | Ok a => Normal a
  | Throw RangeError => Abrupt JsRangeError
  | Throw TypeError => Abrupt JsTypeError
  end.

(** [Object.values(o).reduce((a, b) => a + b, 0) / Object.values(o).length] *)
Definition average (values : list float) : float :=
  (fold_left (fun a b => a + b) values 0 / of_nat (length values))%float.

Definition overallScoreOf (d : Delivery.t) (e : Engagement.t) : float :=
  let deliveryAvg :=
    average [Delivery.pace d; Delivery.tone d; Delivery.clarity d;
             Delivery.confidence d; Delivery.enthusiasm d] in
  let engagementAvg :=
    average [Engagement.storytelling e; Engagement.audienceConnection e;
             Engagement.persuasiveness e] in
  Math_round ((deliveryAvg + engagementAvg) / 2 * 2)%float.

Definition evaluatePitch (file : option Buffer) (env : Environment) : Handled :=
  match file with
  | None =>
      {| response := Some (BadRequest (lit "No audio file provided"));
         cleanedUp := None;
         completed := Normal tt |}
  | Some buffer =>
      let body :=
        do tempFilePath <- saveTemporaryAudioFile env;
        do transcribed <- transcribeAudio (attempts env) (lit "huggingface");
        (* transcription.substring(0, 100) *)
        do transcription <- match transcribed with
                            | Some text => Normal text
                            | None => Abrupt JsTypeError
                            end;
        do audioMetrics <- of_result (analyzeAudioProperties M buffer);
        do contentAnalysis <-
          analyzeWithGemini (GEMINI_API_KEY env) (geminiReply env)
                            transcription audioMetrics;
        let result :=
          {| delivery :=
               {| Delivery.pace := pace audioMetrics;
                  Delivery.tone := tonalVariation audioMetrics;
                  Delivery.clarity := clarity audioMetrics;
                  Delivery.confidence := confidence audioMetrics;
                  Delivery.enthusiasm := enthusiasm audioMetrics |};
             engagement :=
               {| Engagement.storytelling := score (storytelling contentAnalysis);
                  Engagement.audienceConnection :=
                    score (audienceConnection contentAnalysis);
                  Engagement.persuasiveness :=
                    score (persuasiveness contentAnalysis) |};
             transcription := transcription;
             detailedAnalysis := contentAnalysis;
             audioMetrics := audioMetrics |} in
        let overallScore := overallScoreOf (delivery result) (engagement result) in
        Normal (Evaluated result overallScore true
                          (finishTime env - startTime env)%float) in
      {| response := match body with
                     | Normal r => Some r
                     | Abrupt error => None
                     end;
         cleanedUp := match saveTemporaryAudioFile env with
                      | Normal (c :: p) => Some (c :: p)
                      | _ => None
                      end;
         completed := match saveTemporaryAudioFile env with
                      | Normal (c :: p) =>
                          cleanupTempFile (tempFileExists env) (tempFileRemove env)
                      | _ => Normal tt
                      end |}
  end.

End Server.

(** * The store of recordings

    A shallow embedding of the class [AudioStorage] of
    [src/utils/audioStorage.ts].  The object store [audioRecords] of the
    IndexedDB database is a state passed from call to call: its records,
    one for each key, in the order of their keys ([keyPath: 'id']).  A
    request fails as the IndexedDB specification says for the data ([add]
    with a key that is present: ConstraintError); whether the database
    opens is an argument of each method. *)

Module Partial.

(** [Partial<AudioRecord>]: [None] for a property that [updates] does not
    have. *)
Record t (Blob : Type) : Type := {
  id : option jsstring;
  name : option jsstring;
  audioBlob : option Blob;
  timestamp : option Z;
  result : option (option json);
  overallScore : option (option json)
}.

Arguments id {Blob} t.
Arguments name {Blob} t.
Arguments audioBlob {Blob} t.
Arguments timestamp {Blob} t.
Arguments result {Blob} t.
Arguments overallScore {Blob} t.

End Partial.

Module AudioStorage.

Section Store.

Close Scope float_scope.

Variable Blob : Type.

Notation "'do' x <- c ; k" := (and_then c (fun x => k))
  (at level 10, x name, c at level 100, k at level 200).

(** [result] and [overallScore] hold what the caller passes, which
    [handleEvaluatePitch] takes from the response of the backend: a JSON
    value, or [undefined] ([None]). *)
Record AudioRecord : Type := {
  id : jsstring;
  name : jsstring;
  audioBlob : Blob;
  timestamp : Z;
  result : option json;
  overallScore : option json
}.

Definition Store : Type := list AudioRecord.

(** The order of string keys: by code units. *)
Fixpoint string_ltb (a b : jsstring) : bool :=
  match a, b with
  | _, [] => false
  | [], _ :: _ => true
  | x :: a', y :: b' => (x <? y)%N || ((x =? y)%N && string_ltb a' b')
  end.

(** [store.get(key)] *)
Fixpoint get (key : jsstring) (s : Store) : option AudioRecord :=
  match s with
  | [] => None
  | r :: s' => if string_eqb (id r) key then Some r else get key s'
  end.

(** [store.put(record)] *)
Fixpoint put (record : AudioRecord) (s : Store) : Store :=
  match s with
  | [] => [record]
  | r :: s' =>
      if string_eqb (id r) (id record) then record :: s'
      else if string_ltb (id record) (id r) then record :: r :: s'
      else r :: put record s'
  end.

(** [store.add(record)] *)
Definition add (record : AudioRecord) (s : Store) : completion Store :=
  match get (id record) s with
  | Some _ => Abrupt (DOMException (lit "ConstraintError"))
  | None => Normal (put record s)
  end.

(** [store.delete(key)] *)
Definition delete (key : jsstring) (s : Store) : Store :=
  filter (fun r => negb (string_eqb (id r) key)) s.

(** [Date.now().toString()] *)
Definition decimalZ (z : Z) : jsstring :=
  lit (NilEmpty.string_of_int (Z.to_int z)).

(** [openDB] is how [this.openDB()] completes; [now] and [now'] are the two
    readings of [Date.now()]. *)
Definition saveAudio (openDB : completion unit) (now now' : Z)
    (audioBlob : Blob) (name : jsstring) (s : Store)
  : completion jsstring * Store :=
  match openDB with
  | Abrupt e => (Abrupt e, s)
  | Normal db =>
      let id := decimalZ now in
      let audioRecord :=
        {| id := id; name := name; audioBlob := audioBlob; timestamp := now';
           result := None; overallScore := None |} in
      match add audioRecord s with
      | Normal s' => (Normal id, s')
      | Abrupt e => (Abrupt e, s)
      end
  end.

Definition getAllAudio (openDB : completion unit) (s : Store)
  : completion (list AudioRecord) :=
  do db <- openDB;
  Normal s.

(** [request.result || null]: [None] is [null]. *)
Definition getAudio (openDB : completion unit) (id : jsstring) (s : Store)
  : completion (option AudioRecord) :=
  do db <- openDB;
  Normal (get id s).

(** [{ ...existing, ...updates }] *)
Definition merge (existing : AudioRecord) (updates : Partial.t Blob)
  : AudioRecord :=
  {| id := match Partial.id updates with
           | Some v => v
           | None => id existing
           end;
     name := match Partial.name updates with
             | Some v => v
             | None => name existing
             end;
     audioBlob := match Partial.audioBlob updates with
                  | Some v => v
                  | None => audioBlob existing
                  end;
     timestamp := match Partial.timestamp updates with
                  | Some v => v
                  | None => timestamp existing
                  end;
     result := match Partial.result updates with
               | Some v => v
               | None => result existing
               end;
     overallScore := match Partial.overallScore updates with
                     | Some v => v
                     | None => overallScore existing
                     end |}.

(** [openDB'] is the completion of the [openDB] of the inner [getAudio]. *)
Definition updateAudio (openDB openDB' : completion unit) (id : jsstring)
    (updates : Partial.t Blob) (s : Store) : completion unit * Store :=
  match (do db <- openDB; getAudio openDB' id s) with
  | Abrupt e => (Abrupt e, s)
  | Normal None => (Abrupt (JsError (lit "Audio record not found")), s)
  | Normal (Some existing) =>
      let updated := merge existing updates in
      (Normal tt, put updated s)
  end.

Definition deleteAudio (openDB : completion unit) (id : jsstring) (s : Store)
  : completion unit * Store :=
  match openDB with
  | Abrupt e => (Abrupt e, s)
  | Normal db => (Normal tt, delete id s)
  end.

(** ** [handleEvaluatePitch] of the home page

    [audioBlob] is how the recording or the upload is obtained ([null] if
    there is none), and [name] the name made of the local time; [post] is
    how the request to
    [/api/evaluate-pitch] settles, [None] if it never does; the first
    component of the result is how the function completes, [None] if it
    never does. *)
Definition handleEvaluatePitch (audioBlob : completion (option Blob))
    (name : jsstring)
    (openDB : completion unit) (now now' : Z)
    (post : option (completion json)) (openDB' openDB'' : completion unit)
    (s : Store) : option (completion unit) * Store :=
  match audioBlob with
  | Abrupt e => (Some (Abrupt e), s)
  | Normal None => (Some (Normal tt), s)
  | Normal (Some blob) =>
      match saveAudio openDB now now' blob name s with
      | (Abrupt e, s1) => (Some (Abrupt e), s1)
      | (Normal audioId, s1) =>
          match post with
          | None => (None, s1)
          | Some (Abrupt e) => (Some (Abrupt e), s1)
          | Some (Normal data) =>
              match member (Some data) (lit "result"),
                    member (Some data) (lit "overallScore") with
              | Normal result, Normal overallScore =>
                  let updates :=
                    {| Partial.id := None; Partial.name := None;
                       Partial.audioBlob := None; Partial.timestamp := None;
                       Partial.result := Some result;
                       Partial.overallScore := Some overallScore |} in
                  match updateAudio openDB' openDB'' audioId updates s1 with
                  | (c, s2) => (Some c, s2)
                  end
              | Abrupt e, _ | _, Abrupt e => (Some (Abrupt e), s1)
              end
          end
      end
  end.

End Store.

Arguments id {Blob} a.
Arguments name {Blob} a.
Arguments audioBlob {Blob} a.
Arguments timestamp {Blob} a.
Arguments result {Blob} a.
Arguments overallScore {Blob} a.
Arguments get {Blob} key s.
Arguments put {Blob} record s.
Arguments add {Blob} record s.
Arguments delete {Blob} key s.
Arguments saveAudio {Blob} openDB now now' audioBlob name s.
Arguments getAllAudio {Blob} openDB s.
Arguments getAudio {Blob} openDB id s.
Arguments merge {Blob} existing updates.
Arguments updateAudio {Blob} openDB openDB' id updates s.
Arguments deleteAudio {Blob} openDB id s.
Arguments handleEvaluatePitch {Blob} audioBlob name openDB now now' post
  openDB' openDB'' s.

End AudioStorage.

(** * Definitions for the properties *)

Close Scope float_scope.

(** ** Decoding *)

(** The value stored for sample [i] when both of its bytes are in the
    buffer. *)
Definition sampleAt (buffer : Buffer) (i : nat) : float :=
  fround (of_Z (int16_of (byte_val (nth (i * 2) buffer Byte.x00)
                          + 256 * byte_val (nth (i * 2 + 1) buffer Byte.x00)))
          / 32768.0).

(** Checking a predicate on [n] consecutive integers from [z] on. *)
Fixpoint forall_from (n : nat) (p : Z -> bool) (z : Z) : bool :=
  match n with
  | O => true
  | S n' => if p z then forall_from n' p (z + 1) else false
  end.

(** What is checked of the quotient [v / 32768]: storing it in a
    [Float32Array] does not change it, and it lies in [-1, 1). *)
Definition sample_ok (v : Z) : bool :=
  let x := (of_Z v / 32768.0)%float in
  PrimFloat.Leibniz.eqb (fround x) x && (-1 <=? x)%float && (x <? 1)%float.

(** The signed 16-bit little-endian integer formed by two bytes, in the
    words of the specification: the low byte first, bit 15 the sign. *)
Definition s16le (b0 b1 : Byte.byte) : Z :=
  let u := Z.lor (byte_val b0) (Z.shiftl (byte_val b1) 8) in
  if Z.testbit u 15 then (u - 2 ^ 16)%Z else u.

(** ** Loops and the segmentation state machine *)

(** The number of iterations of [for (i = 0; i < stop; i += step)]. *)
Definition iterations (stop step : nat) : nat := (stop + step - 1) / step.

(** Both detectors run one machine: in [Quiet] ([inRun = false]) a window
    that [opens] starts a run at the window's time stamp; in [Active] a window
    that [closes] ends the run, and the segment is appended if [keep]. *)
Definition segStep (opens closes keep : bool) (t : float) (st : SegState)
  : SegState :=
  if opens && negb (inRun st) then
    {| segments := segments st; inRun := true; runStart := t |}
  else if closes && inRun st then
    {| segments := if keep
                   then segments st ++ [{| seg_start := runStart st; seg_end := t |}]
                   else segments st;
       inRun := false;
       runStart := runStart st |}
  else st.

(** [i / sampleRate] *)
Definition stampOf (sampleRate : float) (i : nat) : float :=
  (of_nat i / sampleRate)%float.

Definition windowAt (samples : list float) (windowSize i : nat) : list float :=
  slice samples i (Nat.min (i + windowSize) (length samples)).

(** The same machine on window numbers: the closed runs, as pairs
    (opening window, closing window), and the window that opened the run in
    progress, if any. *)
Record PosState : Type := {
  psegs : list (nat * nat);
  popen : option nat
}.

Definition initPosState : PosState := {| psegs := []; popen := None |}.

Definition posStep (opens closes keep : bool) (k : nat) (ps : PosState)
  : PosState :=
  match popen ps with
  | None => if opens then {| psegs := psegs ps; popen := Some k |} else ps
  | Some a =>
      if closes
      then {| psegs := if keep then psegs ps ++ [(a, k)] else psegs ps;
              popen := None |}
      else ps
  end.

(** Runs that follow one another: each opens at or after [lo], closes
    later than it opens, and the next one opens later than that. *)
Fixpoint chain (lo : nat) (ps : list (nat * nat)) : Prop :=
  match ps with
  | [] => True
  | (a, b) :: ps' => lo <= a /\ a < b /\ chain (S b) ps'
  end.

(** The first window at which a further run may open. *)
Definition frontier (lo : nat) (ps : list (nat * nat)) : nat :=
  fold_left (fun _ p => S (snd p)) ps lo.

(** The state after the first [n] windows of a loop whose body is [step]
    and whose windows are [ws] samples long. *)
Definition run (ws : nat) (step : nat -> SegState -> SegState) (n : nat)
  : SegState :=
  fold_left (fun st k => step (k * ws) st) (seq 0 n) initSegState.

(** The window numbers behind the state after [n] windows, for a body that
    is [segStep] with the flags [opens], [closes] and [keep]. *)
Fixpoint prun (ws : nat) (step : nat -> SegState -> SegState)
    (opens closes : nat -> bool) (keep : nat -> SegState -> bool) (n : nat)
  : PosState :=
  match n with
  | O => initPosState
  | S n' =>
      posStep (opens (n' * ws)) (closes (n' * ws))
              (keep (n' * ws) (run ws step n')) n'
              (prun ws step opens closes keep n')
  end.

Definition stampSeg (ws : nat) (stamp : nat -> float) (p : nat * nat)
  : Segment :=
  {| seg_start := stamp (fst p * ws); seg_end := stamp (snd p * ws) |}.

(** The state holds the time stamps of the window numbers. *)
Definition agree (ws : nat) (stamp : nat -> float) (st : SegState)
    (ps : PosState) : Prop :=
  segments st = map (stampSeg ws stamp) (psegs ps) /\
  match popen ps with
  | None => inRun st = false
  | Some a => inRun st = true /\ runStart st = stamp (a * ws)
  end.

(** The closed runs form a chain, the run in progress opened after them,
    and every window number is below [n]. *)
Definition posInv (n : nat) (ps : PosState) : Prop :=
  chain 0 (psegs ps) /\
  match popen ps with
  | None => frontier 0 (psegs ps) <= n
  | Some a => frontier 0 (psegs ps) <= a /\ a < n
  end.

(** The time stamps of the windows below [n] increase with the window. *)
Definition stampsIncrease (ws : nat) (stamp : nat -> float) (n : nat) : Prop :=
  forall a b, a < b -> b < n ->
    (stamp (a * ws)%nat <? stamp (b * ws)%nat)%float = true.

(** A list of segments in time order: each ends after it starts, and of two
    segments the earlier one starts and ends before the later one starts. *)
Definition timeOrdered (segs : list Segment) : Prop :=
  Forall (fun s => (seg_start s <? seg_end s)%float = true) segs /\
  ForallOrdPairs (fun s1 s2 => (seg_start s1 <? seg_start s2)%float = true /\
                               (seg_end s1 <? seg_start s2)%float = true) segs.

(** The time stamps of the window starts [a * ws] below [len] increase
    with [a]. *)
Definition timeStampsIncrease (sampleRate : float) (ws len : nat) : Prop :=
  forall a b, a < b -> b * ws < len ->
    (stampOf sampleRate (a * ws) <? stampOf sampleRate (b * ws))%float = true.

(** One hour of samples at 44100 Hz. *)
Definition oneHour : Z := 158760000.

(** The stamp [441 k / 44100] of the [k]-th 10 ms window. *)
Definition stampZ (k : Z) : float :=
  (PrimFloat.of_uint63 (Uint63.of_Z (k * 441)) / 44100)%float.

Definition stamp_below_next (k : Z) : bool :=
  (stampZ k <? stampZ (k + 1))%float.

(** A clip of 0.26 s: 20 ms of a loud constant, 220 ms of silence, 20 ms of
    the loud constant. *)
Definition exampleClip : list float :=
  repeat 0.5%float 882 ++ repeat 0%float (11 * 882) ++ repeat 0.5%float 882.

(** ** Scores *)

(** The record built from the five primary scores. *)
Definition withDerived (p v c pd t : float) : AudioMetrics :=
  let audioMetrics :=
    {| pace := p; volume := v; clarity := c; pauseDuration := pd;
       tonalVariation := t; confidence := 0; enthusiasm := 0 |} in
  let audioMetrics :=
    set_confidence audioMetrics (calculateConfidenceFromMetrics audioMetrics) in
  set_enthusiasm audioMetrics (calculateEnthusiasmFromMetrics audioMetrics).

Definition inScale (x : float) : Prop :=
  ((1 <=? x) && (x <=? 5))%float = true.

(** A crude [MathLib], enough to run the pipeline on examples. *)
Definition Math_example : MathLib :=
  {| Math_cos := fun x => (1 - x * x / 2)%float;
     Math_sin := fun x => x;
     Math_log10 := fun x => ((x - 1) / 2.302585092994046)%float;
     Math_pow := fun x y => (x * x)%float |}.

Definition half_ok (N : nat) : bool :=
  match new_Array (of_nat N / 2)%float with
  | Ok bins => Nat.even N && (bins =? N / 2)
  | Throw _ => negb (Nat.even N)
  end.

(** The magnitude of bin [k], as the loop over [n] computes it. *)
Definition binMagnitude (M : MathLib) (samples : list float) (k : nat) : float :=
  let N := Nat.min 1024 (length samples) in
  let real := map (fun i => if i <? length samples
                            then nth i samples nan else 0%float) (seq 0 N) in
  let imag := map (fun i => 0%float) (seq 0 N) in
  let '(realSum, imagSum) := dftSums M real imag N k in
  Math_sqrt (realSum * realSum + imagSum * imagSum)%float.

(** The bucket table of the specification: the score of the first bound
    the rate is below, 3 beyond the last. *)
Definition paceTable : list (float * float) :=
  [(1.5, 2); (2.5, 3); (4.0, 5); (5.0, 4)]%float.

Fixpoint lookupBucket (table : list (float * float)) (beyond x : float) : float :=
  match table with
  | [] => beyond
  | (bound, score) :: table' =>
      if (x <? bound)%float then score else lookupBucket table' beyond x
  end.

Definition paceScore (speechRate : float) : float :=
  lookupBucket paceTable 3 speechRate.

(** The total speech time of the specification: the seconds of each
    segment, end minus start, added up from the first segment on. *)
Definition segmentSeconds (segment : Segment) : float :=
  (seg_end segment - seg_start segment)%float.

Fixpoint addFrom (total : float) (seconds : list float) : float :=
  match seconds with
  | [] => total
  | x :: seconds' => addFrom (total + x)%float seconds'
  end.

Definition totalSpeechSeconds (segs : list Segment) : float :=
  addFrom 0%float (map segmentSeconds segs).

(** The speech rate of the specification: segments per second of speech,
    and 0 when there is no speech time. *)
Definition speechRateOf (segs : list Segment) : float :=
  if (0 <? totalSpeechSeconds segs)%float
  then (of_nat (length segs) / totalSpeechSeconds segs)%float
  else 0%float.

(** A recording of 0.64 s with two stretches of speech, of 0.24 s and of
    0.36 s, each followed by a quiet window of 20 ms. *)
Definition exampleTalk : list float :=
  repeat 0.5%float (12 * 882) ++ repeat 0%float 882 ++
  repeat 0.5%float (18 * 882) ++ repeat 0%float 882.

Definition exampleRecording : AudioData :=
  {| buffer := []; sampleRate := 44100; channels := 1;
     duration := (of_nat (2 * 32 * 882) / (44100 * 2))%float;
     samples := exampleTalk |}.

(** ** Arithmetic of binary64 numbers and the derived scores *)

(** Equal, or two zeros that may differ in sign. *)
Definition isZero (x : float) : Prop := exists s, Prim2SF x = S754_zero s.

Definition sameOrZeros (x y : float) : Prop :=
  x = y \/ (isZero x /\ isZero y).

(** The formulas of the specification. *)
Definition clampScore (x : float) : float := Math_min 5 (Math_max 1 x).

Definition roundOneDecimal (x : float) : float :=
  (Math_round (x * 10) / 10)%float.

Definition confidenceSum (volume clarity pace tonalVariation : float) : float :=
  (0.3 * volume + 0.3 * clarity + 0.2 * pace
   + (if (3 <=? tonalVariation) && (tonalVariation <=? 4)
      then 1.0 else 0.2 * tonalVariation))%float.

Definition enthusiasmSum (volume tonalVariation pace : float) : float :=
  (0.4 * volume + 0.4 * tonalVariation
   + (if 4 <=? pace then 1.0 else 0.2 * pace))%float.

(** ** Tactics *)

Ltac split_In :=
  repeat match goal with
         | H : In _ _ |- _ => cbn [In] in H
         | H : _ \/ _ |- _ => destruct H
         | H : False |- _ => destruct H
         end.

Ltac pick_In :=
  cbn [In];
  first [ left; reflexivity
        | right; left; reflexivity
        | right; right; left; reflexivity
        | right; right; right; left; reflexivity
        | right; right; right; right; left; reflexivity
        | right; right; right; right; right; left; reflexivity ].

(** Membership in one list of constants from membership [H] in another. *)
Ltac in_list_by H :=
  cbn [In] in H;
  repeat (destruct H as [H|H]; [subst; pick_In|]);
  first [destruct H | subst; pick_In].

(** ** Silence and quotients of zero *)

(** A clip that ends in silence after a counted pause. *)
Definition exampleClipEndingInSilence : list float :=
  exampleClip ++ repeat 0%float 882.

(** [0 / y] is a zero or NaN, whatever [y] is. *)
Definition zeroOrNaN (x : float) : Prop :=
  (exists s, Prim2SF x = S754_zero s) \/ Prim2SF x = S754_nan.

(** Every window of the speech detector, at 44100 Hz, has an energy above
    the threshold. *)
Definition gapless (samples : list float) : Prop :=
  forall k, k * 882 < length samples ->
    (energyThreshold
     <? calculateWindowEnergy
          (slice samples (k * 882)
                 (Nat.min (k * 882 + 882) (length samples))))%float = true.

(** ** Writing and reading a sample *)

(** Reading back the two bytes written for [v] gives [v]. *)
Definition round_trip_ok (v : Z) : bool :=
  match writeInt16LE v with
  | Ok (lo, hi) =>
      match readInt16LE [lo; hi] 0 with
      | Ok r => (r =? v)%Z
      | Throw _ => false
      end
  | Throw _ => false
  end.

(** ** Scores of the content analysis *)

Definition inScaleOrNaN (x : float) : Prop := is_nan x = true \/ inScale x.

Definition engagementScores (r : ContentAnalysis) : list float :=
  [score (storytelling r); score (audienceConnection r);
   score (persuasiveness r)].

(** [analysis.<name>?.score] *)
Definition scoreGiven (analysis : json) (name : jsstring) : option json :=
  opt_member (getProp analysis name) (lit "score").

(** No score, or a number. *)
Definition numericOrAbsent (v : option json) : Prop :=
  match v with
  | None => True
  | Some (JNum x) => is_nan x = false
  | Some _ => False
  end.

(** What [normalizeAnalysis] makes of a numeric score: a number of the
    scale, the given one if it is of the scale already, and 3 if none or
    zero was given. *)
Definition normalScore (given : option json) (s : float) : Prop :=
  inScale s /\
  match given with
  | None => s = 3%float
  | Some (JNum x) =>
      ((x =? 0)%float = true -> s = 3%float) /\ (inScale x -> s = x)
  | Some _ => True
  end.

(** An engine for the examples: it parses nothing and converts to NaN. *)
Definition Builtins_example : Builtins :=
  {| JSON_parse := fun _ => Abrupt JsSyntaxError;
     StringToNumber := fun _ => nan;
     ObjectToNumber := fun _ => Normal nan;
     ObjectToString := fun _ => Normal (lit "[object Object]");
     engineMessage := fun _ => lit "" |}.

Definition exampleAnalysis : json :=
  JObj [(lit "storytelling", JObj [(lit "score", JNum 4.5)]);
        (lit "audienceConnection", JObj [(lit "score", JNum 0)]);
        (lit "persuasiveness", JObj [(lit "feedback", JStr (lit "fine"))])].

(** The text [transcribeWithHuggingFace] resolves to, if any: that of the
    first attempt that succeeds. *)
Definition firstTranscript (a : Attempts) : option jsstring :=
  match transcribeWithHuggingFaceHTTP a with
  | Normal text => Some text
  | Abrupt _ =>
      match transcribeWithHuggingFaceSimple a with
      | Normal text => Some text
      | Abrupt _ =>
          match sdkCleanup a, sdkAttempt a with
          | Normal _, Normal text => Some text
          | _, _ => None
          end
      end
  end.

(** A response of the service that a method accepts: [ok], with a JSON
    body whose [text] is the string [s]. *)
Definition transcribedBy (fetched : completion FetchResponse) (s : jsstring)
  : Prop :=
  exists response result,
    fetched = Normal response /\ ok response = true /\
    response_json response = Normal result /\
    getProp result (lit "text") = Some (JStr s).

(** ** The overall score *)

Definition deliveryOf (m : AudioMetrics) : Delivery.t :=
  {| Delivery.pace := pace m;
     Delivery.tone := tonalVariation m;
     Delivery.clarity := clarity m;
     Delivery.confidence := confidence m;
     Delivery.enthusiasm := enthusiasm m |}.

Definition wholeScores : list float := [1; 2; 3; 4; 5]%float.

(** The averages of three whole scores. *)
Definition engagementAverages : list float :=
  map (fun n => (of_nat n / 3)%float) (seq 3 13).

Definition overallScores : list float := [3; 4; 5; 6; 7; 8; 9; 10]%float.

(** Every combination of primary scores of the lists [ps], [vs], [cs] and
    [ts] and of an engagement average of [eas] gives an overall score of
    [overallScores]. *)
Definition overallCheck (ps vs cs ts eas : list float) : bool :=
  forallb (fun p => forallb (fun v => forallb (fun c => forallb (fun t =>
    let d := deliveryOf (withDerived p v c 2 t) in
    let deliveryAvg :=
      average [Delivery.pace d; Delivery.tone d; Delivery.clarity d;
               Delivery.confidence d; Delivery.enthusiasm d] in
    forallb (fun engagementAvg =>
               existsb (PrimFloat.Leibniz.eqb
                          (Math_round ((deliveryAvg + engagementAvg) / 2 * 2)%float))
                       overallScores)
            eas)
    ts) cs) vs) ps.

Definition exampleEnvironment : Environment :=
  {| startTime := 1700000000000;
     saveTemporaryAudioFile := Normal (lit "temp/audio_1700000000001.webm");
     attempts :=
       {| HUGGINGFACE_API_KEY := Some (lit "hf_key");
          convertToWav := Abrupt (JsError (lit "ffmpeg exited with code 1"));
          fetchWhisperLarge := Abrupt (JsError (lit "fetch failed"));
          fetchWhisperTiny :=
            Normal {| ok := true; status := 200;
                      response_text := Abrupt JsTypeError;
                      response_json :=
                        Normal (JObj [(lit "text",
                                       JStr (lit "we believe in this product"))]) |};
          convertToWavForSDK := Abrupt (JsError (lit "ffmpeg exited with code 1"));
          ensureDir := Normal tt;
          writeFile := Normal tt;
          automaticSpeechRecognition := Abrupt (JsError (lit "fetch failed"));
          pathExists := Normal false;
          remove := Normal tt |};
     GEMINI_API_KEY := None;
     geminiReply := Abrupt JsTypeError;
     finishTime := 1700000000950;
     tempFileExists := Normal true;
     tempFileRemove := Normal tt |}.

(** An engine whose [JSON.parse] returns an analysis with a score that is
    not a number, and a reply of the service that carries a text. *)
Definition Builtins_wordScore : Builtins :=
  {| JSON_parse := fun _ =>
       Normal (JObj [(lit "storytelling",
                      JObj [(lit "score", JStr (lit "high"))])]);
     StringToNumber := fun _ => nan;
     ObjectToNumber := fun _ => Normal nan;
     ObjectToString := fun _ => Normal (lit "[object Object]");
     engineMessage := fun _ => lit "" |}.

Definition exampleReply : json :=
  JObj [(lit "candidates",
         JArr [JObj [(lit "content",
                      JObj [(lit "parts",
                             JArr [JObj [(lit "text",
                                          JStr (lit "{ }"))]])])]])].

Definition exampleEnvironmentWithKey : Environment :=
  {| startTime := startTime exampleEnvironment;
     saveTemporaryAudioFile := saveTemporaryAudioFile exampleEnvironment;
     attempts := attempts exampleEnvironment;
     GEMINI_API_KEY := Some (lit "key");
     geminiReply := Normal exampleReply;
     finishTime := finishTime exampleEnvironment;
     tempFileExists := tempFileExists exampleEnvironment;
     tempFileRemove := tempFileRemove exampleEnvironment |}.

(** * Lemmas and theorems *)

(** ** The decoder *)

Lemma mapM_pure {A B : Type} (f : A -> result B) (g : A -> B) (l : list A) :
  (forall a, In a l -> f a = Ok (g a)) -> mapM f l = Ok (map g l).
Proof.
  induction l as [|a l IH]; intros Hf; cbn [mapM map].
  - reflexivity.
  - rewrite (Hf a (or_introl eq_refl)). cbn [bind].
    rewrite IH by (intros b Hb; apply Hf; now right).
    reflexivity.
Qed.

Lemma readInt16LE_in_range (buffer : Buffer) (offset : nat) :
  offset + 2 <= length buffer ->
  readInt16LE buffer offset =
  Ok (int16_of (byte_val (nth offset buffer Byte.x00)
                + 256 * byte_val (nth (offset + 1) buffer Byte.x00))).
Proof.
  intros Hlen. unfold readInt16LE.
  rewrite (nth_error_nth' buffer Byte.x00) by lia.
  rewrite (nth_error_nth' buffer Byte.x00) by lia.
  reflexivity.
Qed.

Lemma readInt16LE_out_of_range (buffer : Buffer) (offset : nat) :
  length buffer < offset + 2 -> readInt16LE buffer offset = Throw RangeError.
Proof.
  intros Hlen. unfold readInt16LE.
  destruct (nth_error buffer offset) eqn:E0; [|reflexivity].
  destruct (nth_error buffer (offset + 1)) eqn:E1; [|reflexivity].
  assert (H1 : nth_error buffer (offset + 1) <> None) by congruence.
  apply nth_error_Some in H1. lia.
Qed.

(** No read of the decoding loop leaves the buffer, whatever its length. *)
Lemma extractSamplesFromBuffer_total (buffer : Buffer) :
  extractSamplesFromBuffer buffer =
  Ok (map (sampleAt buffer) (seq 0 (length buffer / 2))).
Proof.
  unfold extractSamplesFromBuffer. apply mapM_pure.
  intros i Hi. apply in_seq in Hi.
  assert (Hdiv : 2 * (length buffer / 2) <= length buffer)
    by (apply Nat.Div0.mul_div_le).
  rewrite readInt16LE_in_range by lia.
  reflexivity.
Qed.

Lemma forall_from_spec (n : nat) (p : Z -> bool) (z : Z) :
  forall_from n p z = true ->
  forall k, (z <= k < z + Z.of_nat n)%Z -> p k = true.
Proof.
  revert z. induction n as [|n IH]; intros z H k Hk; [lia|].
  cbn [forall_from] in H. destruct (p z) eqn:Hz; [|discriminate].
  destruct (Z.eq_dec k z) as [->|Hne]; [exact Hz|].
  apply (IH (z + 1)%Z H). lia.
Qed.

Lemma sample_ok_all : forall_from (Z.to_nat 65536) sample_ok (-32768) = true.
Proof. vm_compute. reflexivity. Qed.

Lemma sample_ok_int16 (v : Z) :
  (-32768 <= v < 32768)%Z -> sample_ok v = true.
Proof.
  intros Hv. apply (forall_from_spec _ _ _ sample_ok_all).
  rewrite Z2Nat.id; lia.
Qed.

Lemma byte_val_range (b : Byte.byte) : (0 <= byte_val b < 256)%Z.
Proof.
  unfold byte_val. pose proof (Strings.Byte.to_N_bounded b). lia.
Qed.

Lemma int16_of_range (lo hi : Byte.byte) :
  (-32768 <= int16_of (byte_val lo + 256 * byte_val hi) < 32768)%Z.
Proof.
  pose proof (byte_val_range lo). pose proof (byte_val_range hi).
  unfold int16_of.
  destruct (Z.ltb_spec (byte_val lo + 256 * byte_val hi) 32768); lia.
Qed.

Lemma lor_bytes (b0 b1 : Byte.byte) :
  Z.lor (byte_val b0) (Z.shiftl (byte_val b1) 8)
  = (byte_val b0 + 256 * byte_val b1)%Z.
Proof.
  pose proof (byte_val_range b0) as H0. pose proof (byte_val_range b1) as H1.
  rewrite Z.shiftl_mul_pow2 by lia.
  change (2 ^ 8)%Z with 256%Z.
  rewrite <- Z.lxor_lor, <- Z.add_nocarry_lxor; [lia| |].
  all: apply Z.bits_inj'; intros n Hn; rewrite Z.land_spec, Z.bits_0;
    destruct (Z.ltb_spec n 8).
  all: try (replace (byte_val b1 * 256)%Z with (byte_val b1 * 2 ^ 8)%Z by lia;
            rewrite Z.mul_pow2_bits_low by lia; apply andb_false_r).
  all: rewrite (Z.bits_above_log2 (byte_val b0) n); [reflexivity|lia|].
  all: destruct (Z.eq_dec (byte_val b0) 0) as [->|Hnz]; [cbn; lia|].
  all: apply Z.log2_lt_pow2; [lia|].
  all: apply Z.lt_le_trans with (2 ^ 8)%Z; [cbn; lia|].
  all: apply Z.pow_le_mono_r; lia.
Qed.

Lemma s16le_int16_of (b0 b1 : Byte.byte) :
  s16le b0 b1 = int16_of (byte_val b0 + 256 * byte_val b1).
Proof.
  unfold s16le, int16_of. rewrite lor_bytes.
  pose proof (byte_val_range b0) as H0. pose proof (byte_val_range b1) as H1.
  set (u := (byte_val b0 + 256 * byte_val b1)%Z) in *.
  assert (Hu : (0 <= u < 65536)%Z) by (subst u; lia).
  change (2 ^ 16)%Z with 65536%Z.
  destruct (Z.ltb_spec u 32768) as [Hlt|Hge].
  - rewrite Z.bits_above_log2; [reflexivity|lia|].
    destruct (Z.eq_dec u 0) as [->|Hnz]; [cbn; lia|].
    apply Z.log2_lt_pow2; [lia|]. change (2 ^ 15)%Z with 32768%Z. lia.
  - replace (Z.testbit u 15) with true; [reflexivity|].
    symmetry. apply Z.testbit_true; [lia|].
    change (2 ^ 15)%Z with 32768%Z.
    assert (u / 32768 = 1)%Z as ->
      by (symmetry; apply Z.div_unique with (u - 32768)%Z; lia).
    reflexivity.
Qed.

(** C6, at the two bytes 00 80: the sample is -32768 / 32768 = -1, which
    is outside the interval (-1, 1]. *)
Lemma minus_one_sample :
  exists s,
    extractSamplesFromBuffer [Byte.x00; Byte.x80] = Ok [s] /\
    s = (-1)%float /\ (-1 <? s)%float = false.
Proof. eexists. repeat split; vm_compute; reflexivity. Qed.

(** C6, as the code has it.  Decoding never raises and produces
    [length / 2] samples (exactly half the bytes when the length is even);
    sample [k] is the signed 16-bit little-endian integer of bytes [2 k] and
    [2 k + 1] divided by 32768.0, a number in the half-open interval
    [-1, 1). *)
Theorem decode_pcm16 (buffer : Buffer) :
  exists samples,
    extractSamplesFromBuffer buffer = Ok samples /\
    length samples = length buffer / 2 /\
    (Nat.even (length buffer) = true -> 2 * length samples = length buffer) /\
    forall k, k < length buffer / 2 ->
      exists b0 b1 s,
        nth_error buffer (2 * k) = Some b0 /\
        nth_error buffer (2 * k + 1) = Some b1 /\
        nth_error samples k = Some s /\
        s = (of_Z (s16le b0 b1) / 32768.0)%float /\
        (-1 <=? s)%float = true /\ (s <? 1)%float = true.
Proof.
  exists (map (sampleAt buffer) (seq 0 (length buffer / 2))).
  split; [apply extractSamplesFromBuffer_total|].
  split; [now rewrite length_map, length_seq|].
  split.
  { intros Heven. rewrite length_map, length_seq.
    apply Nat.even_spec in Heven. destruct Heven as [h ->].
    rewrite (Nat.mul_comm 2 h), Nat.div_mul by lia. lia. }
  intros k Hk.
  assert (Hdiv : 2 * (length buffer / 2) <= length buffer)
    by (apply Nat.Div0.mul_div_le).
  exists (nth (2 * k) buffer Byte.x00), (nth (2 * k + 1) buffer Byte.x00).
  eexists.
  split; [apply nth_error_nth'; lia|].
  split; [apply nth_error_nth'; lia|].
  split.
  { rewrite nth_error_map, nth_error_seq.
    destruct (Nat.ltb_spec k (length buffer / 2)); [|lia]. reflexivity. }
  cbn [Nat.add]. unfold sampleAt.
  replace (k * 2) with (2 * k) by lia.
  rewrite <- s16le_int16_of.
  pose proof (sample_ok_int16 (s16le (nth (2 * k) buffer Byte.x00)
                                     (nth (2 * k + 1) buffer Byte.x00))) as Hok.
  rewrite s16le_int16_of in Hok at 1 2.
  specialize (Hok (int16_of_range _ _)).
  unfold sample_ok in Hok. cbv zeta in Hok.
  apply andb_true_iff in Hok. destruct Hok as [Hok Hlt].
  apply andb_true_iff in Hok. destruct Hok as [Hround Hge].
  apply FloatAxioms.Leibniz.eqb_spec in Hround.
  rewrite Hround. repeat split; assumption.
Qed.

(** ** Loops *)

(** An invariant of the loop body holds when the loop ends. *)
Lemma for_loop_ind {S : Type} (Q : S -> Prop) (cond : nat -> bool)
    (step : nat) (body : nat -> S -> S) :
  forall fuel i s,
    Q s ->
    (forall j s', i <= j -> cond j = true -> Q s' -> Q (body j s')) ->
    Q (for_loop fuel i cond step body s).
Proof.
  induction fuel as [|fuel IH]; intros i s Hs Hbody; cbn [for_loop].
  - exact Hs.
  - destruct (cond i) eqn:Hc; [|exact Hs].
    apply IH.
    + apply Hbody; [lia|exact Hc|exact Hs].
    + intros j s' Hj. apply Hbody. lia.
Qed.

Lemma iterations_spec (stop step : nat) :
  1 <= step ->
  stop <= iterations stop step * step /\
  (forall k, k < iterations stop step -> k * step < stop) /\
  iterations stop step <= stop.
Proof.
  intros Hstep. unfold iterations.
  pose proof (Nat.div_mod_eq (stop + step - 1) step) as Hdm.
  pose proof (Nat.mod_upper_bound (stop + step - 1) step ltac:(lia)) as Hmod.
  set (q := (stop + step - 1) / step) in *.
  set (r := (stop + step - 1) mod step) in *.
  repeat split.
  - nia.
  - intros k Hk. nia.
  - nia.
Qed.

Lemma fold_left_map_in {A B C : Type} (f : A -> C -> A) (g : B -> C)
    (l : list B) (a : A) :
  fold_left f (map g l) a = fold_left (fun a b => f a (g b)) l a.
Proof.
  revert a. induction l as [|b l IH]; intros a; cbn [map fold_left];
    [reflexivity|apply IH].
Qed.

Lemma fold_left_ext_in {A B : Type} (f g : A -> B -> A) (l : list B) (a : A) :
  (forall a b, In b l -> f a b = g a b) -> fold_left f l a = fold_left g l a.
Proof.
  revert a. induction l as [|b l IH]; intros a Hfg; cbn [fold_left];
    [reflexivity|].
  rewrite Hfg by now left. apply IH. intros a' b' Hb'. apply Hfg. now right.
Qed.

(** With enough fuel a counting loop is the fold of its body over the
    indices [0, step, 2 step, ...] below [stop]. *)
Lemma for_loop_fold_from {S : Type} (stop step : nat) (body : nat -> S -> S) :
  1 <= step ->
  forall k fuel i s,
    k <= fuel ->
    (forall j, j < k -> i + j * step < stop) ->
    stop <= i + k * step ->
    for_loop fuel i (fun i => i <? stop) step body s
    = fold_left (fun s j => body (i + j * step) s) (seq 0 k) s.
Proof.
  intros Hstep. induction k as [|k IH]; intros fuel i s Hfuel Hin Hout.
  - cbn [seq fold_left]. destruct fuel as [|fuel]; cbn [for_loop]; [reflexivity|].
    destruct (Nat.ltb_spec i stop); [lia|reflexivity].
  - destruct fuel as [|fuel]; [lia|]. cbn [for_loop].
    destruct (Nat.ltb_spec i stop) as [_|Hge];
      [|specialize (Hin 0 ltac:(lia)); lia].
    rewrite (IH fuel (i + step) (body i s)); try lia.
    + cbn [seq fold_left]. rewrite Nat.add_0_r.
      rewrite <- seq_shift, fold_left_map_in.
      apply fold_left_ext_in. intros a j _. f_equal. lia.
    + intros j Hj. specialize (Hin (Datatypes.S j) ltac:(lia)). lia.
Qed.

Lemma iterations_mul (a step : nat) : 1 <= step -> iterations (a * step) step = a.
Proof.
  intros Hstep. unfold iterations.
  symmetry. apply (Nat.div_unique _ _ _ (step - 1)); lia.
Qed.

Lemma iterations_lt (stop step k : nat) :
  1 <= step -> k < iterations stop step -> k * step < stop.
Proof. intros Hs. apply (iterations_spec stop step Hs). Qed.

Lemma counting_loop_run {S : Type} (stop step : nat) (body : nat -> S -> S)
    (s : S) :
  1 <= step ->
  for_loop stop 0 (fun i => i <? stop) step body s
  = fold_left (fun s k => body (k * step) s) (seq 0 (iterations stop step)) s.
Proof.
  intros Hstep. destruct (iterations_spec stop step Hstep) as (H1 & H2 & H3).
  apply (for_loop_fold_from stop step body Hstep (iterations stop step));
    [exact H3|exact H2|exact H1].
Qed.

(** ** The segmentation state machine *)

Lemma speechStep_segStep (samples : list float) (sampleRate : float)
    (i : nat) (st : SegState) :
  speechStep samples sampleRate i st
  = let energy := calculateWindowEnergy
                    (windowAt samples (speechWindowSize sampleRate) i) in
    segStep (energyThreshold <? energy)%float (energy <=? energyThreshold)%float
            true (stampOf sampleRate i) st.
Proof. reflexivity. Qed.

Lemma silenceStep_segStep (samples : list float) (sampleRate : float)
    (threshold minDuration : float) (i : nat) (st : SegState) :
  silenceStep samples sampleRate threshold minDuration i st
  = let energy := calculateWindowEnergy
                    (windowAt samples (silenceWindowSize sampleRate) i) in
    segStep (energy <? threshold)%float (threshold <=? energy)%float
            (minDuration <=? stampOf sampleRate i - runStart st)%float
            (stampOf sampleRate i) st.
Proof. reflexivity. Qed.

Lemma chain_snoc (lo : nat) (ps : list (nat * nat)) (a b : nat) :
  chain lo ps -> frontier lo ps <= a -> a < b -> chain lo (ps ++ [(a, b)]).
Proof.
  revert lo. induction ps as [|[a' b'] ps IH]; intros lo Hc Hf Hab; cbn in *.
  - repeat split; assumption.
  - destruct Hc as (H1 & H2 & H3). repeat split; try assumption.
    apply IH; assumption.
Qed.

Lemma frontier_snoc (lo : nat) (ps : list (nat * nat)) (a b : nat) :
  frontier lo (ps ++ [(a, b)]) = S b.
Proof. unfold frontier. rewrite fold_left_app. reflexivity. Qed.

Lemma chain_frontier (lo : nat) (ps : list (nat * nat)) :
  chain lo ps -> lo <= frontier lo ps.
Proof.
  revert lo. induction ps as [|[a b] ps IH]; intros lo Hc; cbn in *; [lia|].
  destruct Hc as (H1 & H2 & H3). specialize (IH _ H3). unfold frontier in IH. lia.
Qed.

(** In a chain every run is non-empty and ends before the frontier, and
    an earlier run ends before a later one opens. *)
Lemma chain_Forall (lo : nat) (ps : list (nat * nat)) :
  chain lo ps ->
  Forall (fun p => lo <= fst p /\ fst p < snd p /\ snd p < frontier lo ps) ps.
Proof.
  revert lo. induction ps as [|[a b] ps IH]; intros lo Hc; cbn in *;
    [constructor|].
  destruct Hc as (H1 & H2 & H3).
  pose proof (chain_frontier _ _ H3) as Hf. unfold frontier in Hf.
  constructor.
  - cbn. unfold frontier. cbn. lia.
  - eapply Forall_impl; [|apply (IH _ H3)].
    intros [a' b'] (Ha & Hb & Hc'). cbn in *. unfold frontier in *. cbn. lia.
Qed.

Lemma chain_ForallOrdPairs (lo : nat) (ps : list (nat * nat)) :
  chain lo ps -> ForallOrdPairs (fun p q => snd p < fst q) ps.
Proof.
  revert lo. induction ps as [|[a b] ps IH]; intros lo Hc; cbn in *;
    constructor.
  - destruct Hc as (H1 & H2 & H3).
    eapply Forall_impl; [|apply (chain_Forall _ _ H3)].
    intros [a' b'] (Ha & _). cbn in *. lia.
  - destruct Hc as (H1 & H2 & H3). apply (IH _ H3).
Qed.

Section SegmentRuns.

Variable ws : nat.
Variable stamp : nat -> float.
Variable step : nat -> SegState -> SegState.
Variables opens closes : nat -> bool.
Variable keep : nat -> SegState -> bool.

Hypothesis step_segStep : forall i st,
  step i st = segStep (opens i) (closes i) (keep i st) (stamp i) st.

Lemma run_S (n : nat) : run ws step (S n) = step (n * ws) (run ws step n).
Proof. unfold run. rewrite seq_S, fold_left_app. reflexivity. Qed.

Lemma run_agree (n : nat) :
  agree ws stamp (run ws step n) (prun ws step opens closes keep n).
Proof.
  induction n as [|n IH].
  - split; reflexivity.
  - rewrite run_S, step_segStep. cbn [prun].
    destruct IH as [Hsegs Hopen]. unfold segStep, posStep, agree.
    destruct (popen (prun ws step opens closes keep n)) as [a|] eqn:Ea.
    + destruct Hopen as [Hin Hstart]. rewrite Hin, andb_false_r, andb_true_r.
      destruct (closes (n * ws)); cbn.
      * split; [|reflexivity].
        destruct (keep (n * ws) (run ws step n)); [|exact Hsegs].
        rewrite map_app, Hsegs. cbn. unfold stampSeg at 2. cbn.
        rewrite Hstart. reflexivity.
      * rewrite Ea. repeat split; assumption.
    + rewrite Hopen, andb_true_r, andb_false_r.
      destruct (opens (n * ws)); cbn.
      * repeat split; assumption.
      * rewrite Ea. split; assumption.
Qed.

Lemma prun_posInv (n : nat) : posInv n (prun ws step opens closes keep n).
Proof.
  induction n as [|n IH].
  - split; cbn; [exact I|lia].
  - cbn [prun]. destruct IH as [Hc Hopen]. unfold posStep, posInv.
    destruct (popen (prun ws step opens closes keep n)) as [a|] eqn:Ea.
    + destruct Hopen as [Hf Han].
      destruct (closes (n * ws)); cbn [psegs popen].
      * destruct (keep (n * ws) (run ws step n)).
        -- split; [apply chain_snoc; assumption|].
           rewrite frontier_snoc. lia.
        -- split; [assumption|lia].
      * rewrite Ea. split; [assumption|lia].
    + destruct (opens (n * ws)); cbn [psegs popen].
      * split; [assumption|lia].
      * rewrite Ea. split; [assumption|lia].
Qed.

(** While a run is open the list of closed runs is the one the machine
    had when the run opened. *)
Lemma prun_open (n a : nat) :
  popen (prun ws step opens closes keep n) = Some a ->
  a < n /\
  psegs (prun ws step opens closes keep n)
  = psegs (prun ws step opens closes keep a) /\
  popen (prun ws step opens closes keep a) = None.
Proof.
  induction n as [|n IH]; intros Hopen; [discriminate|].
  cbn [prun] in *. unfold posStep in *.
  destruct (popen (prun ws step opens closes keep n)) as [a'|] eqn:Ea.
  - destruct (closes (n * ws)); cbn in Hopen; [discriminate|].
    rewrite Ea in Hopen. destruct (IH Hopen) as (H1 & H2 & H3).
    repeat split; [lia|assumption|assumption].
  - destruct (opens (n * ws)); cbn in Hopen.
    + injection Hopen as <-. repeat split; [lia|assumption].
    + rewrite Ea in Hopen. discriminate.
Qed.

(** A run still open after [n] windows opened at an earlier window [a];
    the segments are those the machine had after [a] windows, and each ends
    at the stamp of a window before [a]. *)
Lemma run_open_segments (n : nat) :
  inRun (run ws step n) = true ->
  exists a, a < n /\ runStart (run ws step n) = stamp (a * ws) /\
            segments (run ws step n) = segments (run ws step a) /\
            Forall (fun seg => exists b, b < a /\ seg_end seg = stamp (b * ws))
                   (segments (run ws step n)).
Proof.
  intros Hin. destruct (run_agree n) as [Hsegs Hopen].
  destruct (popen (prun ws step opens closes keep n)) as [a|] eqn:Ea;
    [|congruence].
  destruct Hopen as [_ Hstart].
  destruct (prun_open n a Ea) as (Han & Hps & _).
  destruct (prun_posInv n) as [Hc Hf]. rewrite Ea in Hf.
  exists a. repeat split; try assumption.
  - rewrite Hsegs, Hps. symmetry. apply (run_agree a).
  - rewrite Hsegs. apply Forall_map.
    eapply Forall_impl; [|apply (chain_Forall _ _ Hc)].
    intros [a' b'] (_ & _ & Hb). cbn in *. exists b'. split; [lia|reflexivity].
Qed.

Lemma stamps_timeOrdered (n : nat) (ps : list (nat * nat)) :
  stampsIncrease ws stamp n -> chain 0 ps -> frontier 0 ps <= n ->
  timeOrdered (map (stampSeg ws stamp) ps).
Proof.
  intros Hinc Hc Hf.
  assert (Hall : Forall (fun p => fst p < snd p /\ snd p < n) ps).
  { eapply Forall_impl; [|apply (chain_Forall _ _ Hc)].
    intros [a b] (_ & Hab & Hb). cbn in *. lia. }
  pose proof (chain_ForallOrdPairs _ _ Hc) as Hord. clear Hc Hf.
  split.
  - apply Forall_map. eapply Forall_impl; [|exact Hall].
    intros [a b] [Hab Hb]. cbn in *. apply Hinc; lia.
  - induction Hord as [|p ps Hp Hord IH]; cbn; constructor.
    + apply Forall_map. inversion Hall as [|? ? Hp0 Hps]; subst.
      rewrite Forall_forall in *. intros q Hq.
      specialize (Hp q Hq). specialize (Hps q Hq).
      destruct p as [a b], q as [a' b']. cbn in *.
      split; apply Hinc; lia.
    + apply IH. inversion Hall; assumption.
Qed.

Lemma run_timeOrdered (n : nat) :
  stampsIncrease ws stamp n -> timeOrdered (segments (run ws step n)).
Proof.
  intros Hinc. destruct (run_agree n) as [-> _].
  destruct (prun_posInv n) as [Hc Hf].
  apply (stamps_timeOrdered n); try assumption.
  destruct (popen (prun ws step opens closes keep n)); lia.
Qed.

End SegmentRuns.

(** ** The two detectors as runs of the machine *)

Lemma speechLoop_run (samples : list float) (sampleRate : float) :
  1 <= speechWindowSize sampleRate ->
  speechLoop samples sampleRate
  = run (speechWindowSize sampleRate) (speechStep samples sampleRate)
        (iterations (length samples) (speechWindowSize sampleRate)).
Proof. intros Hws. unfold speechLoop. now rewrite counting_loop_run. Qed.

Lemma silenceLoop_run (samples : list float) (sampleRate : float)
    (threshold minDuration : float) :
  1 <= silenceWindowSize sampleRate ->
  silenceLoop samples sampleRate threshold minDuration
  = run (silenceWindowSize sampleRate)
        (silenceStep samples sampleRate threshold minDuration)
        (iterations (length samples) (silenceWindowSize sampleRate)).
Proof. intros Hws. unfold silenceLoop. now rewrite counting_loop_run. Qed.

(** A window that lies inside a prefix of the samples is the same window
    of the prefix. *)
Lemma windowAt_firstn (samples : list float) (windowSize i m : nat) :
  i + windowSize <= m -> m <= length samples ->
  windowAt (firstn m samples) windowSize i = windowAt samples windowSize i.
Proof.
  intros Him Hm. unfold windowAt, slice.
  rewrite length_firstn.
  replace (Nat.min (i + windowSize) (Nat.min m (length samples)) - i)
    with windowSize by lia.
  replace (Nat.min (i + windowSize) (length samples) - i)
    with windowSize by lia.
  rewrite skipn_firstn_comm, firstn_firstn.
  f_equal. lia.
Qed.

Lemma speechRun_firstn (samples : list float) (sampleRate : float) (a : nat) :
  a * speechWindowSize sampleRate <= length samples ->
  run (speechWindowSize sampleRate)
      (speechStep (firstn (a * speechWindowSize sampleRate) samples) sampleRate) a
  = run (speechWindowSize sampleRate) (speechStep samples sampleRate) a.
Proof.
  intros Ha. unfold run. apply fold_left_ext_in.
  intros st k Hk. apply in_seq in Hk.
  rewrite !speechStep_segStep. cbv zeta.
  rewrite windowAt_firstn; [reflexivity| |exact Ha].
  nia.
Qed.

(** A speech run still open when the samples are exhausted leaves the
    output as it was when the run opened: the output is that of the samples
    before the run. *)
Lemma open_speech_run_dropped (samples : list float) (sampleRate : float) :
  1 <= speechWindowSize sampleRate ->
  inRun (speechLoop samples sampleRate) = true ->
  exists a,
    a * speechWindowSize sampleRate < length samples /\
    runStart (speechLoop samples sampleRate)
    = stampOf sampleRate (a * speechWindowSize sampleRate) /\
    detectSpeechSegments samples sampleRate
    = detectSpeechSegments
        (firstn (a * speechWindowSize sampleRate) samples) sampleRate /\
    Forall (fun seg => exists b, b < a /\
                       seg_end seg
                       = stampOf sampleRate (b * speechWindowSize sampleRate))
           (detectSpeechSegments samples sampleRate).
Proof.
  intros Hws Hin. unfold detectSpeechSegments.
  rewrite speechLoop_run in * by exact Hws.
  set (ws := speechWindowSize sampleRate) in *.
  destruct (iterations_spec (length samples) ws Hws) as (_ & Hlt & _).
  destruct (run_open_segments ws (stampOf sampleRate)
              (speechStep samples sampleRate) _ _ _
              (speechStep_segStep samples sampleRate) _ Hin)
    as (a & Han & Hstart & Hsegs & Hends).
  exists a. specialize (Hlt a Han).
  repeat split; try assumption.
  rewrite Hsegs, speechLoop_run by exact Hws.
  fold ws. rewrite length_firstn, Nat.min_l by lia.
  rewrite iterations_mul by exact Hws.
  unfold ws. rewrite speechRun_firstn by (fold ws; lia).
  reflexivity.
Qed.

(** ** Time stamps *)

(** The order of binary64 numbers is transitive. *)
Lemma SFltb_trans (x y z : spec_float) :
  SFltb x y = true -> SFltb y z = true -> SFltb x z = true.
Proof.
  unfold SFltb, SFcompare.
  destruct x as [sx|sx| |sx mx ex], y as [sy|sy| |sy my ey],
           z as [sz|sz| |sz mz ez];
    try destruct sx; try destruct sy; try destruct sz;
    try discriminate; try reflexivity.
  all: repeat match goal with
       | |- context [Pos.compare_cont Eq ?a ?b] =>
           change (Pos.compare_cont Eq a b) with (Pos.compare a b)
       end.
  all: repeat match goal with
       | |- context [Z.compare ?a ?b] => destruct (Z.compare_spec a b)
       | |- context [Pos.compare ?a ?b] => destruct (Pos.compare_spec a b)
       end;
       cbn [CompOpp]; try discriminate; try reflexivity; intros; exfalso; lia.
Qed.

Lemma ltb_trans (x y z : float) :
  (x <? y)%float = true -> (y <? z)%float = true -> (x <? z)%float = true.
Proof. rewrite !ltb_spec. apply SFltb_trans. Qed.

(** The pipeline's sample rate and window sizes. *)
Lemma speechWindowSize_44100 : speechWindowSize 44100 = 882.
Proof. vm_compute. reflexivity. Qed.

Lemma silenceWindowSize_44100 : silenceWindowSize 44100 = 441.
Proof. vm_compute. reflexivity. Qed.

(** Window by window, over the 360000 windows of an hour. *)
Lemma stamp_below_next_hour :
  forall_from (Z.to_nat 360000) stamp_below_next 0 = true.
Proof. vm_compute. reflexivity. Qed.

Lemma stampOf_stampZ (a : nat) : stampOf 44100 (a * 441) = stampZ (Z.of_nat a).
Proof.
  unfold stampOf, stampZ, of_nat. rewrite Nat2Z.inj_mul. reflexivity.
Qed.

Lemma stampZ_increase (a b : Z) :
  (0 <= a < b)%Z -> (b <= 360000)%Z ->
  (stampZ a <? stampZ b)%float = true.
Proof.
  intros Hab Hb.
  assert (Hstep : forall k, (0 <= k < 360000)%Z ->
                            (stampZ k <? stampZ (k + 1))%float = true).
  { intros k Hk. apply (forall_from_spec _ _ _ stamp_below_next_hour).
    rewrite Z2Nat.id; lia. }
  replace b with (a + 1 + Z.of_nat (Z.to_nat (b - a - 1)))%Z
    in * by (rewrite Z2Nat.id; lia).
  induction (Z.to_nat (b - a - 1)) as [|d IH].
  - rewrite Z.add_0_r. apply Hstep. lia.
  - apply ltb_trans with (stampZ (a + 1 + Z.of_nat d)).
    + apply IH; lia.
    + replace (a + 1 + Z.of_nat (S d))%Z with (a + 1 + Z.of_nat d + 1)%Z by lia.
      apply Hstep. lia.
Qed.

(** Up to one hour of samples the 10 ms stamps increase, and with them the
    20 ms stamps. *)
Lemma timeStampsIncrease_441 (len : nat) :
  (Z.of_nat len <= oneHour)%Z -> timeStampsIncrease 44100 441 len.
Proof.
  intros Hlen a b Hab Hb. rewrite !stampOf_stampZ.
  unfold oneHour in Hlen. apply stampZ_increase; lia.
Qed.

Lemma timeStampsIncrease_882 (len : nat) :
  (Z.of_nat len <= oneHour)%Z -> timeStampsIncrease 44100 882 len.
Proof.
  intros Hlen a b Hab Hb.
  replace (a * 882) with ((2 * a) * 441) by lia.
  replace (b * 882) with ((2 * b) * 441) by lia.
  apply (timeStampsIncrease_441 len Hlen); lia.
Qed.

(** ** Division of a sample position by the sample rate

    The time stamp of a window is the binary64 quotient of its first
    sample position by 44100.  The lemmas below follow the division of
    [SpecFloat] on a position below [2 ^ 53], where positions are exact:
    the quotient is rounded to a mantissa of 53 bits within two units of
    the exact one, so two positions that are four or more apart have
    stamps in their order. *)

Lemma digits2_pos_bounds (p : positive) :
  (2 ^ (Zpos (digits2_pos p) - 1) <= Zpos p < 2 ^ Zpos (digits2_pos p))%Z.
Proof.
  induction p as [p IH|p IH|]; cbn [digits2_pos].
  - rewrite Pos2Z.inj_succ.
    replace (Z.succ (Zpos (digits2_pos p)) - 1)%Z
      with (Z.succ (Zpos (digits2_pos p) - 1))%Z by lia.
    rewrite !Z.pow_succ_r by lia. lia.
  - rewrite Pos2Z.inj_succ.
    replace (Z.succ (Zpos (digits2_pos p)) - 1)%Z
      with (Z.succ (Zpos (digits2_pos p) - 1))%Z by lia.
    rewrite !Z.pow_succ_r by lia. lia.
  - cbn. lia.
Qed.

Lemma digits2_pos_unique (p : positive) (d : Z) :
  (1 <= d)%Z -> (2 ^ (d - 1) <= Zpos p < 2 ^ d)%Z ->
  Zpos (digits2_pos p) = d.
Proof.
  intros Hd [Hlo Hhi]. pose proof (digits2_pos_bounds p) as [Blo Bhi].
  set (d' := Zpos (digits2_pos p)) in *.
  assert (Hd' : (1 <= d')%Z) by (unfold d'; lia).
  destruct (Z.lt_trichotomy d' d) as [Hlt|[Heq|Hgt]]; [|exact Heq|].
  - assert ((2 ^ d' <= 2 ^ (d - 1))%Z) by (apply Z.pow_le_mono_r; lia). lia.
  - assert ((2 ^ d <= 2 ^ (d' - 1))%Z) by (apply Z.pow_le_mono_r; lia). lia.
Qed.

Lemma shr_record_of_loc_m (m : Z) (l : location) :
  shr_m (shr_record_of_loc m l) = m.
Proof. destruct l as [|[| |]]; reflexivity. Qed.

Lemma round_nearest_even_cases (m : Z) (l : location) :
  round_nearest_even m l = m \/ round_nearest_even m l = (m + 1)%Z.
Proof.
  destruct l as [|[| |]]; cbn; auto. destruct (Z.even m); auto.
Qed.

Lemma shr_1_half (mrs : shr_record) :
  (0 < shr_m mrs)%Z -> shr_m (shr_1 mrs) = (shr_m mrs / 2)%Z.
Proof.
  destruct mrs as [m r s]. cbn [shr_m]. intros Hm.
  destruct m as [|[p|p|]|p]; try lia; cbn [shr_1 shr_m].
  - rewrite Pos2Z.inj_xI. apply Z.div_unique with 1%Z; lia.
  - rewrite Pos2Z.inj_xO. apply Z.div_unique with 0%Z; lia.
  - reflexivity.
Qed.

(** A mantissa of 53 bits is not shifted. *)
Lemma shr_fexp_53 (m e : Z) (l : location) :
  (2 ^ 52 <= m < 2 ^ 53)%Z -> (-1074 <= e)%Z ->
  shr_fexp prec emax m e l = (shr_record_of_loc m l, e).
Proof.
  intros Hm He. unfold shr_fexp.
  destruct m as [|p|p]; try (exfalso; lia).
  cbn [Zdigits2]. rewrite (digits2_pos_unique p 53) by (cbn; lia).
  replace (fexp prec emax (53 + e) - e)%Z with 0%Z; [reflexivity|].
  unfold fexp, emin, prec, emax. lia.
Qed.

(** A mantissa of 54 bits is shifted by one place. *)
Lemma shr_fexp_54 (m e : Z) (l : location) :
  (2 ^ 53 <= m < 2 ^ 54)%Z -> (-1074 <= e)%Z ->
  shr_fexp prec emax m e l = (shr_1 (shr_record_of_loc m l), (e + 1)%Z).
Proof.
  intros Hm He. unfold shr_fexp.
  destruct m as [|p|p]; try (exfalso; lia).
  cbn [Zdigits2]. rewrite (digits2_pos_unique p 54) by (cbn; lia).
  replace (fexp prec emax (54 + e) - e)%Z with 1%Z; [reflexivity|].
  unfold fexp, emin, prec, emax. lia.
Qed.

(** The second stage of [binary_round_aux]: a rounded mantissa of 53 bits,
    or 2^53 after a carry. *)
Lemma round_stage (m e : Z) :
  (2 ^ 52 <= m <= 2 ^ 53)%Z -> (-1074 <= e <= 970)%Z ->
  exists (m' : positive) (j : Z),
    (let '(mrs, e') := shr_fexp prec emax m e loc_Exact in
     match shr_m mrs with
     | Z0 => S754_zero false
     | Zpos m0 => if (e' <=? emax - prec)%Z then S754_finite false m0 e'
                  else S754_infinity false
     | Zneg _ => S754_nan
     end) = S754_finite false m' (e + j) /\
    (0 <= j <= 1)%Z /\ (2 ^ 52 <= Zpos m' < 2 ^ 53)%Z /\
    (Zpos m' * 2 ^ j = m)%Z.
Proof.
  intros Hm He.
  destruct (Z.eq_dec m (2 ^ 53)) as [->|Hne].
  - exists 4503599627370496%positive, 1%Z.
    rewrite shr_fexp_54 by (cbn; lia).
    cbn [shr_record_of_loc shr_1 shr_m]. cbn.
    replace (e + 1 <=? 971)%Z with true by (symmetry; apply Z.leb_le; lia).
    repeat split; lia.
  - rewrite shr_fexp_53 by lia. cbn [shr_record_of_loc shr_m].
    destruct m as [|p|p]; try (exfalso; cbn in Hm; lia).
    exists p, 0%Z. rewrite Z.add_0_r.
    replace (e <=? emax - prec)%Z with true
      by (symmetry; apply Z.leb_le; unfold emax, prec; lia).
    repeat split; lia.
Qed.

(** [binary_round_aux] on a quotient of 53 or 54 bits: a mantissa of 53
    bits, within two units of the quotient. *)
Lemma binary_round_aux_bounds (q e : Z) (l : location) :
  (2 ^ 52 <= q < 2 ^ 54)%Z -> (-1074 <= e <= 968)%Z ->
  exists (m : positive) (j : Z),
    binary_round_aux prec emax false q e l = S754_finite false m (e + j) /\
    (0 <= j <= 2)%Z /\ (2 ^ 52 <= Zpos m < 2 ^ 53)%Z /\
    (q - 1 <= Zpos m * 2 ^ j <= q + 2)%Z.
Proof.
  intros Hq He. unfold binary_round_aux.
  destruct (Z_lt_le_dec q (2 ^ 53)) as [Hlt|Hge].
  - rewrite shr_fexp_53 by lia. rewrite shr_record_of_loc_m.
    set (m1 := round_nearest_even q _).
    assert (Hm1 : m1 = q \/ m1 = (q + 1)%Z) by apply round_nearest_even_cases.
    destruct (round_stage m1 e) as (m' & j & Heq & Hj & Hm' & Hval);
      [lia|lia|].
    exists m', j. split; [exact Heq|]. split; [lia|]. split; [exact Hm'|]. lia.
  - rewrite shr_fexp_54 by lia.
    pose proof (shr_1_half (shr_record_of_loc q l)) as Hhalf.
    rewrite shr_record_of_loc_m in Hhalf. specialize (Hhalf ltac:(lia)).
    rewrite Hhalf.
    set (m1 := round_nearest_even (q / 2) _).
    assert (Hm1 : m1 = (q / 2)%Z \/ m1 = (q / 2 + 1)%Z)
      by apply round_nearest_even_cases.
    pose proof (Z.div_mod q 2 ltac:(lia)) as Hdm.
    pose proof (Z.mod_pos_bound q 2 ltac:(lia)) as Hmod.
    destruct (round_stage m1 (e + 1)) as (m' & j & Heq & Hj & Hm' & Hval);
      [lia|lia|].
    exists m', (1 + j)%Z. rewrite Z.add_assoc. split; [exact Heq|].
    split; [lia|]. split; [exact Hm'|].
    rewrite Z.pow_add_r by lia. change (2 ^ 1)%Z with 2%Z. lia.
Qed.

Lemma Zpos_iter_xO (p k : positive) :
  Zpos (Pos.iter xO p k) = (Zpos p * 2 ^ Zpos k)%Z.
Proof.
  rewrite (Pos.iter_swap_gen _ _ Zpos xO (Z.mul 2)) by reflexivity.
  change (Pos.iter (Z.mul 2) (Zpos p) k) with (Z.shiftl (Zpos p) (Zpos k)).
  apply Z.shiftl_mul_pow2. lia.
Qed.

(** A mantissa of 53 bits with nothing to round is kept as it is. *)
Lemma binary_round_aux_exact (m : positive) (e : Z) :
  (2 ^ 52 <= Zpos m < 2 ^ 53)%Z -> (-1074 <= e <= 970)%Z ->
  binary_round_aux prec emax false (Zpos m) e loc_Exact = S754_finite false m e.
Proof.
  intros Hm He. unfold binary_round_aux.
  rewrite shr_fexp_53 by lia. cbn [shr_record_of_loc shr_m loc_of_shr_record
    round_nearest_even].
  destruct (round_stage (Zpos m) e) as (m' & j & Heq & Hj & Hm' & Hval);
    [lia|lia|].
  rewrite Heq.
  assert (j = 0%Z \/ j = 1%Z) as [->| ->] by lia.
  - rewrite Z.add_0_r. change (2 ^ 0)%Z with 1%Z in Hval.
    f_equal. lia.
  - change (2 ^ 1)%Z with 2%Z in Hval. lia.
Qed.

(** A whole number below [2 ^ 53] is a number exactly: its mantissa is the
    number shifted up to 53 bits. *)
Lemma binary_normalize_whole (p : positive) :
  (Zpos p < 2 ^ 53)%Z ->
  exists (mx : positive) (ex : Z),
    binary_normalize prec emax (Zpos p) 0 false = S754_finite false mx ex /\
    (2 ^ 52 <= Zpos mx < 2 ^ 53)%Z /\ (-52 <= ex <= 0)%Z /\
    (Zpos mx = Zpos p * 2 ^ (- ex))%Z.
Proof.
  intros Hp. unfold binary_normalize, binary_round.
  pose proof (digits2_pos_bounds p) as Hd.
  set (d := Zpos (digits2_pos p)) in *.
  assert (Hd1 : (1 <= d)%Z) by (unfold d; lia).
  assert (Hd53 : (d <= 53)%Z).
  { destruct (Z_le_gt_dec d 53) as [H|H]; [exact H|exfalso].
    assert ((2 ^ 53 <= 2 ^ (d - 1))%Z) by (apply Z.pow_le_mono_r; lia). lia. }
  assert (Hfexp : fexp prec emax (d + 0) = (d - 53)%Z)
    by (unfold fexp, emin, prec, emax; lia).
  rewrite Hfexp. unfold shl_align.
  destruct (d - 53 - 0)%Z as [|k|k] eqn:Hk; [|lia|].
  - assert (d = 53%Z) as Hd' by lia. rewrite Hd' in Hd.
    exists p, 0%Z. change (53 - 1)%Z with 52%Z in Hd.
    split; [apply binary_round_aux_exact; lia|].
    split; [lia|]. split; [lia|]. change (2 ^ (- 0))%Z with 1%Z. lia.
  - assert (Hval : Zpos (Pos.iter xO p k) = (Zpos p * 2 ^ (53 - d))%Z).
    { rewrite Zpos_iter_xO. f_equal. f_equal. lia. }
    assert (Hsplit : (2 ^ 52 = 2 ^ (d - 1) * 2 ^ (53 - d))%Z).
    { rewrite <- Z.pow_add_r by lia. f_equal. lia. }
    assert (Hsplit' : (2 ^ 53 = 2 ^ d * 2 ^ (53 - d))%Z).
    { rewrite <- Z.pow_add_r by lia. f_equal. lia. }
    assert (Hpos : (0 < 2 ^ (53 - d))%Z) by (apply Z.pow_pos_nonneg; lia).
    assert (Hb : (2 ^ 52 <= Zpos (Pos.iter xO p k) < 2 ^ 53)%Z).
    { rewrite Hval, Hsplit, Hsplit'. split.
      - apply Z.mul_le_mono_nonneg_r; lia.
      - apply Z.mul_lt_mono_pos_r; lia. }
    exists (Pos.iter xO p k), (d - 53)%Z.
    split; [apply binary_round_aux_exact; lia|].
    split; [exact Hb|]. split; [lia|].
    rewrite Hval. f_equal. f_equal. lia.
Qed.

Lemma of_nat_SF (n : nat) :
  (1 <= Z.of_nat n < 2 ^ 53)%Z ->
  exists (mx : positive) (ex : Z),
    Prim2SF (of_nat n) = S754_finite false mx ex /\
    (2 ^ 52 <= Zpos mx < 2 ^ 53)%Z /\ (-52 <= ex <= 0)%Z /\
    (Zpos mx = Z.of_nat n * 2 ^ (- ex))%Z.
Proof.
  intros Hn. unfold of_nat. rewrite of_uint63_spec, Uint63.of_Z_spec.
  rewrite Z.mod_small
    by (split; [lia|]; apply Z.lt_trans with (2 ^ 53)%Z; [lia|reflexivity]).
  destruct (Z.of_nat n) as [|p|p] eqn:Hp; [lia| |lia].
  apply binary_normalize_whole. lia.
Qed.

(** The quotient of two numbers with mantissas of 53 bits: a mantissa of 53
    bits again, within two units of the exact quotient
    [mx * 2 ^ 53 / my]. *)
Lemma SFdiv_finite_bounds (mx my : positive) (ex ey : Z) :
  (2 ^ 52 <= Zpos mx < 2 ^ 53)%Z -> (2 ^ 52 <= Zpos my < 2 ^ 53)%Z ->
  (-1021 <= ex - ey <= 1021)%Z ->
  exists (m : positive) (j : Z),
    SFdiv prec emax (S754_finite false mx ex) (S754_finite false my ey)
      = S754_finite false m (ex - ey - 53 + j) /\
    (0 <= j <= 2)%Z /\ (2 ^ 52 <= Zpos m < 2 ^ 53)%Z /\
    ((Zpos m * 2 ^ j - 2) * Zpos my <= Zpos mx * 2 ^ 53)%Z /\
    (Zpos mx * 2 ^ 53 < (Zpos m * 2 ^ j + 2) * Zpos my)%Z.
Proof.
  intros Hmx Hmy He. unfold SFdiv, SFdiv_core_binary, Zdigits2.
  rewrite (digits2_pos_unique mx 53), (digits2_pos_unique my 53)
    by (change (53 - 1)%Z with 52%Z; lia).
  assert (Hfexp : Z.min (fexp prec emax (53 + ex - (53 + ey))) (ex - ey)
                  = (ex - ey - 53)%Z)
    by (unfold fexp, emin, prec, emax; lia).
  rewrite Hfexp.
  replace (ex - ey - (ex - ey - 53))%Z with 53%Z by lia.
  rewrite Z.shiftl_mul_pow2 by lia.
  pose proof (Z_div_mod (Zpos mx * 2 ^ 53) (Zpos my) ltac:(lia)) as Hdiv.
  destruct (Z.div_eucl (Zpos mx * 2 ^ 53) (Zpos my)) as [q r].
  destruct Hdiv as [Hdiv Hr].
  assert (Hq : (2 ^ 52 <= q < 2 ^ 54)%Z) by nia.
  destruct (binary_round_aux_bounds q (ex - ey - 53)
              (new_location (Zpos my) r) Hq ltac:(lia))
    as (m & j & Heq & Hj & Hm & Hval).
  exists m, j. cbn [xorb]. split; [exact Heq|]. split; [exact Hj|].
  split; [exact Hm|]. nia.
Qed.

(** Of two positive numbers with mantissas of 53 bits the one of smaller
    value compares as the smaller. *)
Lemma SFltb_finite (m1 m2 : positive) (e1 e2 t : Z) :
  (2 ^ 52 <= Zpos m1 < 2 ^ 53)%Z -> (2 ^ 52 <= Zpos m2 < 2 ^ 53)%Z ->
  (t <= e1)%Z -> (t <= e2)%Z ->
  (Zpos m1 * 2 ^ (e1 - t) < Zpos m2 * 2 ^ (e2 - t))%Z ->
  SFltb (S754_finite false m1 e1) (S754_finite false m2 e2) = true.
Proof.
  intros H1 H2 Ht1 Ht2 Hlt. unfold SFltb, SFcompare.
  destruct (Z.compare_spec e1 e2) as [Heq|He|He].
  - subst e2.
    assert (Hpos : (0 < 2 ^ (e1 - t))%Z) by (apply Z.pow_pos_nonneg; lia).
    assert (Hm : (Zpos m1 < Zpos m2)%Z) by nia.
    change (PosDef.Pos.compare_cont Eq m1 m2) with (Pos.compare m1 m2).
    rewrite (proj2 (Pos.compare_lt_iff m1 m2)) by lia. reflexivity.
  - reflexivity.
  - exfalso.
    assert (Hpos : (0 < 2 ^ (e2 - t))%Z) by (apply Z.pow_pos_nonneg; lia).
    assert (Hpow : (2 * 2 ^ (e2 - t) <= 2 ^ (e1 - t))%Z).
    { replace (2 * 2 ^ (e2 - t))%Z with (2 ^ (e2 - t + 1))%Z
        by (rewrite Z.pow_add_r by lia; change (2 ^ 1)%Z with 2%Z; lia).
      apply Z.pow_le_mono_r; lia. }
    nia.
Qed.

Lemma Prim2SF_44100 :
  Prim2SF 44100 = S754_finite false 6061057848115200 (-37).
Proof. reflexivity. Qed.

(** The time stamp of a sample position below [2 ^ 53], scaled by
    [2 ^ 68], is within [2 ^ 53] of the exact quotient
    [i * 2 ^ 68 / 44100]. *)
Lemma stampOf_SF (i : nat) :
  (1 <= Z.of_nat i < 2 ^ 53)%Z ->
  exists (m : positive) (e : Z),
    Prim2SF (stampOf 44100 i) = S754_finite false m e /\
    (2 ^ 52 <= Zpos m < 2 ^ 53)%Z /\ (-68 <= e)%Z /\
    ((Zpos m * 2 ^ (e + 68) - 2 ^ 53) * 6061057848115200
       <= Z.of_nat i * 2 ^ 105)%Z /\
    (Z.of_nat i * 2 ^ 105
       < (Zpos m * 2 ^ (e + 68) + 2 ^ 53) * 6061057848115200)%Z.
Proof.
  intros Hi. unfold stampOf. rewrite div_spec, Prim2SF_44100.
  destruct (of_nat_SF i Hi) as (mx & ex & -> & Hmx & Hex & Hval).
  unfold SF64div.
  destruct (SFdiv_finite_bounds mx 6061057848115200 ex (-37) Hmx
              ltac:(lia) ltac:(lia))
    as (m & j & -> & Hj & Hm & Hlo & Hhi).
  exists m, (ex - -37 - 53 + j)%Z.
  split; [reflexivity|]. split; [exact Hm|]. split; [lia|].
  replace (ex - -37 - 53 + j + 68)%Z with (j + (ex + 52))%Z by lia.
  rewrite Z.pow_add_r by lia.
  assert (HU : (1 <= 2 ^ (ex + 52) <= 2 ^ 52)%Z).
  { split.
    - change 1%Z with (2 ^ 0)%Z. apply Z.pow_le_mono_r; lia.
    - apply Z.pow_le_mono_r; lia. }
  assert (HUN : (2 ^ (- ex) * 2 ^ (ex + 52) = 2 ^ 52)%Z).
  { rewrite <- Z.pow_add_r by lia. f_equal. lia. }
  set (U := (2 ^ (ex + 52))%Z) in *. set (P := (2 ^ j)%Z) in *.
  set (N := (2 ^ (- ex))%Z) in *.
  assert (Hscale : (Zpos mx * U * 2 ^ 53 = Z.of_nat i * 2 ^ 105)%Z).
  { rewrite Hval. replace (Z.of_nat i * N * U)%Z
      with (Z.of_nat i * (N * U))%Z by ring.
    rewrite HUN. change (2 ^ 105)%Z with (2 ^ 52 * 2 ^ 53)%Z. ring. }
  rewrite <- Hscale.
  assert (Hlo' : ((Zpos m * P - 2) * 6061057848115200 * U
                  <= Zpos mx * 2 ^ 53 * U)%Z)
    by (apply Z.mul_le_mono_nonneg_r; lia).
  assert (Hhi' : (Zpos mx * 2 ^ 53 * U
                  < (Zpos m * P + 2) * 6061057848115200 * U)%Z)
    by (apply Z.mul_lt_mono_pos_r; lia).
  split; nia.
Qed.

(** Sample positions below [2 ^ 53] that are four or more apart have time
    stamps in the same order. *)
Lemma stampOf_44100_increase (a b : nat) :
  a + 4 <= b -> (Z.of_nat b < 2 ^ 53)%Z ->
  (stampOf 44100 a <? stampOf 44100 b)%float = true.
Proof.
  intros Hab Hb. rewrite ltb_spec.
  destruct (stampOf_SF b ltac:(lia)) as (mb & eb & -> & Hmb & Heb & Hblo & Hbhi).
  destruct a as [|a'].
  - reflexivity.
  - destruct (stampOf_SF (S a') ltac:(lia))
      as (ma & ea & -> & Hma & Hea & Halo & Hahi).
    apply (SFltb_finite ma mb ea eb (-68)); try lia.
    replace (ea - -68)%Z with (ea + 68)%Z by lia.
    replace (eb - -68)%Z with (eb + 68)%Z by lia.
    set (Va := (Zpos ma * 2 ^ (ea + 68))%Z) in *.
    set (Vb := (Zpos mb * 2 ^ (eb + 68))%Z) in *.
    assert (Hd : (Z.of_nat (S a') + 4 <= Z.of_nat b)%Z) by lia.
    change (2 ^ 105)%Z with 40564819207303340847894502572032%Z in *.
    change (2 ^ 53)%Z with 9007199254740992%Z in *.
    lia.
Qed.

Lemma timeStampsIncrease_below (ws len : nat) :
  4 <= ws -> (Z.of_nat len <= 2 ^ 53)%Z -> timeStampsIncrease 44100 ws len.
Proof.
  intros Hws Hlen a b Hab Hb.
  apply stampOf_44100_increase; [nia|lia].
Qed.

(** ** Sign of a difference and of a sum

    A subtraction of binary64 numbers cannot round a positive difference
    to zero, and an addition cannot round a positive sum to zero: the
    exact result is a whole multiple of the smaller unit of the two
    numbers, and that unit is not below the smallest one. *)

Lemma shr_1_half_nonneg (mrs : shr_record) :
  (0 <= shr_m mrs)%Z -> shr_m (shr_1 mrs) = (shr_m mrs / 2)%Z.
Proof.
  intros H. destruct (Z.eq_dec (shr_m mrs) 0) as [H0|H0].
  - destruct mrs as [m r s]. cbn [shr_m] in *. subst m. reflexivity.
  - apply shr_1_half. lia.
Qed.

Lemma iter_pos_shr_1 (p : positive) (mrs : shr_record) :
  (0 <= shr_m mrs)%Z ->
  shr_m (SpecFloat.iter_pos shr_1 p mrs) = (shr_m mrs / 2 ^ Zpos p)%Z.
Proof.
  revert mrs. induction p as [p IH|p IH|]; intros mrs H; cbn [SpecFloat.iter_pos].
  - assert (H1 : (0 <= shr_m (shr_1 mrs))%Z)
      by (rewrite shr_1_half_nonneg by exact H; apply Z.div_pos; lia).
    assert (Hp : (0 < 2 ^ Zpos p)%Z) by (apply Z.pow_pos_nonneg; lia).
    assert (H2 : (0 <= shr_m (SpecFloat.iter_pos shr_1 p (shr_1 mrs)))%Z)
      by (rewrite IH by exact H1; apply Z.div_pos; lia).
    rewrite IH by exact H2. rewrite IH by exact H1.
    rewrite shr_1_half_nonneg by exact H.
    rewrite !Zdiv.Zdiv_Zdiv by lia. f_equal.
    assert (E : (2 ^ Zpos p~1 = 2 ^ Zpos p * 2 ^ Zpos p * 2 ^ 1)%Z)
      by (rewrite <- !Z.pow_add_r by lia; f_equal; lia).
    rewrite E. change (2 ^ 1)%Z with 2%Z. ring.
  - assert (Hp : (0 < 2 ^ Zpos p)%Z) by (apply Z.pow_pos_nonneg; lia).
    assert (H2 : (0 <= shr_m (SpecFloat.iter_pos shr_1 p mrs))%Z)
      by (rewrite IH by exact H; apply Z.div_pos; lia).
    rewrite IH by exact H2. rewrite IH by exact H.
    rewrite Zdiv.Zdiv_Zdiv by lia. f_equal.
    rewrite <- Z.pow_add_r by lia. f_equal. lia.
  - rewrite shr_1_half_nonneg by exact H. reflexivity.
Qed.

(** The shift before a rounding leaves a positive mantissa positive when
    the exponent is not below the smallest one. *)
Lemma shr_fexp_pos (m : positive) (e : Z) (l : location) :
  (-1074 <= e)%Z ->
  (0 < shr_m (fst (shr_fexp prec emax (Zpos m) e l)))%Z /\
  (-1074 <= snd (shr_fexp prec emax (Zpos m) e l))%Z.
Proof.
  intros He. unfold shr_fexp, shr. cbn [Zdigits2].
  pose proof (digits2_pos_bounds m) as Hd.
  set (d := Zpos (digits2_pos m)) in *.
  destruct (fexp prec emax (d + e) - e)%Z as [|n|n] eqn:Hn; cbn [fst snd].
  - rewrite shr_record_of_loc_m. lia.
  - assert (Hn' : Zpos n = (d - 53)%Z)
      by (unfold fexp, emin, prec, emax in Hn; lia).
    rewrite iter_pos_shr_1 by (rewrite shr_record_of_loc_m; lia).
    rewrite shr_record_of_loc_m, Hn'. split; [|lia].
    apply Z.div_str_pos. split; [apply Z.pow_pos_nonneg; lia|].
    apply Z.le_trans with (2 ^ (d - 1))%Z; [apply Z.pow_le_mono_r; lia|lia].
  - rewrite shr_record_of_loc_m. lia.
Qed.

Lemma binary_round_aux_pos (m : positive) (e : Z) (l : location) :
  (-1074 <= e)%Z ->
  SFltb (S754_zero false) (binary_round_aux prec emax false (Zpos m) e l)
  = true.
Proof.
  intros He. unfold binary_round_aux.
  pose proof (shr_fexp_pos m e l He) as [H1 H1e].
  destruct (shr_fexp prec emax (Zpos m) e l) as [mrs' e'].
  cbn [fst snd] in H1, H1e.
  pose proof (round_nearest_even_cases (shr_m mrs') (loc_of_shr_record mrs'))
    as Hr.
  destruct (round_nearest_even (shr_m mrs') (loc_of_shr_record mrs'))
    as [|m1|m1]; [lia| |lia].
  pose proof (shr_fexp_pos m1 e' loc_Exact H1e) as [H2 H2e].
  destruct (shr_fexp prec emax (Zpos m1) e' loc_Exact) as [mrs'' e''].
  cbn [fst snd] in H2, H2e.
  destruct (shr_m mrs'') as [|m2|m2]; [lia| |lia].
  destruct (e'' <=? emax - prec)%Z; reflexivity.
Qed.

(** A positive whole multiple of a unit that is not below the smallest
    one is a positive number. *)
Lemma binary_normalize_pos (z e : Z) :
  (0 < z)%Z -> (-1074 <= e)%Z ->
  SFltb (S754_zero false) (binary_normalize prec emax z e false) = true.
Proof.
  intros Hz He. destruct z as [|p|p]; [lia| |lia].
  unfold binary_normalize, binary_round, shl_align.
  set (e1 := fexp prec emax (Zpos (digits2_pos p) + e)).
  assert (He1 : (-1074 <= e1)%Z)
    by (unfold e1, fexp, emin, prec, emax; lia).
  destruct (e1 - e)%Z; apply binary_round_aux_pos; lia.
Qed.

Lemma shl_align_value (m : positive) (e ez : Z) :
  (ez <= e)%Z -> Zpos (fst (shl_align m e ez)) = (Zpos m * 2 ^ (e - ez))%Z.
Proof.
  intros H. unfold shl_align.
  destruct (ez - e)%Z as [|d|d] eqn:Hd; cbn [fst].
  - replace (e - ez)%Z with 0%Z by lia. change (2 ^ 0)%Z with 1%Z. lia.
  - lia.
  - rewrite Zpos_iter_xO. f_equal. f_equal. lia.
Qed.

(** A number in canonical form: its exponent is not below the smallest one,
    its mantissa has at most 53 bits, and exactly 53 above the smallest
    exponent. *)
Lemma valid_finite (s : bool) (m : positive) (e : Z) :
  SpecFloat.valid_binary prec emax (S754_finite s m e) = true ->
  (-1074 <= e)%Z /\ (Zpos m < 2 ^ 53)%Z /\
  ((-1074 < e)%Z -> (2 ^ 52 <= Zpos m)%Z).
Proof.
  unfold SpecFloat.valid_binary, bounded, canonical_mantissa. intros H.
  apply andb_prop in H as [H _]. apply Z.eqb_eq in H.
  pose proof (digits2_pos_bounds m) as Hd.
  set (d := Zpos (digits2_pos m)) in *.
  assert (Hd1 : (1 <= d)%Z) by (unfold d; lia).
  unfold fexp, emin, prec, emax in H.
  split; [lia|]. split.
  - apply Z.lt_le_trans with (2 ^ d)%Z; [lia|].
    apply Z.pow_le_mono_r; lia.
  - intros He. assert (d = 53%Z) as Hd53 by lia.
    rewrite Hd53 in Hd. change (53 - 1)%Z with 52%Z in Hd. lia.
Qed.

(** The order of two positive canonical numbers is the order of their
    values. *)
Lemma canonical_compare_lt (m1 m2 : positive) (e1 e2 : Z) :
  SpecFloat.valid_binary prec emax (S754_finite false m1 e1) = true ->
  SpecFloat.valid_binary prec emax (S754_finite false m2 e2) = true ->
  match (e1 ?= e2)%Z with
  | Lt => Lt
  | Gt => Gt
  | Eq => Pos.compare_cont Eq m1 m2
  end = Lt ->
  (Zpos m1 * 2 ^ (e1 - Z.min e1 e2) < Zpos m2 * 2 ^ (e2 - Z.min e1 e2))%Z.
Proof.
  intros V1 V2 H.
  apply valid_finite in V1 as (He1 & Hm1 & _).
  apply valid_finite in V2 as (He2 & _ & Hm2).
  destruct (Z.compare_spec e1 e2) as [Heq|Hlt|Hgt]; [| |discriminate].
  - subst e2. rewrite Z.min_id, Z.sub_diag. change (2 ^ 0)%Z with 1%Z.
    change (Pos.compare_cont Eq m1 m2) with (Pos.compare m1 m2) in H.
    rewrite Pos.compare_lt_iff in H. lia.
  - rewrite Z.min_l by lia. rewrite Z.sub_diag. change (2 ^ 0)%Z with 1%Z.
    specialize (Hm2 ltac:(lia)).
    assert (Hpow : (2 ^ 1 <= 2 ^ (e2 - e1))%Z)
      by (apply Z.pow_le_mono_r; lia).
    change (2 ^ 1)%Z with 2%Z in Hpow. nia.
Qed.

Lemma SFsub_pos (x y : spec_float) :
  SpecFloat.valid_binary prec emax x = true ->
  SpecFloat.valid_binary prec emax y = true ->
  SFltb x y = true ->
  SFltb (S754_zero false) (SFsub prec emax y x) = true.
Proof.
  intros Vx Vy H.
  destruct x as [sx|sx| |sx mx ex], y as [sy|sy| |sy my ey];
    try destruct sx; try destruct sy;
    try discriminate H; try reflexivity.
  all: pose proof (valid_finite _ _ _ Vx) as (Hex & _ & _).
  all: pose proof (valid_finite _ _ _ Vy) as (Hey & _ & _).
  all: unfold SFsub; rewrite !shl_align_value by lia; cbn [cond_Zopp].
  all: assert (Hpx : (0 < Zpos mx * 2 ^ (ex - Z.min ey ex))%Z)
         by (apply Z.mul_pos_pos; [lia|apply Z.pow_pos_nonneg; lia]).
  all: assert (Hpy : (0 < Zpos my * 2 ^ (ey - Z.min ey ex))%Z)
         by (apply Z.mul_pos_pos; [lia|apply Z.pow_pos_nonneg; lia]).
  all: apply binary_normalize_pos; [|lia].
  - assert (Hlt : (Zpos my * 2 ^ (ey - Z.min ey ex)
                   < Zpos mx * 2 ^ (ex - Z.min ey ex))%Z).
    { apply (canonical_compare_lt my mx ey ex Vy Vx).
      unfold SFltb, SFcompare in H.
      rewrite Z.compare_antisym.
      destruct (ex ?= ey)%Z; cbn [CompOpp]; try discriminate H;
        try reflexivity.
      change (Pos.compare_cont Eq my mx) with (Pos.compare my mx).
      rewrite Pos.compare_antisym.
      change (PosDef.Pos.compare_cont Eq mx my) with (Pos.compare mx my) in H.
      destruct (Pos.compare mx my); cbn [CompOpp] in *;
        try discriminate H; reflexivity. }
    lia.
  - lia.
  - assert (Hlt : (Zpos mx * 2 ^ (ex - Z.min ex ey)
                   < Zpos my * 2 ^ (ey - Z.min ex ey))%Z).
    { apply (canonical_compare_lt mx my ex ey Vx Vy).
      unfold SFltb, SFcompare in H.
      destruct (ex ?= ey)%Z; try discriminate H; try reflexivity.
      change (PosDef.Pos.compare_cont Eq mx my) with (Pos.compare mx my) in H.
      change (Pos.compare_cont Eq mx my) with (Pos.compare mx my).
      destruct (Pos.compare mx my); try discriminate H; reflexivity. }
    rewrite (Z.min_comm ey ex). lia.
Qed.

Lemma SFadd_pos (x y : spec_float) :
  SpecFloat.valid_binary prec emax x = true ->
  SpecFloat.valid_binary prec emax y = true ->
  x = S754_zero false \/ SFltb (S754_zero false) x = true ->
  SFltb (S754_zero false) y = true ->
  SFltb (S754_zero false) (SFadd prec emax x y) = true.
Proof.
  intros Vx Vy Hx Hy.
  destruct y as [sy|sy| |sy my ey]; try destruct sy; try discriminate Hy.
  all: destruct Hx as [->|Hx]; [reflexivity|].
  all: destruct x as [sx|sx| |sx mx ex]; try destruct sx;
    try discriminate Hx; try reflexivity.
  pose proof (valid_finite _ _ _ Vx) as (Hex & _ & _).
  pose proof (valid_finite _ _ _ Vy) as (Hey & _ & _).
  unfold SFadd. rewrite !shl_align_value by lia. cbn [cond_Zopp].
  assert (Hpx : (0 < Zpos mx * 2 ^ (ex - Z.min ex ey))%Z)
    by (apply Z.mul_pos_pos; [lia|apply Z.pow_pos_nonneg; lia]).
  assert (Hpy : (0 < Zpos my * 2 ^ (ey - Z.min ex ey))%Z)
    by (apply Z.mul_pos_pos; [lia|apply Z.pow_pos_nonneg; lia]).
  apply binary_normalize_pos; lia.
Qed.

(** The difference of a number and a smaller one is positive. *)
Lemma sub_pos (x y : float) :
  (x <? y)%float = true -> (0 <? y - x)%float = true.
Proof.
  rewrite !ltb_spec, sub_spec. apply SFsub_pos; apply Prim2SF_valid.
Qed.

(** Adding a positive number to zero or to a positive number gives a
    positive number. *)
Lemma add_pos (x y : float) :
  x = 0%float \/ (0 <? x)%float = true -> (0 <? y)%float = true ->
  (0 <? x + y)%float = true.
Proof.
  rewrite !ltb_spec, add_spec. intros Hx Hy.
  apply SFadd_pos; try apply Prim2SF_valid; [|exact Hy].
  destruct Hx as [->|Hx]; [left; reflexivity|right; exact Hx].
Qed.

Lemma speech_timeOrdered (samples : list float) (sampleRate : float) :
  1 <= speechWindowSize sampleRate ->
  timeStampsIncrease sampleRate (speechWindowSize sampleRate) (length samples) ->
  timeOrdered (detectSpeechSegments samples sampleRate).
Proof.
  intros Hws Hinc. unfold detectSpeechSegments.
  rewrite speechLoop_run by exact Hws.
  apply (run_timeOrdered _ (stampOf sampleRate) _ _ _ _
           (speechStep_segStep samples sampleRate)).
  intros a b Hab Hb. apply Hinc; [exact Hab|].
  apply iterations_lt; assumption.
Qed.

Lemma silence_timeOrdered (samples : list float)
    (sampleRate threshold minDuration : float) :
  1 <= silenceWindowSize sampleRate ->
  timeStampsIncrease sampleRate (silenceWindowSize sampleRate) (length samples) ->
  timeOrdered (detectSilentSegments samples sampleRate threshold minDuration).
Proof.
  intros Hws Hinc. unfold detectSilentSegments.
  rewrite silenceLoop_run by exact Hws.
  apply (run_timeOrdered _ (stampOf sampleRate) _ _ _ _
           (silenceStep_segStep samples sampleRate threshold minDuration)).
  intros a b Hab Hb. apply Hinc; [exact Hab|].
  apply iterations_lt; assumption.
Qed.

(** ** Segments of the pipeline *)

(** C8.  When the samples are exhausted while the speech machine is
    [Active], the open run is dropped: the output is the list the detector
    produces on the samples before the run opened, the run's start [a * 882]
    is a window start inside the buffer, and every segment of the output
    ends at the stamp of an earlier window start, so none ends at the end of
    the buffer or later; for a clip of at most one hour these stamps are
    numbers below the stamp at which the dropped run opened. *)
Theorem open_speech_run_is_dropped (samples : list float) :
  inRun (speechLoop samples 44100) = true ->
  exists a,
    a * 882 < length samples /\
    runStart (speechLoop samples 44100) = (of_nat (a * 882) / 44100)%float /\
    detectSpeechSegments samples 44100
    = detectSpeechSegments (firstn (a * 882) samples) 44100 /\
    Forall (fun seg => exists b, b < a /\
                       seg_end seg = (of_nat (b * 882) / 44100)%float)
           (detectSpeechSegments samples 44100) /\
    ((Z.of_nat (length samples) <= oneHour)%Z ->
     Forall (fun seg =>
               (seg_end seg <? runStart (speechLoop samples 44100))%float = true)
            (detectSpeechSegments samples 44100)).
Proof.
  intros Hopen.
  pose proof (open_speech_run_dropped samples 44100) as H.
  rewrite speechWindowSize_44100 in H.
  destruct (H ltac:(lia) Hopen) as (a & Ha & Hstart & Hprefix & Hends).
  exists a. repeat split; try assumption.
  intros Hlen. eapply Forall_impl; [|exact Hends].
  intros seg (b & Hb & ->). rewrite Hstart.
  apply (timeStampsIncrease_882 (length samples) Hlen); assumption.
Qed.

Lemma open_speech_run_is_dropped_witness :
  exists a,
    a * 882 < length exampleClip /\
    runStart (speechLoop exampleClip 44100) = (of_nat (a * 882) / 44100)%float /\
    detectSpeechSegments exampleClip 44100
    = detectSpeechSegments (firstn (a * 882) exampleClip) 44100 /\
    Forall (fun seg => exists b, b < a /\
                       seg_end seg = (of_nat (b * 882) / 44100)%float)
           (detectSpeechSegments exampleClip 44100) /\
    ((Z.of_nat (length exampleClip) <= oneHour)%Z ->
     Forall (fun seg =>
               (seg_end seg <? runStart (speechLoop exampleClip 44100))%float
               = true)
            (detectSpeechSegments exampleClip 44100)).
Proof.
  apply (open_speech_run_is_dropped exampleClip).
  vm_compute. reflexivity.
Defined.

(** C9.  For every input buffer the speech segments and the silence
    segments are each in time order: every segment ends after it starts,
    and of two segments of a list the earlier one starts and ends before
    the later one starts, so no two overlap.  The one hypothesis is that
    the list of samples has a length an array can have: the array lengths
    of the language are the whole numbers below [2 ^ 53], and up to there
    the loop counter [i] of the source, a binary64 number, is the position
    [of_nat i] of the model exactly. *)
Theorem segments_time_ordered (samples : list float)
    (threshold minDuration : float) :
  (Z.of_nat (length samples) <= 2 ^ 53)%Z ->
  timeOrdered (detectSpeechSegments samples 44100) /\
  timeOrdered (detectSilentSegments samples 44100 threshold minDuration).
Proof.
  intros Hlen. split.
  - apply speech_timeOrdered; rewrite speechWindowSize_44100; [lia|].
    apply timeStampsIncrease_below; [lia|exact Hlen].
  - apply silence_timeOrdered; rewrite silenceWindowSize_44100; [lia|].
    apply timeStampsIncrease_below; [lia|exact Hlen].
Qed.

Lemma segments_time_ordered_witness :
  timeOrdered (detectSpeechSegments exampleClip 44100) /\
  timeOrdered (detectSilentSegments exampleClip 44100 0.01 0.2).
Proof.
  apply (segments_time_ordered exampleClip 0.01 0.2).
  vm_compute. discriminate.
Defined.

(** ** The pitch track *)

Lemma bestLag_in_band (window : list float) (sampleRate : float) :
  fst (bestLag window sampleRate) = 0 \/
  minPeriodOf sampleRate <= fst (bestLag window sampleRate)
                         <= maxPeriodOf sampleRate.
Proof.
  unfold bestLag. cbv zeta.
  apply (for_loop_ind
           (fun best : nat * float =>
              fst best = 0 \/
              minPeriodOf sampleRate <= fst best <= maxPeriodOf sampleRate)).
  - left. reflexivity.
  - intros period [bestPeriod bestCorrelation] Hmin Hmax Hbest.
    apply Nat.leb_le in Hmax. unfold pitchStep.
    destruct (lagSum window period) as [correlation count].
    destruct (0 <? count); [|exact Hbest].
    destruct (bestCorrelation <? correlation / of_nat count)%float;
      [|exact Hbest].
    right. cbn [fst]. lia.
Qed.

(** A window in which no lag has a positive mean lagged product leaves
    [bestPeriod] at 0. *)
Lemma bestLag_unvoiced (window : list float) (sampleRate : float) :
  (forall period correlation count,
      minPeriodOf sampleRate <= period <= maxPeriodOf sampleRate ->
      lagSum window period = (correlation, count) -> 0 < count ->
      (0 <? correlation / of_nat count)%float = false) ->
  bestLag window sampleRate = (0, 0%float).
Proof.
  intros Hnone. unfold bestLag. cbv zeta.
  apply (for_loop_ind (fun best : nat * float => best = (0, 0%float)));
    [reflexivity|].
  intros period best Hmin Hmax ->. apply Nat.leb_le in Hmax.
  unfold pitchStep.
  destruct (lagSum window period) as [correlation count] eqn:Hsum.
  destruct (Nat.ltb_spec 0 count) as [Hcount|]; [|reflexivity].
  rewrite (Hnone period correlation count); [reflexivity|lia|exact Hsum|exact Hcount].
Qed.

(** C10.  Every value of the pitch track is positive and is the sample
    rate divided by a lag of the search band, from [floor (sampleRate / 800)]
    to [floor (sampleRate / 80)]; a window in which no lag of the band has a
    positive correlation yields the pitch 0, which is not collected. *)
Theorem pitch_track_in_search_band (samples : list float) (sampleRate : float) :
  (forall p, In p (pitchTrack samples sampleRate) ->
     (0 <? p)%float = true /\
     exists lag,
       to_nat (Math_floor (sampleRate / 800)) <= lag /\
       lag <= to_nat (Math_floor (sampleRate / 80)) /\
       p = (sampleRate / of_nat lag)%float) /\
  (forall window,
     (forall period correlation count,
         minPeriodOf sampleRate <= period <= maxPeriodOf sampleRate ->
         lagSum window period = (correlation, count) -> 0 < count ->
         (0 <? correlation / of_nat count)%float = false) ->
     estimatePitch window sampleRate = 0%float /\
     (0 <? estimatePitch window sampleRate)%float = false).
Proof.
  split.
  - unfold pitchTrack. cbv zeta.
    apply (for_loop_ind
             (fun track : list float =>
                forall p, In p track ->
                  (0 <? p)%float = true /\
                  exists lag,
                    minPeriodOf sampleRate <= lag /\
                    lag <= maxPeriodOf sampleRate /\
                    p = (sampleRate / of_nat lag)%float)).
    + intros p [].
    + intros i track _ _ Htrack.
      set (window := slice samples i (i + speechWindowSize sampleRate)).
      destruct (0 <? estimatePitch window sampleRate)%float eqn:Hpos;
        [|exact Htrack].
      intros p Hp. apply in_app_or in Hp. destruct Hp as [Hp|[<-|[]]];
        [apply Htrack; exact Hp|].
      split; [exact Hpos|].
      unfold estimatePitch in *. cbv zeta in *.
      destruct (Nat.ltb_spec 0 (fst (bestLag window sampleRate))) as [Hlag|Hlag].
      * exists (fst (bestLag window sampleRate)).
        destruct (bestLag_in_band window sampleRate) as [H0|[Hlo Hhi]];
          [lia|].
        repeat split; assumption.
      * discriminate Hpos.
  - intros window Hnone. unfold estimatePitch. cbv zeta.
    rewrite (bestLag_unvoiced window sampleRate Hnone). split; reflexivity.
Qed.

(** ** The primary scores and the pipeline *)

(** No body of the pace, volume, pause and tonal-variation computations
    throws: each yields one of its bucket scores. *)
Lemma calculateRealPace_cases (audioData : AudioData) :
  exists p, calculateRealPace audioData = Ok p /\ In p [2; 3; 5; 4]%float.
Proof.
  unfold calculateRealPace. cbv zeta.
  repeat match goal with
         | |- context [if ?b then _ else _] => destruct b
         end;
    cbn [try_catch]; eexists; (split; [reflexivity|]); pick_In.
Qed.

Lemma calculateRealPauses_cases (audioData : AudioData) :
  exists p, calculateRealPauses audioData = Ok p /\ In p [2; 5; 4; 3]%float.
Proof.
  unfold calculateRealPauses. cbv zeta.
  repeat match goal with
         | |- context [if ?b then _ else _] => destruct b
         end;
    cbn [try_catch]; eexists; (split; [reflexivity|]); pick_In.
Qed.

Lemma calculateRealVolume_cases (M : MathLib) (audioData : AudioData) :
  exists v, calculateRealVolume M audioData = Ok v /\ In v [2; 3; 5; 4]%float.
Proof.
  unfold calculateRealVolume. cbv zeta.
  repeat match goal with
         | |- context [if ?b then _ else _] => destruct b
         end;
    cbn [try_catch]; eexists; (split; [reflexivity|]); pick_In.
Qed.

Lemma calculateRealTonalVariation_cases (M : MathLib) (audioData : AudioData) :
  exists t, calculateRealTonalVariation M audioData = Ok t /\
            In t [2; 3; 5; 4]%float.
Proof.
  unfold calculateRealTonalVariation. cbv zeta.
  repeat match goal with
         | |- context [if ?b then _ else _] => destruct b
         end;
    cbn [try_catch]; eexists; (split; [reflexivity|]); pick_In.
Qed.

(** The spectral stage is the one that can throw; its handler answers 3.8. *)
Lemma calculateRealClarity_cases (M : MathLib) (audioData : AudioData) :
  exists c, calculateRealClarity M audioData = Ok c /\
    match performFFT M (samples audioData) with
    | Ok _ => In c [5; 4; 3; 2; 1]%float
    | Throw _ => c = 3.8%float
    end.
Proof.
  unfold calculateRealClarity. cbv zeta.
  destruct (performFFT M (samples audioData)) as [spectrum|e]; cbn [bind].
  - repeat match goal with
           | |- context [if ?b then _ else _] => destruct b
           end;
      cbn [try_catch]; eexists; (split; [reflexivity|]); pick_In.
  - cbn [try_catch]. eexists. split; reflexivity.
Qed.

Lemma processAudioBuffer_total (audioBuffer : Buffer) :
  processAudioBuffer audioBuffer =
  Ok {| buffer := audioBuffer;
        sampleRate := 44100;
        channels := 1;
        duration := (of_nat (length audioBuffer) / (44100 * 2))%float;
        samples := map (sampleAt audioBuffer) (seq 0 (length audioBuffer / 2)) |}.
Proof.
  unfold processAudioBuffer. rewrite extractSamplesFromBuffer_total.
  reflexivity.
Qed.

(** On every buffer the pipeline returns the record of the five scores its
    stages return; the outer handler is never entered. *)
Lemma analyzeAudioProperties_total (M : MathLib) (audioBuffer : Buffer) :
  exists audioData p v c pd t,
    processAudioBuffer audioBuffer = Ok audioData /\
    (calculateRealPace audioData = Ok p /\ In p [2; 3; 5; 4]%float) /\
    (calculateRealVolume M audioData = Ok v /\ In v [2; 3; 5; 4]%float) /\
    (calculateRealClarity M audioData = Ok c /\
     match performFFT M (samples audioData) with
     | Ok _ => In c [5; 4; 3; 2; 1]%float
     | Throw _ => c = 3.8%float
     end) /\
    (calculateRealPauses audioData = Ok pd /\ In pd [2; 5; 4; 3]%float) /\
    (calculateRealTonalVariation M audioData = Ok t /\
     In t [2; 3; 5; 4]%float) /\
    analyzeAudioProperties M audioBuffer = Ok (withDerived p v c pd t).
Proof.
  eexists.
  edestruct calculateRealPace_cases as (p & Hp).
  edestruct (calculateRealVolume_cases M) as (v & Hv).
  edestruct (calculateRealClarity_cases M) as (c & Hc).
  edestruct calculateRealPauses_cases as (pd & Hpd).
  edestruct (calculateRealTonalVariation_cases M) as (t & Ht).
  exists p, v, c, pd, t.
  split; [apply processAudioBuffer_total|].
  repeat (split; [eassumption|]).
  unfold analyzeAudioProperties.
  rewrite processAudioBuffer_total. cbn [bind].
  rewrite (proj1 Hp), (proj1 Hv), (proj1 Hc), (proj1 Hpd), (proj1 Ht).
  reflexivity.
Qed.

Lemma derived_inScale (p v c pd t : float) :
  In p [2; 3; 5; 4]%float -> In v [2; 3; 5; 4]%float ->
  In c [5; 4; 3; 2; 1; 3.8]%float -> In t [2; 3; 5; 4]%float ->
  inScale (confidence (withDerived p v c pd t)) /\
  inScale (enthusiasm (withDerived p v c pd t)).
Proof.
  intros Hp Hv Hc Ht. split_In; subst; split; vm_compute; reflexivity.
Qed.

Lemma bucket_inScale (x : float) :
  In x [5; 4; 3; 2; 1; 3.8]%float -> inScale x.
Proof. intros H. split_In; subst; vm_compute; reflexivity. Qed.

(** C3.  On every buffer the pipeline returns a record, and each of its
    seven scores (pace, volume, clarity, pauseDuration, tonalVariation,
    confidence, enthusiasm) lies between 1 and 5; a buffer of zero samples
    is one such input. *)
Theorem all_scores_in_scale (M : MathLib) (audioBuffer : Buffer) :
  exists m,
    analyzeAudioProperties M audioBuffer = Ok m /\
    inScale (pace m) /\ inScale (volume m) /\ inScale (clarity m) /\
    inScale (pauseDuration m) /\ inScale (tonalVariation m) /\
    inScale (confidence m) /\ inScale (enthusiasm m).
Proof.
  destruct (analyzeAudioProperties_total M audioBuffer)
    as (ad & p & v & c & pd & t & _ & [_ Hp] & [_ Hv] & [_ Hc] & [_ Hpd]
        & [_ Ht] & Hm).
  assert (Hc' : In c [5; 4; 3; 2; 1; 3.8]%float).
  { destruct (performFFT M (samples ad)); [in_list_by Hc|subst; pick_In]. }
  exists (withDerived p v c pd t). split; [exact Hm|].
  destruct (derived_inScale p v c pd t Hp Hv Hc' Ht) as [Hconf Henth].
  change (inScale p /\ inScale v /\ inScale c /\ inScale pd /\ inScale t /\
          inScale (confidence (withDerived p v c pd t)) /\
          inScale (enthusiasm (withDerived p v c pd t))).
  split; [apply bucket_inScale; in_list_by Hp|].
  split; [apply bucket_inScale; in_list_by Hv|].
  split; [apply bucket_inScale; exact Hc'|].
  split; [apply bucket_inScale; in_list_by Hpd|].
  split; [apply bucket_inScale; in_list_by Ht|].
  split; assumption.
Qed.

Lemma float_neq (x y : float) : PrimFloat.Leibniz.eqb x y = false -> x <> y.
Proof.
  intros H E. apply FloatAxioms.Leibniz.eqb_spec in E. congruence.
Qed.

Lemma pace_not_default (m : AudioMetrics) :
  In (pace m) [2; 3; 5; 4]%float -> m <> defaultMetrics.
Proof.
  intros H E. subst m. cbn [pace defaultMetrics In] in H.
  destruct H as [H|[H|[H|[H|[]]]]]; revert H; apply float_neq; reflexivity.
Qed.

(** C1, at the empty buffer: decoding succeeds with no sample, and the
    pipeline answers with a computed record (pace 2, clarity 1,
    pauseDuration 2, tonalVariation 2), not the fallback record. *)
Lemma empty_buffer_is_analysed :
  extractSamplesFromBuffer [] = Ok [] /\
  forall M, exists m,
    analyzeAudioProperties M [] = Ok m /\
    pace m = 2%float /\ clarity m = 1%float /\ pauseDuration m = 2%float /\
    tonalVariation m = 2%float /\ m <> defaultMetrics.
Proof.
  split; [reflexivity|]. intros M.
  destruct (analyzeAudioProperties_total M [])
    as (ad & p & v & c & pd & t & Had & [Hp Hp'] & _ & [Hc _] & [Hpd _]
        & [Ht _] & Hm).
  rewrite processAudioBuffer_total in Had. injection Had as <-.
  vm_compute in Hp, Hc, Hpd, Ht.
  injection Hp as <-. injection Hc as <-. injection Hpd as <-.
  injection Ht as <-.
  eexists. split; [exact Hm|].
  repeat split. apply pace_not_default. pick_In.
Qed.

(** C1, as the code has it.  A buffer whose length is 0 or odd is decoded
    without error into [floor (length / 2)] samples (a trailing odd byte is
    not read); the pipeline does not raise and returns the record computed
    from these samples, whose pace is one of 2, 3, 5, 4: it is never the
    fallback record. *)
Theorem short_or_odd_buffer_is_analysed (M : MathLib) (audioBuffer : Buffer) :
  length audioBuffer = 0 \/ Nat.odd (length audioBuffer) = true ->
  (exists samples,
      extractSamplesFromBuffer audioBuffer = Ok samples /\
      length samples = length audioBuffer / 2) /\
  (exists m,
      analyzeAudioProperties M audioBuffer = Ok m /\
      In (pace m) [2; 3; 5; 4]%float /\
      m <> defaultMetrics).
Proof.
  intros _. split.
  - eexists. split; [apply extractSamplesFromBuffer_total|].
    rewrite length_map, length_seq. reflexivity.
  - destruct (analyzeAudioProperties_total M audioBuffer)
      as (ad & p & v & c & pd & t & _ & [_ Hp] & _ & _ & _ & _ & Hm).
    exists (withDerived p v c pd t). split; [exact Hm|].
    split; [exact Hp|]. apply pace_not_default. exact Hp.
Qed.

Lemma short_or_odd_buffer_is_analysed_witness :
  (exists samples,
      extractSamplesFromBuffer [Byte.x01; Byte.x02; Byte.x03] = Ok samples /\
      length samples = 1) /\
  (exists m,
      analyzeAudioProperties Math_example [Byte.x01; Byte.x02; Byte.x03] = Ok m /\
      In (pace m) [2; 3; 5; 4]%float /\
      m <> defaultMetrics).
Proof.
  apply (short_or_odd_buffer_is_analysed Math_example
           [Byte.x01; Byte.x02; Byte.x03]).
  right. reflexivity.
Defined.

(** ** The spectral stage *)

Lemma half_ok_all : forallb half_ok (seq 0 1025) = true.
Proof. vm_compute. reflexivity. Qed.

(** [new Array(N / 2)] for the lengths the analysis uses: an array of
    [N / 2] elements when [N] is even, a RangeError when it is odd. *)
Lemma new_Array_half (N : nat) :
  N <= 1024 ->
  new_Array (of_nat N / 2)%float
  = if Nat.even N then Ok (N / 2) else Throw RangeError.
Proof.
  intros HN. pose proof half_ok_all as H. rewrite forallb_forall in H.
  specialize (H N ltac:(apply in_seq; lia)). unfold half_ok in H.
  unfold new_Array in *.
  destruct (is_array_length (of_nat N / 2)%float).
  - apply andb_true_iff in H. destruct H as [-> H].
    apply Nat.eqb_eq in H. now rewrite H.
  - apply negb_true_iff in H. now rewrite H.
Qed.

Lemma performFFT_cases (M : MathLib) (samples : list float) :
  performFFT M samples
  = if Nat.even (Nat.min 1024 (length samples))
    then Ok (map (binMagnitude M samples)
                 (seq 0 (Nat.min 1024 (length samples) / 2)))
    else Throw RangeError.
Proof.
  unfold performFFT. cbv zeta.
  rewrite new_Array_half by lia.
  destruct (Nat.even (Nat.min 1024 (length samples))); reflexivity.
Qed.

(** C7, at a clip of one sample: [N = 1], [new Array(0.5)] throws and no
    magnitude bin is produced. *)
Theorem performFFT_single_sample_throws (M : MathLib) (s : float) :
  performFFT M [s] = Throw RangeError.
Proof. rewrite performFFT_cases. reflexivity. Qed.

(** More generally the analysis throws exactly when the number of samples
    it would analyse is odd, and yields [N / 2] bins when it is even. *)
Lemma performFFT_odd_throws (M : MathLib) (samples : list float) :
  Nat.odd (Nat.min 1024 (length samples)) = true ->
  performFFT M samples = Throw RangeError.
Proof.
  intros Hodd. rewrite performFFT_cases.
  rewrite <- Nat.negb_odd, Hodd. reflexivity.
Qed.

Lemma performFFT_even_bins (M : MathLib) (samples : list float) :
  Nat.even (Nat.min 1024 (length samples)) = true ->
  exists magnitude,
    performFFT M samples = Ok magnitude /\
    length magnitude = Nat.min 1024 (length samples) / 2 /\
    forall k, k < length magnitude ->
              nth k magnitude nan = binMagnitude M samples k.
Proof.
  intros Heven. rewrite performFFT_cases, Heven.
  eexists. split; [reflexivity|]. rewrite length_map, length_seq.
  split; [reflexivity|]. intros k Hk.
  rewrite (nth_indep _ nan (binMagnitude M samples 0)) by
    (rewrite length_map, length_seq; exact Hk).
  rewrite (map_nth (binMagnitude M samples)), seq_nth by exact Hk.
  reflexivity.
Qed.

(** C2, at the two-byte buffer of one zero sample: the spectral stage
    throws, and the record returned mixes the default clarity 3.8 with
    computed scores (pace 2, pauseDuration 2, tonalVariation 2); it is not
    the fallback record. *)
Lemma spectral_failure_gives_mixed_record :
  extractSamplesFromBuffer [Byte.x00; Byte.x00] = Ok [0%float] /\
  forall M,
    performFFT M [0%float] = Throw RangeError /\
    exists m,
      analyzeAudioProperties M [Byte.x00; Byte.x00] = Ok m /\
      clarity m = 3.8%float /\ pace m = 2%float /\
      pauseDuration m = 2%float /\ tonalVariation m = 2%float /\
      m <> defaultMetrics.
Proof.
  split; [vm_compute; reflexivity|]. intros M.
  split; [apply performFFT_odd_throws; reflexivity|].
  destruct (analyzeAudioProperties_total M [Byte.x00; Byte.x00])
    as (ad & p & v & c & pd & t & Had & [Hp Hp'] & _ & [_ Hc] & [Hpd _]
        & [Ht _] & Hm).
  rewrite processAudioBuffer_total in Had. injection Had as <-.
  cbn [samples] in Hc.
  change (map (sampleAt [Byte.x00; Byte.x00]) (seq 0 (length [Byte.x00; Byte.x00] / 2)))
    with [sampleAt [Byte.x00; Byte.x00] 0] in Hc.
  rewrite performFFT_odd_throws in Hc by reflexivity. subst c.
  vm_compute in Hp, Hpd, Ht.
  injection Hp as <-. injection Hpd as <-. injection Ht as <-.
  eexists. split; [exact Hm|].
  repeat split. apply pace_not_default. pick_In.
Qed.

(** C2, as the code has it.  When the spectral stage throws, the error is
    not propagated and only clarity takes its default, 3.8: pace, volume,
    pauseDuration and tonalVariation are the scores their stages computed,
    and confidence and enthusiasm are derived from this mixed set. *)
Theorem spectral_failure_defaults_clarity_only (M : MathLib)
    (audioBuffer : Buffer) (decoded : list float) (e : error) :
  extractSamplesFromBuffer audioBuffer = Ok decoded ->
  performFFT M decoded = Throw e ->
  exists audioData p v pd t,
    processAudioBuffer audioBuffer = Ok audioData /\
    (calculateRealPace audioData = Ok p /\ In p [2; 3; 5; 4]%float) /\
    (calculateRealVolume M audioData = Ok v /\ In v [2; 3; 5; 4]%float) /\
    calculateRealClarity M audioData = Ok 3.8%float /\
    (calculateRealPauses audioData = Ok pd /\ In pd [2; 5; 4; 3]%float) /\
    (calculateRealTonalVariation M audioData = Ok t /\
     In t [2; 3; 5; 4]%float) /\
    analyzeAudioProperties M audioBuffer = Ok (withDerived p v 3.8 pd t).
Proof.
  intros Hdecode Hfft.
  destruct (analyzeAudioProperties_total M audioBuffer)
    as (ad & p & v & c & pd & t & Had & Hp & Hv & [Hc Hc'] & Hpd & Ht & Hm).
  assert (Hs : samples ad = decoded).
  { rewrite processAudioBuffer_total in Had. injection Had as <-.
    rewrite extractSamplesFromBuffer_total in Hdecode.
    injection Hdecode as <-. reflexivity. }
  rewrite Hs, Hfft in Hc'. subst c.
  exists ad, p, v, pd, t. repeat split; try assumption;
    try apply Hp; try apply Hv; try apply Hpd; try apply Ht.
Qed.

Lemma spectral_failure_defaults_clarity_only_witness :
  exists audioData p v pd t,
    processAudioBuffer [Byte.x00; Byte.x00] = Ok audioData /\
    (calculateRealPace audioData = Ok p /\ In p [2; 3; 5; 4]%float) /\
    (calculateRealVolume Math_example audioData = Ok v /\
     In v [2; 3; 5; 4]%float) /\
    calculateRealClarity Math_example audioData = Ok 3.8%float /\
    (calculateRealPauses audioData = Ok pd /\ In pd [2; 5; 4; 3]%float) /\
    (calculateRealTonalVariation Math_example audioData = Ok t /\
     In t [2; 3; 5; 4]%float) /\
    analyzeAudioProperties Math_example [Byte.x00; Byte.x00]
    = Ok (withDerived p v 3.8 pd t).
Proof.
  apply (spectral_failure_defaults_clarity_only Math_example
           [Byte.x00; Byte.x00] [0%float] RangeError).
  - vm_compute. reflexivity.
  - vm_compute. reflexivity.
Defined.

(** ** Pace *)

Lemma fold_left_addFrom (segs : list Segment) (total : float) :
  fold_left (fun total segment =>
               (total + (seg_end segment - seg_start segment))%float)
            segs total
  = addFrom total (map segmentSeconds segs).
Proof.
  revert total. induction segs as [|s segs IH]; intros total; [reflexivity|].
  cbn [fold_left map addFrom]. rewrite IH. reflexivity.
Qed.

Lemma totalTime_totalSpeechSeconds (segs : list Segment) :
  totalTime segs = totalSpeechSeconds segs.
Proof. apply fold_left_addFrom. Qed.

Lemma addFrom_pos (seconds : list float) (total : float) :
  Forall (fun x => (0 <? x)%float = true) seconds ->
  (0 <? total)%float = true ->
  (0 <? addFrom total seconds)%float = true.
Proof.
  intros Hall. revert total.
  induction Hall as [|x seconds Hx _ IH]; intros total Htotal;
    [exact Htotal|].
  cbn [addFrom]. apply IH, add_pos; [right; exact Htotal|exact Hx].
Qed.

(** The total of segments that each end after they start is 0, when there
    is none, or positive. *)
Lemma totalSpeechSeconds_sign (segs : list Segment) :
  Forall (fun s => (seg_start s <? seg_end s)%float = true) segs ->
  (segs = [] /\ totalSpeechSeconds segs = 0%float) \/
  (0 <? totalSpeechSeconds segs)%float = true.
Proof.
  intros Hall. destruct Hall as [|s segs Hs Hall]; [left; split; reflexivity|].
  right. unfold totalSpeechSeconds. cbn [map addFrom].
  apply addFrom_pos.
  - apply Forall_map. apply (Forall_impl _ (fun s => sub_pos _ _) Hall).
  - apply add_pos; [left; reflexivity|]. apply sub_pos, Hs.
Qed.

(** C5.  The pace score of a recording, at the rate 44100 that the decoder
    gives every recording, is the table's score of the speech rate: the
    number of speech segments divided by the total speech seconds, and 0
    when there is no speech time, in particular when the total is 0.  The
    total of a recording, which is an array and so has fewer than
    [2 ^ 53] samples, is 0, when there is no segment, or positive: there
    is no third case.  The rates 1.0, 2.0, 3.0, 4.5 and 6.0 score 2, 3, 5,
    4 and 3. *)
Theorem pace_is_bucket_of_speech_rate (audioData : AudioData) :
  sampleRate audioData = 44100%float ->
  let speechSegments := detectSpeechSegments (samples audioData) 44100 in
  calculateRealPace audioData
  = Ok (paceScore (speechRateOf speechSegments)) /\
  (totalSpeechSeconds speechSegments = 0%float ->
   speechRateOf speechSegments = 0%float) /\
  ((Z.of_nat (length (samples audioData)) <= 2 ^ 53)%Z ->
   (speechSegments = [] /\ totalSpeechSeconds speechSegments = 0%float) \/
   (0 <? totalSpeechSeconds speechSegments)%float = true) /\
  paceScore 1.0 = 2%float /\ paceScore 2.0 = 3%float /\
  paceScore 3.0 = 5%float /\ paceScore 4.5 = 4%float /\
  paceScore 6.0 = 3%float.
Proof.
  intros Hrate speechSegments.
  split; [|split; [|split; [|repeat split; vm_compute; reflexivity]]].
  - unfold calculateRealPace. cbv zeta.
    rewrite Hrate, totalTime_totalSpeechSeconds. fold speechSegments.
    unfold paceScore, paceTable, lookupBucket, speechRateOf, try_catch.
    repeat match goal with
           | |- context [if (?x <? ?b)%float then Ok _ else _] =>
               destruct (x <? b)%float
           end; reflexivity.
  - intros Hzero. unfold speechRateOf. rewrite Hzero. reflexivity.
  - intros Hlen. apply totalSpeechSeconds_sign.
    apply speech_timeOrdered; rewrite speechWindowSize_44100; [lia|].
    apply timeStampsIncrease_below; [lia|exact Hlen].
Qed.

Lemma pace_is_bucket_of_speech_rate_witness :
  length (detectSpeechSegments exampleTalk 44100) = 2 /\
  (0 <? totalSpeechSeconds (detectSpeechSegments exampleTalk 44100))%float
  = true /\
  calculateRealPace exampleRecording = Ok 5%float.
Proof.
  split; [vm_compute; reflexivity|]. split; [vm_compute; reflexivity|].
  pose proof (pace_is_bucket_of_speech_rate exampleRecording eq_refl) as H.
  cbv zeta in H. destruct H as [H _]. rewrite H. vm_compute. reflexivity.
Defined.

(** ** Arithmetic of binary64 numbers *)

Lemma SFmul_comm (x y : spec_float) : SF64mul x y = SF64mul y x.
Proof.
  unfold SF64mul, SFmul.
  destruct x as [sx|sx| |sx mx ex], y as [sy|sy| |sy my ey];
    try reflexivity; rewrite (xorb_comm sx sy); try reflexivity.
  rewrite (Pos.mul_comm mx my), (Z.add_comm ex ey). reflexivity.
Qed.

Lemma mul_comm (x y : float) : (x * y)%float = (y * x)%float.
Proof. apply Prim2SF_inj. rewrite !mul_spec. apply SFmul_comm. Qed.

Lemma add_zero_l (x : float) : sameOrZeros (0 + x)%float x.
Proof.
  unfold sameOrZeros, isZero. rewrite add_spec.
  change (Prim2SF 0) with (S754_zero false).
  destruct (Prim2SF x) as [s|s| |s m e] eqn:Ex.
  - right. split; [|eauto]. destruct s; cbn; eauto.
  - left. apply Prim2SF_inj. rewrite add_spec, Ex. reflexivity.
  - left. apply Prim2SF_inj. rewrite add_spec, Ex. reflexivity.
  - left. apply Prim2SF_inj. rewrite add_spec, Ex. reflexivity.
Qed.

Lemma add_sameOrZeros (x x' y : float) :
  sameOrZeros x x' -> sameOrZeros (x + y)%float (x' + y)%float.
Proof.
  intros [->|[[s Hx] [s' Hx']]]; [left; reflexivity|].
  unfold sameOrZeros, isZero. rewrite !add_spec, Hx, Hx'.
  destruct (Prim2SF y) as [sy|sy| |sy my ey] eqn:Ey.
  - right. destruct s, s', sy; cbn; eauto.
  - left. apply Prim2SF_inj. rewrite !add_spec, Hx, Hx', Ey. reflexivity.
  - left. apply Prim2SF_inj. rewrite !add_spec, Hx, Hx', Ey. reflexivity.
  - left. apply Prim2SF_inj. rewrite !add_spec, Hx, Hx', Ey. reflexivity.
Qed.

Lemma Math_max_1_sameOrZeros (x x' : float) :
  sameOrZeros x x' -> Math_max 1 x = Math_max 1 x'.
Proof.
  intros [->|[[s Hx] [s' Hx']]]; [reflexivity|].
  unfold Math_max, is_nan.
  rewrite !FloatAxioms.eqb_spec, !ltb_spec, Hx, Hx'.
  destruct s, s'; reflexivity.
Qed.

Lemma ltb_leb (x y : float) :
  (x <? y)%float = true -> (x <=? y)%float = true.
Proof.
  rewrite ltb_spec, leb_spec. unfold SFltb, SFleb.
  destruct (SFcompare (Prim2SF x) (Prim2SF y)) as [[| |]|];
    try discriminate; reflexivity.
Qed.

(** ** The derived scores *)

Lemma clampScore_inScale (x : float) :
  is_nan x = false -> inScale (clampScore x).
Proof.
  intros Hnan. unfold clampScore, Math_max, Math_min, inScale.
  rewrite Hnan. change (is_nan 1) with false. change (is_nan 5) with false.
  cbn [orb].
  destruct (1 <? x)%float eqn:H1.
  - rewrite Hnan. destruct (x <? 5)%float eqn:H5.
    + rewrite (ltb_leb _ _ H1), (ltb_leb _ _ H5). reflexivity.
    + reflexivity.
  - reflexivity.
Qed.

(** C4.  Confidence and enthusiasm are the weighted sums of the
    specification, clamped to [1, 5] and rounded to one decimal place; they
    are functions of volume, clarity, pace and tonalVariation alone, and the
    clamped value lies in [1, 5] whenever the sum is a number. *)
Theorem derived_scores_formula (audioMetrics : AudioMetrics) :
  let v := volume audioMetrics in
  let c := clarity audioMetrics in
  let p := pace audioMetrics in
  let t := tonalVariation audioMetrics in
  calculateConfidenceFromMetrics audioMetrics
  = roundOneDecimal (clampScore (confidenceSum v c p t)) /\
  calculateEnthusiasmFromMetrics audioMetrics
  = roundOneDecimal (clampScore (enthusiasmSum v t p)) /\
  (is_nan (confidenceSum v c p t) = false ->
   inScale (clampScore (confidenceSum v c p t))) /\
  (is_nan (enthusiasmSum v t p) = false ->
   inScale (clampScore (enthusiasmSum v t p))).
Proof.
  intros v c p t.
  split; [|split; [|split; apply clampScore_inScale]].
  - unfold calculateConfidenceFromMetrics, roundOneDecimal, clampScore,
      confidenceSum. cbv zeta. fold v c p t.
    do 3 f_equal. f_equal.
    rewrite (mul_comm 0.3 v), (mul_comm 0.3 c), (mul_comm 0.2 p),
      (mul_comm 0.2 t).
    destruct ((3 <=? t) && (t <=? 4))%float;
      apply Math_max_1_sameOrZeros;
      repeat apply add_sameOrZeros; apply add_zero_l.
  - unfold calculateEnthusiasmFromMetrics, roundOneDecimal, clampScore,
      enthusiasmSum. cbv zeta. fold v t p.
    do 3 f_equal. f_equal.
    rewrite (mul_comm 0.4 v), (mul_comm 0.4 t), (mul_comm 0.2 p).
    destruct (4 <=? p)%float;
      apply Math_max_1_sameOrZeros;
      repeat apply add_sameOrZeros; apply add_zero_l.
Qed.

(** ** Silence: the minimum duration and the trailing run *)

(** X1.  Every segment returned by [detectSilentSegments] lasts at least
    [minDuration]: the difference of its stamps, as the code computes it,
    passed the test [duration >= minDuration]. *)
Theorem silent_segments_last_min_duration (samples : list float)
    (sampleRate threshold minDuration : float) :
  Forall (fun seg =>
            (minDuration <=? seg_end seg - seg_start seg)%float = true)
         (detectSilentSegments samples sampleRate threshold minDuration).
Proof.
  unfold detectSilentSegments, silenceLoop.
  apply (for_loop_ind
           (fun st => Forall (fun seg =>
              (minDuration <=? seg_end seg - seg_start seg)%float = true)
              (segments st))).
  - constructor.
  - intros i st _ _ Hst. unfold silenceStep. cbv zeta.
    destruct (_ && negb (inRun st)); [exact Hst|].
    destruct (_ && inRun st); [|exact Hst].
    cbn [segments].
    destruct (minDuration <=? of_nat i / sampleRate - runStart st)%float eqn:Hd;
      [|exact Hst].
    apply Forall_app. split; [exact Hst|].
    constructor; [exact Hd|constructor].
Qed.

Lemma silenceRun_firstn (samples : list float)
    (sampleRate threshold minDuration : float) (a : nat) :
  a * silenceWindowSize sampleRate <= length samples ->
  run (silenceWindowSize sampleRate)
      (silenceStep (firstn (a * silenceWindowSize sampleRate) samples)
                   sampleRate threshold minDuration) a
  = run (silenceWindowSize sampleRate)
        (silenceStep samples sampleRate threshold minDuration) a.
Proof.
  intros Ha. unfold run. apply fold_left_ext_in.
  intros st k Hk. apply in_seq in Hk.
  rewrite !silenceStep_segStep. cbv zeta.
  rewrite windowAt_firstn; [reflexivity| |exact Ha].
  nia.
Qed.

Lemma open_silence_run_dropped (samples : list float)
    (sampleRate threshold minDuration : float) :
  1 <= silenceWindowSize sampleRate ->
  inRun (silenceLoop samples sampleRate threshold minDuration) = true ->
  exists a,
    a * silenceWindowSize sampleRate < length samples /\
    runStart (silenceLoop samples sampleRate threshold minDuration)
    = stampOf sampleRate (a * silenceWindowSize sampleRate) /\
    detectSilentSegments samples sampleRate threshold minDuration
    = detectSilentSegments
        (firstn (a * silenceWindowSize sampleRate) samples)
        sampleRate threshold minDuration.
Proof.
  intros Hws Hin. unfold detectSilentSegments.
  rewrite silenceLoop_run in * by exact Hws.
  set (ws := silenceWindowSize sampleRate) in *.
  destruct (iterations_spec (length samples) ws Hws) as (_ & Hlt & _).
  destruct (run_open_segments ws (stampOf sampleRate)
              (silenceStep samples sampleRate threshold minDuration) _ _ _
              (silenceStep_segStep samples sampleRate threshold minDuration)
              _ Hin)
    as (a & Han & Hstart & Hsegs & _).
  exists a. specialize (Hlt a Han).
  repeat split; try assumption.
  rewrite Hsegs, silenceLoop_run by exact Hws.
  fold ws. rewrite length_firstn, Nat.min_l by lia.
  rewrite iterations_mul by exact Hws.
  unfold ws. rewrite silenceRun_firstn by (fold ws; lia).
  reflexivity.
Qed.

(** X2.  Silence that lasts until the end of the clip is never counted:
    when the loop of [detectSilentSegments] ends inside a silent run, which
    opened at the window start [a * 441], the output is the one the detector
    gives on the samples before that position. *)
Theorem trailing_silence_is_not_counted (samples : list float)
    (threshold minDuration : float) :
  inRun (silenceLoop samples 44100 threshold minDuration) = true ->
  exists a,
    a * 441 < length samples /\
    runStart (silenceLoop samples 44100 threshold minDuration)
    = (of_nat (a * 441) / 44100)%float /\
    detectSilentSegments samples 44100 threshold minDuration
    = detectSilentSegments (firstn (a * 441) samples) 44100
                           threshold minDuration.
Proof.
  intros Hopen.
  pose proof (open_silence_run_dropped samples 44100 threshold minDuration) as H.
  rewrite silenceWindowSize_44100 in H.
  apply H; [lia|exact Hopen].
Qed.

Lemma trailing_silence_is_not_counted_witness :
  exists a,
    a * 441 < length exampleClipEndingInSilence /\
    runStart (silenceLoop exampleClipEndingInSilence 44100 0.01 0.2)
    = (of_nat (a * 441) / 44100)%float /\
    detectSilentSegments exampleClipEndingInSilence 44100 0.01 0.2
    = detectSilentSegments (firstn (a * 441) exampleClipEndingInSilence) 44100
                           0.01 0.2.
Proof.
  apply (trailing_silence_is_not_counted exampleClipEndingInSilence).
  vm_compute. reflexivity.
Defined.

(** ** Quotients of zero *)

(** [0 / y] is a zero or NaN, whatever [y] is. *)
Lemma zero_div (y : float) : zeroOrNaN (0 / y)%float.
Proof.
  unfold zeroOrNaN. rewrite div_spec.
  change (Prim2SF 0) with (S754_zero false).
  destruct (Prim2SF y) as [s|s| |s m e]; cbn; eauto.
Qed.

Lemma zeroOrNaN_not_above (x bound : float) :
  zeroOrNaN x -> (0 <? bound)%float = true -> (bound <? x)%float = false.
Proof.
  intros [[s Hx]|Hx] Hb; rewrite ltb_spec in *; rewrite Hx.
  - change (Prim2SF 0) with (S754_zero false) in Hb.
    unfold SFltb, SFcompare in *.
    destruct (Prim2SF bound) as [sb|sb| |sb mb eb]; try discriminate;
      destruct sb; try discriminate; reflexivity.
  - unfold SFltb, SFcompare. destruct (Prim2SF bound); reflexivity.
Qed.

Lemma zeroOrNaN_not_at_least (x bound : float) :
  zeroOrNaN x -> (0 <? bound)%float = true -> (bound <=? x)%float = false.
Proof.
  intros [[s Hx]|Hx] Hb; rewrite ltb_spec in Hb; rewrite leb_spec, Hx.
  - change (Prim2SF 0) with (S754_zero false) in Hb.
    unfold SFltb, SFleb, SFcompare in *.
    destruct (Prim2SF bound) as [sb|sb| |sb mb eb]; try discriminate;
      destruct sb; try discriminate; reflexivity.
  - unfold SFleb, SFcompare. destruct (Prim2SF bound); reflexivity.
Qed.

Lemma zeroOrNaN_not_positive (x : float) :
  zeroOrNaN x -> (0 <? x)%float = false.
Proof.
  intros [[s Hx]|Hx]; rewrite ltb_spec, Hx; reflexivity.
Qed.

(** ** Clips without a pause, and clips of silence *)

Lemma totalTime_nil : totalTime [] = 0%float.
Proof. reflexivity. Qed.

(** The bucket of a silence ratio [0 / duration]. *)
Lemma zero_ratio_bucket (duration : float) :
  try_catch
    (if (0 / duration <? 0.05)%float then Ok 2%float
     else if (0 / duration <? 0.15)%float then Ok 5%float
     else if (0 / duration <? 0.25)%float then Ok 4%float
     else if (0 / duration <? 0.35)%float then Ok 3%float
     else Ok 2%float)
    (fun error => Ok 3.5%float)
  = Ok 2%float.
Proof.
  destruct (zero_div duration) as [[s Hz]|Hn].
  - replace ((0 / duration <? 0.05)%float) with true; [reflexivity|].
    rewrite ltb_spec, Hz. destruct s; reflexivity.
  - assert (Hlt : forall b, (0 / duration <? b)%float = false).
    { intros b. rewrite ltb_spec, Hn. reflexivity. }
    rewrite !Hlt. reflexivity.
Qed.

(** X3.  A clip in which the detector closes no pause of the minimum
    duration scores pauseDuration 2, whatever its length: the silence ratio
    is a zero, or NaN for the empty buffer, and both fall in a bucket of
    score 2. *)
Theorem no_pause_scores_two (audioData : AudioData) :
  detectSilentSegments (samples audioData) (sampleRate audioData) 0.01 0.2 = [] ->
  calculateRealPauses audioData = Ok 2%float.
Proof.
  intros Hnone. unfold calculateRealPauses. cbv zeta. rewrite Hnone.
  rewrite totalTime_nil. apply zero_ratio_bucket.
Qed.

Lemma no_pause_scores_two_witness :
  calculateRealPauses
    {| buffer := []; sampleRate := 44100; channels := 1;
       duration := (of_nat 1764 / (44100 * 2))%float;
       samples := repeat 0.5%float 882 |}
  = Ok 2%float.
Proof.
  apply no_pause_scores_two. vm_compute. reflexivity.
Defined.

Lemma fold_squares_zero (k : nat) :
  fold_left (fun energy w => (energy + w * w)%float) (repeat 0%float k) 0%float
  = 0%float.
Proof. induction k as [|k IH]; [reflexivity|exact IH]. Qed.

Lemma skipn_repeat {A : Type} (x : A) (i n : nat) :
  skipn i (repeat x n) = repeat x (n - i).
Proof.
  revert n. induction i as [|i IH]; intros n.
  - now rewrite Nat.sub_0_r.
  - destruct n as [|n]; [reflexivity|]. cbn. apply IH.
Qed.

Lemma firstn_repeat {A : Type} (x : A) (k n : nat) :
  firstn k (repeat x n) = repeat x (Nat.min k n).
Proof.
  revert n. induction k as [|k IH]; intros n; [reflexivity|].
  destruct n as [|n]; [reflexivity|]. cbn. f_equal. apply IH.
Qed.

Lemma slice_repeat {A : Type} (x : A) (n lo hi : nat) :
  slice (repeat x n) lo hi = repeat x (Nat.min (hi - lo) (n - lo)).
Proof. unfold slice. now rewrite skipn_repeat, firstn_repeat. Qed.

Lemma nth_repeat_lt {A : Type} (x d : A) (i n : nat) :
  i < n -> nth i (repeat x n) d = x.
Proof.
  revert n. induction i as [|i IH]; intros [|n] H; try lia; [reflexivity|].
  cbn. apply IH. lia.
Qed.

(** The energy of a window of zeros is a zero or NaN. *)
Lemma zero_window_energy (k : nat) :
  zeroOrNaN (calculateWindowEnergy (repeat 0%float k)).
Proof.
  unfold calculateWindowEnergy. cbv zeta. rewrite fold_squares_zero.
  apply zero_div.
Qed.

Lemma zero_clip_no_speech (n : nat) (sampleRate : float) :
  speechLoop (repeat 0%float n) sampleRate = initSegState.
Proof.
  unfold speechLoop.
  apply (for_loop_ind (fun st => st = initSegState)); [reflexivity|].
  intros i st _ _ ->. unfold speechStep. cbv zeta.
  rewrite slice_repeat.
  rewrite (zeroOrNaN_not_above _ energyThreshold (zero_window_energy _))
    by reflexivity.
  cbn [inRun initSegState andb]. rewrite andb_false_r. reflexivity.
Qed.

Lemma zero_clip_no_pause (n : nat) (sampleRate minDuration : float) :
  detectSilentSegments (repeat 0%float n) sampleRate 0.01 minDuration = [].
Proof.
  unfold detectSilentSegments, silenceLoop.
  apply (for_loop_ind (fun st => segments st = [])); [reflexivity|].
  intros i st _ _ Hst. unfold silenceStep. cbv zeta.
  rewrite slice_repeat.
  rewrite (zeroOrNaN_not_at_least _ 0.01%float (zero_window_energy _))
    by reflexivity.
  cbn [andb]. destruct (_ && negb (inRun st)); exact Hst.
Qed.

Lemma zero_window_lagSum (k period : nat) :
  fst (lagSum (repeat 0%float k) period) = 0%float.
Proof.
  unfold lagSum. rewrite repeat_length.
  apply (for_loop_ind (fun s : float * nat => fst s = 0%float));
    [reflexivity|].
  intros i [correlation count] _ Hi Hc. apply Nat.ltb_lt in Hi.
  cbn [fst] in *. subst correlation.
  rewrite !nth_repeat_lt by lia. reflexivity.
Qed.

Lemma zero_window_pitch (k : nat) (sampleRate : float) :
  estimatePitch (repeat 0%float k) sampleRate = 0%float.
Proof.
  unfold estimatePitch. cbv zeta.
  rewrite bestLag_unvoiced; [reflexivity|].
  intros period correlation count _ Hsum _.
  pose proof (zero_window_lagSum k period) as H0.
  rewrite Hsum in H0. cbn [fst] in H0. subst correlation.
  apply zeroOrNaN_not_positive, zero_div.
Qed.

Lemma zero_clip_no_pitch (n : nat) (sampleRate : float) :
  pitchTrack (repeat 0%float n) sampleRate = [].
Proof.
  unfold pitchTrack. cbv zeta.
  apply (for_loop_ind (fun track : list float => track = []));
    [reflexivity|].
  intros i track _ _ ->. rewrite slice_repeat, zero_window_pitch.
  reflexivity.
Qed.

Lemma zero_buffer_samples (n : nat) :
  map (sampleAt (repeat Byte.x00 n)) (seq 0 (length (repeat Byte.x00 n) / 2))
  = repeat 0%float (n / 2).
Proof.
  rewrite repeat_length.
  assert (H : forall i, sampleAt (repeat Byte.x00 n) i = 0%float).
  { intros i. unfold sampleAt. rewrite !nth_repeat. reflexivity. }
  generalize (n / 2) as k. intros k. generalize 0 as start.
  induction k as [|k IH]; intros start; [reflexivity|].
  cbn [seq map repeat]. rewrite H, IH. reflexivity.
Qed.

(** X4.  A recording of digital silence, of any length, is scored
    pace 2, pauseDuration 2 and tonalVariation 2: no window's energy exceeds
    the speech threshold, the single silent run is never closed, and no
    window has a positive autocorrelation. *)
Theorem silent_recording_scores (M : MathLib) (n : nat) :
  exists m,
    analyzeAudioProperties M (repeat Byte.x00 n) = Ok m /\
    pace m = 2%float /\ pauseDuration m = 2%float /\
    tonalVariation m = 2%float.
Proof.
  destruct (analyzeAudioProperties_total M (repeat Byte.x00 n))
    as (ad & p & v & c & pd & t & Had & [Hp _] & _ & _ & [Hpd _] & [Ht _] & Hm).
  rewrite processAudioBuffer_total, zero_buffer_samples in Had.
  injection Had as <-.
  exists (withDerived p v c pd t). split; [exact Hm|].
  change (p = 2%float /\ pd = 2%float /\ t = 2%float).
  split; [|split].
  - unfold calculateRealPace, detectSpeechSegments in Hp. cbv zeta in Hp.
    cbn [samples sampleRate] in Hp. rewrite zero_clip_no_speech in Hp.
    vm_compute in Hp. now injection Hp.
  - unfold calculateRealPauses in Hpd. cbv zeta in Hpd.
    cbn [samples sampleRate] in Hpd. rewrite zero_clip_no_pause in Hpd.
    rewrite totalTime_nil, zero_ratio_bucket in Hpd. now injection Hpd.
  - unfold calculateRealTonalVariation in Hpd, Ht. cbv zeta in Ht.
    cbn [samples sampleRate] in Ht. rewrite zero_clip_no_pitch in Ht.
    cbn in Ht. now injection Ht.
Qed.

(** ** The pitch track and the last window *)

Lemma fold_push_length {A : Type} (f : nat -> list A -> list A) (l : list nat)
    (track : list A) :
  (forall i t, length (f i t) <= S (length t)) ->
  length (fold_left (fun t i => f i t) l track) <= length track + length l.
Proof.
  intros Hf. revert track. induction l as [|i l IH]; intros track; cbn; [lia|].
  specialize (IH (f i track)). specialize (Hf i track). lia.
Qed.

(** X5.  The loop of [calculateRealTonalVariation] stops before the last
    window: a clip of [len] samples yields at most [(len - 1) / 882] pitch
    values, so the last 20 ms of a clip are never analysed and a clip of at
    most 882 samples yields no pitch value. *)
Theorem pitch_track_skips_last_window (samples : list float) :
  length (pitchTrack samples 44100) <= (length samples - 1) / 882.
Proof.
  unfold pitchTrack. cbv zeta. rewrite speechWindowSize_44100.
  set (len := length samples).
  destruct (iterations_spec (len - 882) 882 ltac:(lia)) as (H1 & H2 & H3).
  rewrite (for_loop_fold_from (len - 882) 882 _ ltac:(lia)
             (iterations (len - 882) 882)); [|lia|exact H2|exact H1].
  etransitivity.
  { apply (fold_push_length
             (fun j pitchValues =>
                let window := slice samples (0 + j * 882)
                                    (0 + j * 882 + 882) in
                let pitch := estimatePitch window 44100 in
                if (0 <? pitch)%float then pitchValues ++ [pitch]
                else pitchValues)).
    intros i t. cbv zeta. destruct (0 <? _)%float; [|lia].
    rewrite length_app. cbn. lia. }
  rewrite length_seq. cbn [length Nat.add].
  destruct (iterations (len - 882) 882) as [|k] eqn:Ek; [lia|].
  specialize (H2 k ltac:(lia)).
  apply Nat.div_le_lower_bound; lia.
Qed.

(** ** Speech without a gap *)

Lemma SFcompare_swap (x y : spec_float) :
  SFcompare y x = match SFcompare x y with
                  | Some c => Some (CompOpp c)
                  | None => None
                  end.
Proof.
  destruct x as [sx|sx| |sx mx ex], y as [sy|sy| |sy my ey]; cbn;
    try reflexivity;
    try (destruct sx; reflexivity); try (destruct sy; reflexivity);
    try (destruct sx, sy; reflexivity).
  destruct sx, sy; try reflexivity;
    rewrite (Z.compare_antisym ey ex);
    change (PosDef.Pos.compare_cont Eq mx my) with (Pos.compare mx my);
    change (PosDef.Pos.compare_cont Eq my mx) with (Pos.compare my mx);
    rewrite (Pos.compare_antisym my mx);
    destruct (ey ?= ex)%Z, (my ?= mx)%positive; reflexivity.
Qed.

Lemma ltb_not_leb (x y : float) :
  (x <? y)%float = true -> (y <=? x)%float = false.
Proof.
  rewrite ltb_spec, leb_spec. unfold SFltb, SFleb.
  rewrite (SFcompare_swap (Prim2SF x) (Prim2SF y)).
  destruct (SFcompare (Prim2SF x) (Prim2SF y)) as [[| |]|];
    try discriminate; reflexivity.
Qed.

Lemma gapless_run_has_no_segment (samples : list float) (n : nat) :
  gapless samples ->
  n <= iterations (length samples) 882 ->
  segments (run 882 (speechStep samples 44100) n) = [].
Proof.
  intros Hgap. induction n as [|n IH]; intros Hn; [reflexivity|].
  rewrite run_S. unfold speechStep at 1. cbv zeta.
  rewrite speechWindowSize_44100.
  assert (Hk : n * 882 < length samples) by (apply iterations_lt; lia).
  rewrite (ltb_not_leb _ _ (Hgap n Hk)), (Hgap n Hk). cbn [andb].
  destruct (negb _); cbn [segments]; apply IH; lia.
Qed.

(** X6.  Speech without a gap counts as no speech: when the energy of
    every window of a clip exceeds the speech threshold, no segment is ever
    closed, the speech rate is taken as 0 and [calculateRealPace] returns
    2, however long the clip is. *)
Theorem gapless_speech_scores_pace_two (audioData : AudioData) :
  sampleRate audioData = 44100%float ->
  gapless (samples audioData) ->
  calculateRealPace audioData = Ok 2%float.
Proof.
  intros Hsr Hgap. unfold calculateRealPace, detectSpeechSegments. cbv zeta.
  rewrite Hsr, speechLoop_run by (rewrite speechWindowSize_44100; lia).
  rewrite speechWindowSize_44100.
  rewrite (gapless_run_has_no_segment _ _ Hgap (le_n _)).
  reflexivity.
Qed.

Lemma gapless_speech_scores_pace_two_witness :
  calculateRealPace
    {| buffer := []; sampleRate := 44100; channels := 1;
       duration := (of_nat 4000 / (44100 * 2))%float;
       samples := repeat 0.5%float 2000 |}
  = Ok 2%float.
Proof.
  apply gapless_speech_scores_pace_two; [reflexivity|].
  intros k Hk. cbn [samples] in *. rewrite repeat_length in *.
  assert (Hcases : k = 0 \/ k = 1 \/ k = 2) by lia.
  destruct Hcases as [->|[->| ->]]; vm_compute; reflexivity.
Defined.

(** ** Writing and reading a sample *)

Lemma round_trip_ok_all :
  forall_from (Z.to_nat 65536) round_trip_ok (-32768) = true.
Proof. vm_compute. reflexivity. Qed.

(** X7.  What the test script writes, the decoder reads: for every
    integer [v] of the signed 16-bit range, [writeInt16LE] does not throw,
    and [extractSamplesFromBuffer] of the two bytes it stores is the one
    sample [v / 32768], without rounding. *)
Theorem int16_write_then_decode (v : Z) :
  (-32768 <= v <= 32767)%Z ->
  exists lo hi,
    writeInt16LE v = Ok (lo, hi) /\
    extractSamplesFromBuffer [lo; hi] = Ok [(of_Z v / 32768)%float].
Proof.
  intros Hv.
  pose proof (forall_from_spec _ _ _ round_trip_ok_all v ltac:(lia)) as Hrt.
  pose proof (sample_ok_int16 v ltac:(lia)) as Hok.
  unfold round_trip_ok in Hrt.
  destruct (writeInt16LE v) as [[lo hi]|]; [|discriminate].
  exists lo, hi. split; [reflexivity|].
  unfold extractSamplesFromBuffer. cbv zeta.
  change (length [lo; hi] / 2) with 1. cbn [seq mapM].
  change (0 * 2) with 0.
  destruct (readInt16LE [lo; hi] 0) as [r|]; [|discriminate].
  apply Z.eqb_eq in Hrt. subst r. cbn [bind].
  unfold sample_ok in Hok. cbv zeta in Hok.
  apply andb_prop in Hok. destruct Hok as [Hok _].
  apply andb_prop in Hok. destruct Hok as [Hok _].
  apply FloatAxioms.Leibniz.eqb_spec in Hok. rewrite Hok. reflexivity.
Qed.

Lemma int16_write_then_decode_witness :
  exists lo hi,
    writeInt16LE (-12345) = Ok (lo, hi) /\
    extractSamplesFromBuffer [lo; hi] = Ok [(of_Z (-12345) / 32768)%float].
Proof.
  apply (int16_write_then_decode (-12345)). lia.
Defined.

(** ** Comparison of binary64 numbers *)

Lemma SFcompare_Eq (x y : spec_float) :
  SFcompare x y = Some Eq ->
  x = y \/ ((exists s, x = S754_zero s) /\ (exists s, y = S754_zero s)).
Proof.
  destruct x as [sx|sx| |sx mx ex], y as [sy|sy| |sy my ey]; cbn;
    try discriminate; eauto.
  all: try (destruct sx; discriminate).
  all: try (destruct sy; discriminate).
  - destruct sx, sy; try discriminate; auto.
  - destruct sx, sy; try discriminate;
      destruct (Z.compare_spec ex ey) as [->| |]; try discriminate;
      change (PosDef.Pos.compare_cont Eq mx my) with (Pos.compare mx my);
      destruct (Pos.compare_spec mx my) as [->| |]; try discriminate; auto.
Qed.

(** Two numbers of which the first is at most the second and not below it
    are the same number, unless both are zeros. *)
Lemma leb_not_ltb_eq (x y : float) :
  (x <=? y)%float = true -> (x <? y)%float = false ->
  (x =? 0)%float = false \/ (y =? 0)%float = false -> x = y.
Proof.
  rewrite leb_spec, ltb_spec, !FloatAxioms.eqb_spec.
  unfold SFleb, SFltb, SFeqb. intros Hle Hlt Hnz.
  destruct (SFcompare (Prim2SF x) (Prim2SF y)) as [[| |]|] eqn:Hc;
    try discriminate.
  destruct (SFcompare_Eq _ _ Hc) as [Heq|[[sx Hx] [sy Hy]]].
  - now apply Prim2SF_inj.
  - rewrite Hx, Hy in Hnz. destruct sx, sy, Hnz; discriminate.
Qed.

Lemma ltb_asym (x y : float) :
  (x <? y)%float = true -> (y <? x)%float = false.
Proof.
  intros H. destruct (y <? x)%float eqn:H'; [|reflexivity].
  pose proof (ltb_trans _ _ _ H H') as Hxx.
  rewrite ltb_spec in Hxx. unfold SFltb in Hxx.
  destruct (Prim2SF x) as [s|s| |s m e]; cbn in Hxx; try discriminate.
  - destruct s; discriminate.
  - destruct s;
      rewrite Z.compare_refl in Hxx;
      change (Pos.compare_cont Eq m m) with (Pos.compare m m) in Hxx;
      rewrite Pos.compare_refl in Hxx; discriminate.
Qed.

Lemma leb_refl_finite (x : float) :
  is_nan x = false -> (x <=? x)%float = true.
Proof.
  unfold is_nan. rewrite FloatAxioms.eqb_spec, leb_spec.
  unfold SFeqb, SFleb.
  destruct (SFcompare (Prim2SF x) (Prim2SF x)) as [[| |]|]; try discriminate;
    reflexivity.
Qed.

(** ** [normalizeAnalysis] *)

Lemma clamp_inScaleOrNaN (x : float) :
  inScaleOrNaN (Math_max 1 (Math_min 5 x)).
Proof.
  unfold inScaleOrNaN, inScale, Math_max, Math_min.
  change (is_nan 5) with false. change (is_nan 1) with false. cbn [orb].
  destruct (is_nan x) eqn:Hnan; [left; reflexivity|right].
  destruct (x <? 5)%float eqn:H5.
  - rewrite Hnan. destruct (1 <? x)%float eqn:H1.
    + now rewrite (ltb_leb _ _ H1), (ltb_leb _ _ H5).
    + reflexivity.
  - reflexivity.
Qed.

Lemma clamp_inScale (x : float) :
  is_nan x = false -> inScale (Math_max 1 (Math_min 5 x)).
Proof.
  intros Hnan. destruct (clamp_inScaleOrNaN x) as [H|H]; [|exact H].
  unfold Math_max, Math_min in H. rewrite Hnan in H.
  change (is_nan 5) with false in H. change (is_nan 1) with false in H.
  cbn [orb] in H.
  destruct (x <? 5)%float; [|discriminate].
  rewrite Hnan in H. destruct (1 <? x)%float; [congruence|discriminate].
Qed.

Lemma clamp_of_inScale (x : float) :
  inScale x -> Math_max 1 (Math_min 5 x) = x.
Proof.
  unfold inScale. intros H. apply andb_prop in H. destruct H as [H1 H5].
  assert (Hnan : is_nan x = false).
  { unfold is_nan. rewrite FloatAxioms.eqb_spec. rewrite leb_spec in H5.
    unfold SFeqb, SFleb in *.
    destruct (Prim2SF x) as [s|s| |s m e]; try discriminate; cbn.
    - reflexivity.
    - destruct s; reflexivity.
    - destruct s; rewrite Z.compare_refl;
        change (Pos.compare_cont Eq m m) with (Pos.compare m m);
        rewrite Pos.compare_refl; reflexivity. }
  unfold Math_max, Math_min.
  change (is_nan 5) with false. change (is_nan 1) with false. cbn [orb].
  rewrite Hnan.
  destruct (x <? 5)%float eqn:Hlt5.
  - rewrite Hnan. destruct (1 <? x)%float eqn:Hlt1; [reflexivity|].
    apply leb_not_ltb_eq; [exact H1|exact Hlt1|left; reflexivity].
  - assert (x = 5%float) as -> by (apply leb_not_ltb_eq; auto).
    reflexivity.
Qed.

Lemma normalizedAspect_numeric (B : Builtins) (aspect : option json) :
  numericOrAbsent (opt_member aspect (lit "score")) ->
  exists a,
    normalizedAspect B aspect = Normal a /\
    normalScore (opt_member aspect (lit "score")) (score a).
Proof.
  unfold normalizedAspect, normalScore.
  destruct (opt_member aspect (lit "score")) as [[| |x| | |]|]; cbn;
    try contradiction; intros Hnum.
  - rewrite Hnum, orb_false_r.
    destruct (x =? 0)%float eqn:H0; cbn.
    + eexists. split; [reflexivity|]. cbn.
      split; [reflexivity|]. split; [reflexivity|].
      intros Hx. exfalso. unfold inScale in Hx.
      apply andb_prop in Hx. destruct Hx as [H1 _].
      rewrite FloatAxioms.eqb_spec in H0. rewrite leb_spec in H1.
      unfold SFeqb, SFleb in *.
      change (Prim2SF 1) with (S754_finite false 4503599627370496 (-52)) in H1.
      change (Prim2SF 0) with (S754_zero false) in H0.
      destruct (Prim2SF x) as [s|s| |s m e]; try discriminate;
        destruct s; discriminate.
    + eexists. split; [reflexivity|]. cbn.
      split; [now apply clamp_inScale|].
      split; [discriminate|apply clamp_of_inScale].
  - eexists. split; [reflexivity|]. cbn. split; reflexivity.
Qed.

Lemma normalizedAspect_scale (B : Builtins) (aspect : option json) (a : Aspect) :
  normalizedAspect B aspect = Normal a -> inScaleOrNaN (score a).
Proof.
  unfold normalizedAspect.
  destruct (ToNumber B _) as [s|e]; cbn; [|discriminate].
  intros H. injection H as <-. apply clamp_inScaleOrNaN.
Qed.

Lemma member_not_null (analysis : json) (key : jsstring) :
  analysis <> JNull ->
  member (Some analysis) key = Normal (getProp analysis key).
Proof. destruct analysis; intros H; try reflexivity. contradiction. Qed.

Lemma normalizeAnalysis_scale (B : Builtins) (analysis : json)
    (r : ContentAnalysis) :
  normalizeAnalysis B analysis = Normal r ->
  Forall inScaleOrNaN (engagementScores r).
Proof.
  assert (Hnull : analysis = JNull \/ analysis <> JNull).
  { destruct analysis; auto; right; discriminate. }
  destruct Hnull as [->|Hnull]; [discriminate|].
  unfold normalizeAnalysis.
  rewrite !member_not_null by exact Hnull. cbn [and_then].
  destruct (normalizedAspect B (getProp analysis (lit "storytelling")))
    as [a1|] eqn:H1; cbn [and_then]; [|discriminate].
  destruct (normalizedAspect B (getProp analysis (lit "audienceConnection")))
    as [a2|] eqn:H2; cbn [and_then]; [|discriminate].
  destruct (normalizedAspect B (getProp analysis (lit "persuasiveness")))
    as [a3|] eqn:H3; cbn [and_then]; [|discriminate].
  intros H; injection H as <-. unfold engagementScores.
  cbn [storytelling audienceConnection persuasiveness].
  apply Forall_cons; [|apply Forall_cons; [|apply Forall_cons; [|apply Forall_nil]]];
    eapply normalizedAspect_scale; eassumption.
Qed.

(** X8.  On a parsed reply that is not [null] and whose three [score]
    entries are numbers or missing, [normalizeAnalysis] does not throw and
    returns three scores between 1 and 5: a given score that lies between 1
    and 5 is kept, and a missing score or a score of 0 becomes 3 (it is not
    raised to 1). *)
Theorem normalizeAnalysis_numeric_scores (B : Builtins) (analysis : json) :
  analysis <> JNull ->
  numericOrAbsent (scoreGiven analysis (lit "storytelling")) ->
  numericOrAbsent (scoreGiven analysis (lit "audienceConnection")) ->
  numericOrAbsent (scoreGiven analysis (lit "persuasiveness")) ->
  exists r,
    normalizeAnalysis B analysis = Normal r /\
    normalScore (scoreGiven analysis (lit "storytelling"))
                (score (storytelling r)) /\
    normalScore (scoreGiven analysis (lit "audienceConnection"))
                (score (audienceConnection r)) /\
    normalScore (scoreGiven analysis (lit "persuasiveness"))
                (score (persuasiveness r)).
Proof.
  intros Hnull H1 H2 H3. unfold normalizeAnalysis, scoreGiven in *.
  rewrite !member_not_null by exact Hnull. cbn [and_then].
  destruct (normalizedAspect_numeric B _ H1) as (a1 & -> & Ha1).
  destruct (normalizedAspect_numeric B _ H2) as (a2 & -> & Ha2).
  destruct (normalizedAspect_numeric B _ H3) as (a3 & -> & Ha3).
  cbn [and_then]. eexists. split; [reflexivity|]. cbn. auto.
Qed.

Lemma normalizeAnalysis_numeric_scores_witness :
  exists r,
    normalizeAnalysis Builtins_example exampleAnalysis = Normal r /\
    normalScore (scoreGiven exampleAnalysis (lit "storytelling"))
                (score (storytelling r)) /\
    normalScore (scoreGiven exampleAnalysis (lit "audienceConnection"))
                (score (audienceConnection r)) /\
    normalScore (scoreGiven exampleAnalysis (lit "persuasiveness"))
                (score (persuasiveness r)).
Proof.
  apply (normalizeAnalysis_numeric_scores Builtins_example exampleAnalysis).
  - discriminate.
  - reflexivity.
  - reflexivity.
  - exact I.
Defined.

(** ** [getFallbackAnalysis] *)

Lemma split_length (sep : N) (s : jsstring) :
  length (split sep s) = S (count_occ N.eq_dec s sep).
Proof.
  induction s as [|c s IH]; [reflexivity|].
  cbn [split]. destruct (N.eqb_spec c sep) as [->|Hne].
  - rewrite count_occ_cons_eq by reflexivity. cbn [length]. now rewrite IH.
  - rewrite count_occ_cons_neq by exact Hne.
    destruct (split sep s) as [|w ws]; [discriminate|exact IH].
Qed.

(** X9.  The fallback analysis counts separators, not words: its
    storytelling score is 4 exactly when the transcription contains at
    least 50 space characters, and 3 otherwise, whatever stands between the
    spaces. *)
Theorem fallback_storytelling_counts_spaces (transcriptionText : jsstring)
    (audioMetrics : AudioMetrics) :
  score (storytelling (getFallbackAnalysis transcriptionText audioMetrics))
  = if 50 <=? count_occ N.eq_dec transcriptionText 32%N
    then 4%float else 3%float.
Proof.
  unfold getFallbackAnalysis. cbv zeta. cbn [storytelling score].
  rewrite split_length. reflexivity.
Qed.

Lemma fallback_inScale (transcriptionText : jsstring) (audioMetrics : AudioMetrics) :
  Forall inScale
         (engagementScores (getFallbackAnalysis transcriptionText audioMetrics)).
Proof.
  unfold getFallbackAnalysis, engagementScores. cbv zeta.
  cbn [storytelling audienceConnection persuasiveness score].
  apply Forall_cons; [|apply Forall_cons; [|apply Forall_cons; [|apply Forall_nil]]].
  - destruct (50 <? _); reflexivity.
  - destruct (existsb _ _); reflexivity.
  - destruct (test _ _); reflexivity.
Qed.

(** ** The score pattern *)

Lemma span_digits_length (s ds rest : jsstring) :
  span_digits s = (ds, rest) -> length s = length ds + length rest.
Proof.
  revert ds rest. induction s as [|c s IH]; intros ds rest; cbn [span_digits].
  - intros H. injection H as <- <-. reflexivity.
  - destruct (is_digit c).
    + destruct (span_digits s) as [ds' rest'].
      intros H. injection H as <- <-. cbn [length]. now rewrite (IH _ _ eq_refl).
    + intros H. injection H as <- <-. reflexivity.
Qed.

Lemma after_ci_length (pattern s rest : jsstring) :
  after_ci pattern s = Some rest -> length s = length pattern + length rest.
Proof.
  revert s. induction pattern as [|p pattern IH]; intros s; cbn [after_ci].
  - intros H. injection H as <-. reflexivity.
  - destruct s as [|c s]; [discriminate|].
    destruct (upper p =? upper c)%N; [|discriminate].
    intros H. cbn [length]. now rewrite (IH _ H).
Qed.

Lemma lazy_to_digit_length (s digits : jsstring) :
  lazy_to_digit s = Some digits ->
  length digits <= length s /\
  exists c digits', digits = c :: digits' /\ is_digit c = true.
Proof.
  induction s as [|c s IH]; cbn [lazy_to_digit]; [discriminate|].
  destruct (is_digit c) eqn:Hc.
  - intros H. injection H as <-. split; [lia|eauto].
  - destruct (is_line_terminator c); [discriminate|].
    intros H. destruct (IH H) as [Hlen Hd]. cbn [length]. split; [lia|exact Hd].
Qed.

Lemma keyword_then_digits_shorter (keyword s capture rest : jsstring) :
  keyword_then_digits keyword s = Some (capture, rest) ->
  length rest < length s.
Proof.
  unfold keyword_then_digits.
  destruct (after_ci keyword s) as [r|] eqn:Hk; [|discriminate].
  destruct (lazy_to_digit r) as [d|] eqn:Hd; [|discriminate].
  intros H. injection H as H.
  apply after_ci_length in Hk.
  destruct (lazy_to_digit_length _ _ Hd) as [Hlen (c & d' & -> & Hc)].
  cbn [span_digits] in H. rewrite Hc in H.
  destruct (span_digits d') as [ds' rest'] eqn:Hs.
  injection H as <- <-. apply span_digits_length in Hs.
  cbn [length] in Hlen. lia.
Qed.

Lemma scoreRegex_at_shorter (s capture rest : jsstring) :
  scoreRegex_at s = Some (capture, rest) -> length rest < length s.
Proof.
  unfold scoreRegex_at.
  destruct (span_digits s) as [ds r] eqn:Hs.
  apply span_digits_length in Hs.
  assert (Hk : match keyword_then_digits (lit "score") s with
               | Some m => Some m
               | None => keyword_then_digits (lit "rating") s
               end = Some (capture, rest) -> length rest < length s).
  { destruct (keyword_then_digits (lit "score") s) as [m|] eqn:H1.
    - intros H. injection H as ->.
      eapply keyword_then_digits_shorter; eassumption.
    - apply keyword_then_digits_shorter. }
  destruct ds as [|d ds]; [exact Hk|].
  destruct r as [|c1 r]; [exact Hk|].
  destruct c1 as [|p1]; [exact Hk|].
  destruct (N.eq_dec (N.pos p1) 47) as [E1|N1].
  - injection E1 as ->.
    destruct r as [|c2 r]; [exact Hk|].
    destruct (N.eq_dec c2 53) as [->|N2].
    + intros H. injection H as <- <-. cbn [length] in Hs. lia.
    + destruct c2 as [|p2]; [exact Hk|].
      repeat (destruct p2 as [p2|p2|]; try exact Hk); congruence.
  - repeat (destruct p1 as [p1|p1|]; try exact Hk); congruence.
Qed.

Lemma scoreRegex_exec_all_enough (fuel fuel' : nat) (s : jsstring) :
  length s < fuel -> length s < fuel' ->
  scoreRegex_exec_all fuel s = scoreRegex_exec_all fuel' s.
Proof.
  revert fuel' s. induction fuel as [|fuel IH]; intros fuel' s Hf Hf'; [lia|].
  destruct fuel' as [|fuel']; [lia|].
  cbn [scoreRegex_exec_all].
  destruct (scoreRegex_at s) as [[capture rest]|] eqn:Hm.
  - apply scoreRegex_at_shorter in Hm. f_equal. apply IH; lia.
  - destruct s as [|c s]; [reflexivity|]. cbn [length] in *. apply IH; lia.
Qed.

(** X10.  The loop [while ((match = scoreRegex.exec(responseText)) !== null)]
    ends on every text: a match is never empty, so each search starts
    further in the text, and the captures found with [length + 1] steps are
    those found with any larger number of steps. *)
Theorem score_scan_terminates (fuel : nat) (responseText : jsstring) :
  length responseText < fuel ->
  scoreRegex_exec_all fuel responseText
  = scoreRegex_exec_all (S (length responseText)) responseText.
Proof.
  intros H. apply scoreRegex_exec_all_enough; lia.
Qed.

Lemma score_scan_terminates_witness :
  scoreRegex_exec_all 100 (lit "Storytelling: 4/5, score 3")
  = scoreRegex_exec_all (S (length (lit "Storytelling: 4/5, score 3")))
                        (lit "Storytelling: 4/5, score 3").
Proof.
  apply (score_scan_terminates 100 (lit "Storytelling: 4/5, score 3")).
  vm_compute. lia.
Defined.

(** ** [extractInsightsFromText] *)

Lemma score_or_3_inScale (scores : list float) (i : nat) :
  Forall inScale scores -> inScale (score_or_3 scores i).
Proof.
  intros H. unfold score_or_3.
  destruct (nth_error scores i) as [x|] eqn:Hx; [|reflexivity].
  destruct ((x =? 0)%float || is_nan x); [reflexivity|].
  rewrite Forall_forall in H. apply H. eapply nth_error_In; eassumption.
Qed.

Lemma filtered_inScale (l : list float) :
  Forall inScale
         (filter (fun score => (1 <=? score)%float && (score <=? 5)%float) l).
Proof.
  apply Forall_forall. intros x Hx. apply filter_In in Hx. exact (proj2 Hx).
Qed.

Lemma extractInsightsFromText_inScale (B : Builtins) (responseText : json)
    (r : ContentAnalysis) :
  extractInsightsFromText B responseText = Normal r ->
  Forall inScale (engagementScores r).
Proof.
  unfold extractInsightsFromText.
  destruct (match responseText with
            | JStr s => Normal s
            | JArr _ => ObjectToString B responseText
            | _ => Abrupt JsTypeError
            end) as [text|]; cbn [and_then]; [|discriminate].
  destruct (match responseText with
            | JStr s => Normal (firstn 500 s ++ lit "...")
            | JArr elements => _
            | _ => Abrupt JsTypeError
            end) as [overall|]; cbn [and_then]; [|discriminate].
  intros H. injection H as <-. unfold engagementScores.
  cbn [storytelling audienceConnection persuasiveness score extractedAspect].
  apply Forall_cons; [|apply Forall_cons; [|apply Forall_cons; [|apply Forall_nil]]];
    apply score_or_3_inScale, filtered_inScale.
Qed.

(** X11.  On a text, [extractInsightsFromText] does not throw, and its three
    scores lie between 1 and 5: a number the pattern captures outside this
    range is skipped, and where fewer than three remain the score is 3. *)
Theorem extracted_scores_in_scale (B : Builtins) (responseText : jsstring) :
  exists r,
    extractInsightsFromText B (JStr responseText) = Normal r /\
    Forall inScale (engagementScores r).
Proof.
  eexists. split; [reflexivity|].
  unfold engagementScores.
  cbn [storytelling audienceConnection persuasiveness score extractedAspect].
  apply Forall_cons; [|apply Forall_cons; [|apply Forall_cons; [|apply Forall_nil]]];
    apply score_or_3_inScale, filtered_inScale.
Qed.

(** ** [analyzeWithGemini] *)

Lemma inScale_orNaN (l : list float) :
  Forall inScale l -> Forall inScaleOrNaN l.
Proof. apply Forall_impl. intros x H. right. exact H. Qed.

Lemma parseGeminiResponse_scale (B : Builtins) (responseText : json)
    (r : ContentAnalysis) :
  parseGeminiResponse B responseText = Normal r ->
  Forall inScaleOrNaN (engagementScores r).
Proof.
  unfold parseGeminiResponse, catching.
  destruct (match responseText with
            | JStr s => _
            | _ => Abrupt JsTypeError
            end) as [a|e] eqn:Hbody.
  - intros H. injection H as <-.
    destruct responseText as [| | |s| |]; try discriminate.
    destruct (match_braces s) as [jsonString|]; [|discriminate].
    destruct (JSON_parse B jsonString) as [analysis|]; [|discriminate].
    cbn [and_then] in Hbody. eapply normalizeAnalysis_scale; eassumption.
  - intros H. apply inScale_orNaN.
    eapply extractInsightsFromText_inScale; eassumption.
Qed.

(** What [analyzeWithGemini] returns: the fallback analysis, or what
    [parseGeminiResponse] made of the text of the reply. *)
Lemma analyzeWithGemini_cases (B : Builtins) (apiKey : option jsstring)
    (reply : completion json) (transcriptionText : jsstring)
    (audioMetrics : AudioMetrics) :
  analyzeWithGemini B apiKey reply transcriptionText audioMetrics
  = Normal (getFallbackAnalysis transcriptionText audioMetrics) \/
  exists text r,
    parseGeminiResponse B text = Normal r /\
    analyzeWithGemini B apiKey reply transcriptionText audioMetrics = Normal r.
Proof.
  unfold analyzeWithGemini, catching.
  match goal with
  | |- context [if ?noKey then _ else _] => destruct noKey; [auto|]
  end.
  destruct reply as [data|e]; cbn [and_then]; [|auto].
  destruct (opt_member _ (lit "text")) as [text|] eqn:Htext; [|auto].
  destruct (truthy (Some text)); [|auto].
  destruct (parseGeminiResponse B text) as [r|e] eqn:Hp; [|auto].
  right. exists text, r. auto.
Qed.

Lemma analyzeWithGemini_returns (B : Builtins) (apiKey : option jsstring)
    (reply : completion json) (transcriptionText : jsstring)
    (audioMetrics : AudioMetrics) :
  exists r,
    analyzeWithGemini B apiKey reply transcriptionText audioMetrics = Normal r.
Proof.
  destruct (analyzeWithGemini_cases B apiKey reply transcriptionText audioMetrics)
    as [H|(text & r & _ & H)]; eauto.
Qed.

(** X12.  [analyzeWithGemini] never rejects, whatever the key, the reply of
    the service and the engine are, and each of the three scores it returns
    lies between 1 and 5 or is NaN (a reply whose [score] is not a number
    can give NaN). *)
Theorem gemini_scores_in_scale_or_nan (B : Builtins) (apiKey : option jsstring)
    (reply : completion json) (transcriptionText : jsstring)
    (audioMetrics : AudioMetrics) :
  exists r,
    analyzeWithGemini B apiKey reply transcriptionText audioMetrics = Normal r /\
    Forall inScaleOrNaN (engagementScores r).
Proof.
  destruct (analyzeWithGemini_cases B apiKey reply transcriptionText audioMetrics)
    as [H|(text & r & Hp & H)]; rewrite H; eexists; (split; [reflexivity|]).
  - apply inScale_orNaN, fallback_inScale.
  - eapply parseGeminiResponse_scale; eassumption.
Qed.

(** ** Transcription *)

Lemma rethrow {A : Type} (c : completion A) :
  catching c (fun error => Abrupt error) = c.
Proof. destruct c; reflexivity. Qed.

Lemma text_of_string (result : json) (s : jsstring) :
  text_of result = Normal s <-> getProp result (lit "text") = Some (JStr s).
Proof.
  unfold text_of.
  destruct result; cbn [member and_then getProp];
    try (split; discriminate).
  destruct (lookup (lit "text") members) as [[| | |t| |]|];
    try (split; discriminate).
  split; intros H; injection H as ->; reflexivity.
Qed.

Lemma accepted_response (fetched : completion FetchResponse)
    (prefix : jsstring) (s : jsstring) :
  and_then fetched
    (fun response =>
       if negb (ok response) then
         and_then (response_text response)
           (fun errorText =>
              Abrupt (JsError (prefix ++ decimal (status response)
                               ++ lit " - " ++ errorText)))
       else and_then (response_json response) text_of) = Normal s <->
  transcribedBy fetched s.
Proof.
  unfold transcribedBy. split.
  - destruct fetched as [response|]; cbn [and_then]; [|discriminate].
    destruct (ok response) eqn:Hok; cbn [negb].
    + destruct (response_json response) as [result|] eqn:Hjson; cbn [and_then];
        [|discriminate].
      intros H. exists response, result. repeat split; try assumption.
      apply text_of_string. exact H.
    + destruct (response_text response); discriminate.
  - intros (response & result & -> & Hok & Hjson & Htext).
    cbn [and_then]. rewrite Hok, Hjson. cbn [negb and_then].
    apply text_of_string. exact Htext.
Qed.

(** X13.  A transcription method resolves to a text exactly when the key
    [HUGGINGFACE_API_KEY] is set and the service answered the request of
    that method with an [ok] response whose JSON body has that text as the
    string [text] (and, for the first method, the conversion to WAV
    succeeded).  Without the key, or with a body whose [text] is missing or
    not a string, the method rejects. *)
Theorem http_methods_return_the_text (a : Attempts) (s : jsstring) :
  (transcribeWithHuggingFaceHTTP a = Normal s <->
   noKey a = false /\ (exists wav, convertToWav a = Normal wav) /\
   transcribedBy (fetchWhisperLarge a) s) /\
  (transcribeWithHuggingFaceSimple a = Normal s <->
   noKey a = false /\ transcribedBy (fetchWhisperTiny a) s).
Proof.
  unfold transcribeWithHuggingFaceHTTP, transcribeWithHuggingFaceSimple.
  rewrite !rethrow. split.
  - destruct (noKey a).
    { split; [discriminate|]. intros [H _]. discriminate. }
    destruct (convertToWav a) as [wav|e]; cbn [and_then].
    + rewrite accepted_response. split.
      * intros H. split; [reflexivity|]. split; [eauto|exact H].
      * intros (_ & _ & H). exact H.
    + split; [discriminate|]. intros (_ & [wav H] & _). discriminate.
  - destruct (noKey a).
    { split; [discriminate|]. intros [H _]. discriminate. }
    rewrite accepted_response. split.
    + intros H. split; [reflexivity|exact H].
    + intros [_ H]. exact H.
Qed.

Lemma transcribeAudio_huggingface (B : Builtins) (a : Attempts) :
  transcribeAudio B a (lit "huggingface") = Normal (firstTranscript a).
Proof.
  unfold transcribeAudio, transcribeWithHuggingFace, firstTranscript, catching.
  change (string_eqb (lit "huggingface") (lit "huggingface")) with true.
  cbv iota.
  destruct (transcribeWithHuggingFaceHTTP a); [reflexivity|].
  destruct (transcribeWithHuggingFaceSimple a); [reflexivity|].
  destruct (sdkCleanup a), (sdkAttempt a); reflexivity.
Qed.

(** X14.  [transcribeAudio] never rejects.  With the method [huggingface]
    it resolves to the text of the first attempt that succeeds, in the
    order HTTP, simple, SDK (the SDK text is lost if the cleanup of the SDK
    attempt fails), and to [undefined] when none does; with any other
    method it resolves to [undefined]. *)
Theorem transcribeAudio_resolves (B : Builtins) (a : Attempts) (method : jsstring) :
  transcribeAudio B a method
  = Normal (if string_eqb method (lit "huggingface")
            then firstTranscript a else None).
Proof.
  unfold transcribeAudio, transcribeWithHuggingFace, firstTranscript, catching.
  destruct (string_eqb method (lit "huggingface")); [|reflexivity].
  destruct (transcribeWithHuggingFaceHTTP a); [reflexivity|].
  destruct (transcribeWithHuggingFaceSimple a); [reflexivity|].
  destruct (sdkCleanup a), (sdkAttempt a); reflexivity.
Qed.

(** ** The endpoint *)

Lemma cleanupTempFile_completes (pathExists : completion bool)
    (remove : completion unit) :
  cleanupTempFile pathExists remove = Normal tt.
Proof.
  unfold cleanupTempFile, catching.
  destruct pathExists as [[|]|]; cbn [and_then]; try reflexivity.
  destruct remove as [[]|]; reflexivity.
Qed.

(** X15.  A request with a file never makes the handler reject, and it is
    answered only when the temporary file was saved and one transcription
    attempt succeeded: the answer then carries that transcription, the
    metrics of [analyzeAudioProperties] on the uploaded buffer, and
    engagement scores that are between 1 and 5 or NaN.  In every other
    case (the file could not be saved, or no attempt produced a text) no
    response is sent at all. *)
Theorem evaluatePitch_answers (B : Builtins) (M : MathLib) (buffer : Buffer)
    (env : Environment) :
  completed (evaluatePitch B M (Some buffer) env) = Normal tt /\
  match saveTemporaryAudioFile env, firstTranscript (attempts env) with
  | Normal _, Some text =>
      exists result overallScore,
        response (evaluatePitch B M (Some buffer) env)
        = Some (Evaluated result overallScore true
                          (finishTime env - startTime env)%float) /\
        transcription result = text /\
        analyzeAudioProperties M buffer = Ok (audioMetrics result) /\
        delivery result = deliveryOf (audioMetrics result) /\
        overallScore = overallScoreOf (delivery result) (engagement result) /\
        Forall inScaleOrNaN
               [Engagement.storytelling (engagement result);
                Engagement.audienceConnection (engagement result);
                Engagement.persuasiveness (engagement result)]
  | _, _ => response (evaluatePitch B M (Some buffer) env) = None
  end.
Proof.
  split.
  - unfold evaluatePitch. cbn [completed].
    destruct (saveTemporaryAudioFile env) as [[|c p]|]; try reflexivity.
    apply cleanupTempFile_completes.
  - unfold evaluatePitch. cbn [response].
    rewrite transcribeAudio_huggingface.
    destruct (saveTemporaryAudioFile env) as [p|e]; cbn [and_then];
      [|destruct (firstTranscript (attempts env)); reflexivity].
    destruct (firstTranscript (attempts env)) as [text|]; cbn [and_then];
      [|reflexivity].
    destruct (analyzeAudioProperties_total M buffer)
      as (ad & pc & v & c & pd & t & _ & _ & _ & _ & _ & _ & Hm).
    rewrite Hm. cbn [of_result and_then].
    destruct (analyzeWithGemini_cases B (GEMINI_API_KEY env) (geminiReply env)
                text (withDerived pc v c pd t)) as [Hr|(reply & r & Hp & Hr)];
      rewrite Hr; cbn [and_then]; eexists; eexists;
      (split; [reflexivity|]);
      cbn [transcription audioMetrics delivery engagement];
      repeat (split; [reflexivity|]).
    + apply inScale_orNaN, fallback_inScale.
    + eapply parseGeminiResponse_scale; eassumption.
Qed.

(** ** The overall score *)

Lemma overallCheck_ok :
  overallCheck [2; 3; 5; 4]%float [2; 3; 5; 4]%float
               [5; 4; 3; 2; 1; 3.8]%float [2; 3; 5; 4]%float
               engagementAverages = true.
Proof. vm_compute. reflexivity. Qed.

Lemma wholeScores_average (a b c : float) :
  In a wholeScores -> In b wholeScores -> In c wholeScores ->
  In (average [a; b; c]) engagementAverages.
Proof.
  unfold wholeScores. intros Ha Hb Hc.
  split_In; subst; vm_compute; repeat (first [left; reflexivity | right]).
Qed.

(** The delivery scores do not depend on the pause score. *)
Lemma deliveryOf_withDerived (p v c pd t : float) :
  deliveryOf (withDerived p v c pd t) = deliveryOf (withDerived p v c 2 t).
Proof.
  cbv [deliveryOf withDerived set_confidence set_enthusiasm
       calculateConfidenceFromMetrics calculateEnthusiasmFromMetrics
       pace volume clarity tonalVariation confidence enthusiasm pauseDuration].
  reflexivity.
Qed.

Lemma overallCheck_forall (ps vs cs ts eas : list float)
    (p v c t engagementAvg : float) :
  overallCheck ps vs cs ts eas = true ->
  In p ps -> In v vs -> In c cs -> In t ts -> In engagementAvg eas ->
  let d := deliveryOf (withDerived p v c 2 t) in
  let deliveryAvg :=
    average [Delivery.pace d; Delivery.tone d; Delivery.clarity d;
             Delivery.confidence d; Delivery.enthusiasm d] in
  existsb (PrimFloat.Leibniz.eqb
             (Math_round ((deliveryAvg + engagementAvg) / 2 * 2)%float))
          overallScores = true.
Proof.
  unfold overallCheck. intros Hall Hp Hv Hc Ht He.
  pose proof (proj1 (forallb_forall _ _) Hall p Hp) as H1. cbv beta in H1.
  pose proof (proj1 (forallb_forall _ _) H1 v Hv) as H2. cbv beta in H2.
  pose proof (proj1 (forallb_forall _ _) H2 c Hc) as H3. cbv beta in H3.
  pose proof (proj1 (forallb_forall _ _) H3 t Ht) as H4. cbv beta zeta in H4.
  exact (proj1 (forallb_forall _ _) H4 engagementAvg He).
Qed.

Lemma overallScore_cases (p v c pd t : float) (e : Engagement.t) :
  In p [2; 3; 5; 4]%float -> In v [2; 3; 5; 4]%float ->
  In c [5; 4; 3; 2; 1; 3.8]%float -> In t [2; 3; 5; 4]%float ->
  In (Engagement.storytelling e) wholeScores ->
  In (Engagement.audienceConnection e) wholeScores ->
  In (Engagement.persuasiveness e) wholeScores ->
  In (overallScoreOf (deliveryOf (withDerived p v c pd t)) e) overallScores.
Proof.
  intros Hp Hv Hc Ht H1 H2 H3.
  pose proof (wholeScores_average _ _ _ H1 H2 H3) as He.
  pose proof (overallCheck_forall _ _ _ _ _ p v c t _ overallCheck_ok
                Hp Hv Hc Ht He) as Hall.
  cbv zeta in Hall.
  apply existsb_exists in Hall. destruct Hall as (x & Hx & Heq).
  apply FloatAxioms.Leibniz.eqb_spec in Heq.
  rewrite deliveryOf_withDerived. unfold overallScoreOf. cbv zeta.
  rewrite Heq. exact Hx.
Qed.

(** X16.  Whenever the handler answers a request and the three engagement
    scores of the answer are whole numbers from 1 to 5 (as the fallback
    analysis and a well-formed reply give), the overall score is a whole
    number from 3 to 10, whatever the audio was. *)
Theorem overallScore_in_range (B : Builtins) (M : MathLib) (buffer : Buffer)
    (env : Environment) (result : Evaluation) (overallScore : float)
    (success : bool) (processingTime : float) :
  response (evaluatePitch B M (Some buffer) env)
  = Some (Evaluated result overallScore success processingTime) ->
  In (Engagement.storytelling (engagement result)) wholeScores ->
  In (Engagement.audienceConnection (engagement result)) wholeScores ->
  In (Engagement.persuasiveness (engagement result)) wholeScores ->
  In overallScore overallScores.
Proof.
  unfold evaluatePitch. cbn [response].
  rewrite transcribeAudio_huggingface.
  destruct (saveTemporaryAudioFile env) as [path|e]; cbn [and_then];
    [|discriminate].
  destruct (firstTranscript (attempts env)) as [text|]; cbn [and_then];
    [|discriminate].
  destruct (analyzeAudioProperties_total M buffer)
    as (ad & p & v & c & pd & t & _ & [_ Hp] & [_ Hv] & [_ Hc] & _ & [_ Ht] & Hm).
  assert (Hc' : In c [5; 4; 3; 2; 1; 3.8]%float).
  { destruct (performFFT M (samples ad)); [in_list_by Hc|subst; pick_In]. }
  rewrite Hm. cbn [of_result and_then].
  destruct (analyzeWithGemini_returns B (GEMINI_API_KEY env) (geminiReply env)
              text (withDerived p v c pd t)) as (r & ->).
  cbn [and_then]. intros H. injection H as <- <- _ _.
  cbn [delivery engagement]. intros H1 H2 H3.
  apply (overallScore_cases p v c pd t _ Hp Hv Hc' Ht H1 H2 H3).
Qed.

Lemma overallScore_in_range_witness :
  exists result overallScore success processingTime,
    response (evaluatePitch Builtins_example Math_example (Some [])
                            exampleEnvironment)
    = Some (Evaluated result overallScore success processingTime) /\
    In overallScore overallScores.
Proof.
  eexists. eexists. eexists. eexists.
  assert (H : response (evaluatePitch Builtins_example Math_example (Some [])
                                      exampleEnvironment)
              = Some (Evaluated _ _ _ _)) by (vm_compute; reflexivity).
  split; [exact H|].
  apply (overallScore_in_range Builtins_example Math_example [] exampleEnvironment
           _ _ _ _ H); vm_compute; auto.
Defined.

(** ** NaN in the overall score *)

Lemma is_nan_spec (x : float) : is_nan x = true <-> Prim2SF x = S754_nan.
Proof.
  unfold is_nan. rewrite FloatAxioms.eqb_spec. unfold SFeqb.
  destruct (Prim2SF x) as [s|s| |s m e]; cbn.
  - split; discriminate.
  - destruct s; split; discriminate.
  - split; reflexivity.
  - destruct s; rewrite Z.compare_refl;
      change (PosDef.Pos.compare_cont Eq m m) with (Pos.compare m m);
      rewrite Pos.compare_refl; split; discriminate.
Qed.

Lemma nan_add_l (x y : float) : is_nan x = true -> is_nan (x + y) = true.
Proof.
  rewrite !is_nan_spec, add_spec. intros ->. reflexivity.
Qed.

Lemma nan_add_r (x y : float) : is_nan y = true -> is_nan (x + y) = true.
Proof.
  rewrite !is_nan_spec, add_spec. intros ->.
  destruct (Prim2SF x) as [s|s| |s m e]; reflexivity.
Qed.

Lemma nan_sub_l (x y : float) : is_nan x = true -> is_nan (x - y) = true.
Proof.
  rewrite !is_nan_spec, sub_spec. intros ->. reflexivity.
Qed.

Lemma nan_div_l (x y : float) : is_nan x = true -> is_nan (x / y) = true.
Proof.
  rewrite !is_nan_spec, div_spec. intros ->. reflexivity.
Qed.

Lemma nan_mul_l (x y : float) : is_nan x = true -> is_nan (x * y) = true.
Proof.
  rewrite !is_nan_spec, mul_spec. intros ->. reflexivity.
Qed.

Lemma nan_Math_round (x : float) :
  is_nan x = true -> is_nan (Math_round x) = true.
Proof.
  intros Hx. unfold Math_round. cbv zeta.
  assert (Hfloor : Math_floor x = x).
  { unfold Math_floor. apply is_nan_spec in Hx. now rewrite Hx. }
  rewrite Hfloor.
  assert (Hcmp : (0.5 <=? x - x)%float = false).
  { pose proof (nan_sub_l x x Hx) as Hs. apply is_nan_spec in Hs.
    rewrite leb_spec, Hs. reflexivity. }
  rewrite Hcmp. exact Hx.
Qed.

Lemma nan_engagement_average (a b c : float) :
  Exists (fun x => is_nan x = true) [a; b; c] ->
  is_nan (average [a; b; c]) = true.
Proof.
  intros H. unfold average. cbn [fold_left]. apply nan_div_l.
  apply Exists_cons in H. destruct H as [H|H].
  { now apply nan_add_l, nan_add_l, nan_add_r. }
  apply Exists_cons in H. destruct H as [H|H].
  { now apply nan_add_l, nan_add_r. }
  apply Exists_cons in H. destruct H as [H|H].
  { now apply nan_add_r. }
  inversion H.
Qed.

(** X17.  One score that is not a number spoils the total: whenever the
    handler answers and one of the three engagement scores of the answer is
    NaN (which [normalizeAnalysis] produces from a [score] such as a word),
    the overall score of the answer is NaN. *)
Theorem nan_score_gives_nan_overall (B : Builtins) (M : MathLib)
    (buffer : Buffer) (env : Environment) (result : Evaluation)
    (overallScore : float) (success : bool) (processingTime : float) :
  response (evaluatePitch B M (Some buffer) env)
  = Some (Evaluated result overallScore success processingTime) ->
  Exists (fun x => is_nan x = true)
         [Engagement.storytelling (engagement result);
          Engagement.audienceConnection (engagement result);
          Engagement.persuasiveness (engagement result)] ->
  is_nan overallScore = true.
Proof.
  unfold evaluatePitch. cbn [response].
  rewrite transcribeAudio_huggingface.
  destruct (saveTemporaryAudioFile env) as [path|e]; cbn [and_then];
    [|discriminate].
  destruct (firstTranscript (attempts env)) as [text|]; cbn [and_then];
    [|discriminate].
  destruct (of_result (analyzeAudioProperties M buffer)) as [m|];
    cbn [and_then]; [|discriminate].
  destruct (analyzeWithGemini B (GEMINI_API_KEY env) (geminiReply env) text m)
    as [r|]; cbn [and_then]; [|discriminate].
  intros H. injection H as <- <- _ _. cbn [engagement delivery].
  intros Hnan. unfold overallScoreOf. cbv zeta.
  apply nan_Math_round, nan_mul_l, nan_div_l, nan_add_r.
  apply nan_engagement_average. exact Hnan.
Qed.

Lemma nan_score_gives_nan_overall_witness :
  exists result overallScore success processingTime,
    response (evaluatePitch Builtins_wordScore Math_example (Some [])
                            exampleEnvironmentWithKey)
    = Some (Evaluated result overallScore success processingTime) /\
    is_nan overallScore = true.
Proof.
  eexists. eexists. eexists. eexists.
  assert (H : response (evaluatePitch Builtins_wordScore Math_example (Some [])
                                      exampleEnvironmentWithKey)
              = Some (Evaluated _ _ _ _)) by (vm_compute; reflexivity).
  split; [exact H|].
  apply (nan_score_gives_nan_overall Builtins_wordScore Math_example []
           exampleEnvironmentWithKey _ _ _ _ H).
  apply Exists_cons_hd. vm_compute. reflexivity.
Defined.

(** ** The store of recordings *)

Lemma string_eqb_eq (a b : jsstring) : string_eqb a b = true <-> a = b.
Proof.
  revert b. induction a as [|x a IH]; intros [|y b]; cbn [string_eqb];
    try (split; [discriminate|discriminate]); [split; reflexivity|].
  rewrite andb_true_iff, N.eqb_eq, IH. split.
  - intros [-> ->]. reflexivity.
  - intros H. injection H as -> ->. auto.
Qed.

Lemma string_eqb_refl (a : jsstring) : string_eqb a a = true.
Proof. now apply string_eqb_eq. Qed.

Lemma string_eqb_neq (a b : jsstring) : a <> b -> string_eqb a b = false.
Proof.
  intros H. destruct (string_eqb a b) eqn:E; [|reflexivity].
  apply string_eqb_eq in E. contradiction.
Qed.

Lemma get_put_same {Blob : Type} (record : AudioStorage.AudioRecord Blob)
    (s : AudioStorage.Store Blob) :
  AudioStorage.get (AudioStorage.id record) (AudioStorage.put record s)
  = Some record.
Proof.
  induction s as [|r s IH]; cbn [AudioStorage.put AudioStorage.get].
  - now rewrite string_eqb_refl.
  - destruct (string_eqb (AudioStorage.id r) (AudioStorage.id record)) eqn:E.
    + cbn [AudioStorage.get]. now rewrite string_eqb_refl.
    + destruct (AudioStorage.string_ltb _ _); cbn [AudioStorage.get].
      * now rewrite string_eqb_refl.
      * rewrite E. exact IH.
Qed.

Lemma get_put_other {Blob : Type} (record : AudioStorage.AudioRecord Blob)
    (key : jsstring) (s : AudioStorage.Store Blob) :
  key <> AudioStorage.id record ->
  AudioStorage.get key (AudioStorage.put record s) = AudioStorage.get key s.
Proof.
  intros Hkey.
  assert (Hrec : string_eqb (AudioStorage.id record) key = false).
  { apply string_eqb_neq. congruence. }
  induction s as [|r s IH]; cbn [AudioStorage.put AudioStorage.get].
  - now rewrite Hrec.
  - destruct (string_eqb (AudioStorage.id r) (AudioStorage.id record)) eqn:E.
    + apply string_eqb_eq in E. cbn [AudioStorage.get].
      rewrite E, Hrec. reflexivity.
    + destruct (AudioStorage.string_ltb _ _); cbn [AudioStorage.get].
      * rewrite Hrec. reflexivity.
      * rewrite IH. reflexivity.
Qed.

Lemma get_delete_same {Blob : Type} (key : jsstring)
    (s : AudioStorage.Store Blob) :
  AudioStorage.get key (AudioStorage.delete key s) = None.
Proof.
  unfold AudioStorage.delete.
  induction s as [|r s IH]; [reflexivity|]. cbn [filter].
  destruct (string_eqb (AudioStorage.id r) key) eqn:E; cbn [negb].
  - exact IH.
  - cbn [AudioStorage.get]. rewrite E. exact IH.
Qed.

Lemma get_delete_other {Blob : Type} (key other : jsstring)
    (s : AudioStorage.Store Blob) :
  other <> key ->
  AudioStorage.get other (AudioStorage.delete key s) = AudioStorage.get other s.
Proof.
  intros Hother. unfold AudioStorage.delete.
  induction s as [|r s IH]; [reflexivity|]. cbn [filter AudioStorage.get].
  destruct (string_eqb (AudioStorage.id r) key) eqn:E; cbn [negb].
  - apply string_eqb_eq in E.
    rewrite (string_eqb_neq (AudioStorage.id r) other) by congruence.
    exact IH.
  - cbn [AudioStorage.get]. rewrite IH. reflexivity.
Qed.

Lemma lit_inj (a b : String.string) : lit a = lit b -> a = b.
Proof.
  unfold lit. revert b. induction a as [|x a IH]; intros [|y b]; cbn;
    try discriminate; [reflexivity|].
  intros H. injection H as Hxy Hab.
  apply (f_equal Ascii.ascii_of_N) in Hxy.
  rewrite !Ascii.ascii_N_embedding in Hxy. subst y.
  f_equal. apply IH. exact Hab.
Qed.

(** Two readings of the clock print alike only if they are the same. *)
Lemma decimalZ_inj (a b : Z) :
  AudioStorage.decimalZ a = AudioStorage.decimalZ b -> a = b.
Proof.
  unfold AudioStorage.decimalZ. intros H. apply lit_inj in H.
  apply (f_equal NilEmpty.int_of_string) in H.
  rewrite !NilEmpty.isi in H. injection H as H.
  apply (f_equal Z.of_int) in H. now rewrite !DecimalZ.of_to in H.
Qed.

(** X18.  Saving and reading back: when no record has the id of the
    current time, [saveAudio] resolves to that id, [getAudio] of it then
    returns the recording as saved (its name, blob and time stamp, no
    result and no score yet), and the record of every other id is as
    before. *)
Theorem saveAudio_then_getAudio {Blob : Type} (now now' : Z) (audioBlob : Blob)
    (name : jsstring) (s : AudioStorage.Store Blob) :
  AudioStorage.get (AudioStorage.decimalZ now) s = None ->
  exists s',
    AudioStorage.saveAudio (Normal tt) now now' audioBlob name s
    = (Normal (AudioStorage.decimalZ now), s') /\
    AudioStorage.getAudio (Normal tt) (AudioStorage.decimalZ now) s'
    = Normal (Some {| AudioStorage.id := AudioStorage.decimalZ now;
                      AudioStorage.name := name;
                      AudioStorage.audioBlob := audioBlob;
                      AudioStorage.timestamp := now';
                      AudioStorage.result := None;
                      AudioStorage.overallScore := None |}) /\
    forall key, key <> AudioStorage.decimalZ now ->
      AudioStorage.getAudio (Normal tt) key s'
      = AudioStorage.getAudio (Normal tt) key s.
Proof.
  intros Hfresh. unfold AudioStorage.saveAudio, AudioStorage.add. cbv zeta.
  cbn [AudioStorage.id]. rewrite Hfresh.
  eexists. split; [reflexivity|].
  unfold AudioStorage.getAudio. cbn [and_then]. split.
  - f_equal.
    apply (get_put_same
             {| AudioStorage.id := AudioStorage.decimalZ now;
                AudioStorage.name := name;
                AudioStorage.audioBlob := audioBlob;
                AudioStorage.timestamp := now';
                AudioStorage.result := None;
                AudioStorage.overallScore := None |}).
  - intros key Hkey. f_equal. apply get_put_other. exact Hkey.
Qed.

Lemma saveAudio_then_getAudio_witness :
  exists s',
    AudioStorage.saveAudio (Normal tt) 1700000000000 1700000000001
                           [Byte.x00] (lit "pitch") []
    = (Normal (AudioStorage.decimalZ 1700000000000), s') /\
    AudioStorage.getAudio (Normal tt) (AudioStorage.decimalZ 1700000000000) s'
    = Normal (Some {| AudioStorage.id := AudioStorage.decimalZ 1700000000000;
                      AudioStorage.name := lit "pitch";
                      AudioStorage.audioBlob := [Byte.x00];
                      AudioStorage.timestamp := 1700000000001;
                      AudioStorage.result := None;
                      AudioStorage.overallScore := None |}) /\
    forall key, key <> AudioStorage.decimalZ 1700000000000 ->
      AudioStorage.getAudio (Normal tt) key s'
      = AudioStorage.getAudio (Normal tt) key [].
Proof.
  apply (saveAudio_then_getAudio 1700000000000 1700000000001 [Byte.x00]
                                 (lit "pitch") []).
  reflexivity.
Defined.

Lemma saveAudio_inv {Blob : Type} (now now' : Z) (audioBlob : Blob)
    (name i : jsstring) (s s1 : AudioStorage.Store Blob) :
  AudioStorage.saveAudio (Normal tt) now now' audioBlob name s = (Normal i, s1) ->
  i = AudioStorage.decimalZ now /\
  AudioStorage.get (AudioStorage.decimalZ now) s = None /\
  s1 = AudioStorage.put
         {| AudioStorage.id := AudioStorage.decimalZ now;
            AudioStorage.name := name;
            AudioStorage.audioBlob := audioBlob;
            AudioStorage.timestamp := now';
            AudioStorage.result := None;
            AudioStorage.overallScore := None |} s.
Proof.
  unfold AudioStorage.saveAudio, AudioStorage.add. cbv zeta.
  cbn [AudioStorage.id].
  destruct (AudioStorage.get (AudioStorage.decimalZ now) s); [discriminate|].
  intros H. injection H as <- <-. auto.
Qed.

(** X19.  The id of a recording is the millisecond it was saved in.  After
    a save, a second save that reads the same millisecond is rejected with
    a ConstraintError and stores nothing; a second save that reads another
    millisecond (whose id is not taken) gets another id.  In both cases the
    first recording is still what [getAudio] returns for the first id. *)
Theorem second_save {Blob : Type} (now1 now1' now2 now2' : Z)
    (blob1 blob2 : Blob) (name1 name2 id1 : jsstring)
    (s s1 : AudioStorage.Store Blob) :
  AudioStorage.saveAudio (Normal tt) now1 now1' blob1 name1 s = (Normal id1, s1) ->
  AudioStorage.get (AudioStorage.decimalZ now2) s = None ->
  exists outcome s2,
    AudioStorage.saveAudio (Normal tt) now2 now2' blob2 name2 s1 = (outcome, s2) /\
    (if (now1 =? now2)%Z
     then outcome = Abrupt (DOMException (lit "ConstraintError")) /\ s2 = s1
     else outcome = Normal (AudioStorage.decimalZ now2) /\
          AudioStorage.decimalZ now2 <> id1) /\
    AudioStorage.getAudio (Normal tt) id1 s2
    = Normal (Some {| AudioStorage.id := id1;
                      AudioStorage.name := name1;
                      AudioStorage.audioBlob := blob1;
                      AudioStorage.timestamp := now1';
                      AudioStorage.result := None;
                      AudioStorage.overallScore := None |}).
Proof.
  intros Hsave Hfresh.
  destruct (saveAudio_inv _ _ _ _ _ _ _ Hsave) as (-> & _ & ->).
  set (first := {| AudioStorage.id := AudioStorage.decimalZ now1;
                   AudioStorage.name := name1;
                   AudioStorage.audioBlob := blob1;
                   AudioStorage.timestamp := now1';
                   AudioStorage.result := None;
                   AudioStorage.overallScore := None |}).
  assert (Hfirst : AudioStorage.get (AudioStorage.decimalZ now1)
                                    (AudioStorage.put first s) = Some first)
    by apply (get_put_same first).
  unfold AudioStorage.saveAudio, AudioStorage.add. cbv zeta.
  cbn [AudioStorage.id].
  destruct (Z.eqb_spec now1 now2) as [<-|Hne].
  - rewrite Hfirst. eexists. eexists. split; [reflexivity|].
    split; [split; reflexivity|].
    unfold AudioStorage.getAudio. cbn [and_then]. now rewrite Hfirst.
  - assert (Hids : AudioStorage.decimalZ now2 <> AudioStorage.decimalZ now1).
    { intros E. apply decimalZ_inj in E. congruence. }
    rewrite (get_put_other first) by exact Hids.
    rewrite Hfresh. eexists. eexists. split; [reflexivity|].
    split; [split; [reflexivity|exact Hids]|].
    unfold AudioStorage.getAudio. cbn [and_then]. f_equal.
    rewrite get_put_other; [exact Hfirst|].
    cbn [AudioStorage.id]. congruence.
Qed.

Lemma second_save_witness :
  exists outcome s2,
    AudioStorage.saveAudio (Normal tt) 1700000000000 1700000000003
                           [Byte.x01] (lit "second")
                           (AudioStorage.put
                              {| AudioStorage.id := AudioStorage.decimalZ 1700000000000;
                                 AudioStorage.name := lit "first";
                                 AudioStorage.audioBlob := [Byte.x00];
                                 AudioStorage.timestamp := 1700000000001;
                                 AudioStorage.result := None;
                                 AudioStorage.overallScore := None |} [])
    = (outcome, s2) /\
    outcome = Abrupt (DOMException (lit "ConstraintError")).
Proof.
  destruct (second_save 1700000000000 1700000000001 1700000000000 1700000000003
              [Byte.x00] [Byte.x01] (lit "first") (lit "second")
              (AudioStorage.decimalZ 1700000000000) [] _ eq_refl eq_refl)
    as (outcome & s2 & Hsave & [Hout _] & _).
  exists outcome, s2. split; [exact Hsave|exact Hout].
Defined.

(** X20.  [updateAudio] of an id that has no record rejects with the error
    [Audio record not found] and changes nothing.  Otherwise it stores the
    record merged with the updates under the id of the merged record, and
    the record of every other id is as before: updates that carry another
    id do not rename the recording, they leave it as it was and write a
    second record. *)
Theorem updateAudio_effect {Blob : Type} (id : jsstring)
    (updates : Partial.t Blob) (s : AudioStorage.Store Blob) :
  match AudioStorage.get id s with
  | None =>
      AudioStorage.updateAudio (Normal tt) (Normal tt) id updates s
      = (Abrupt (JsError (lit "Audio record not found")), s)
  | Some existing =>
      exists s',
        AudioStorage.updateAudio (Normal tt) (Normal tt) id updates s
        = (Normal tt, s') /\
        AudioStorage.get (AudioStorage.id (AudioStorage.merge existing updates)) s'
        = Some (AudioStorage.merge existing updates) /\
        forall key,
          key <> AudioStorage.id (AudioStorage.merge existing updates) ->
          AudioStorage.get key s' = AudioStorage.get key s
  end.
Proof.
  unfold AudioStorage.updateAudio, AudioStorage.getAudio. cbn [and_then].
  destruct (AudioStorage.get id s) as [existing|]; [|reflexivity].
  cbv zeta. eexists. split; [reflexivity|]. split.
  - apply get_put_same.
  - intros key Hkey. apply get_put_other. exact Hkey.
Qed.

(** X21.  [deleteAudio] resolves whether or not the id has a record;
    afterwards [getAudio] of that id returns [null], and the record of
    every other id is as before. *)
Theorem deleteAudio_effect {Blob : Type} (id : jsstring)
    (s : AudioStorage.Store Blob) :
  exists s',
    AudioStorage.deleteAudio (Normal tt) id s = (Normal tt, s') /\
    AudioStorage.getAudio (Normal tt) id s' = Normal None /\
    forall key, key <> id ->
      AudioStorage.getAudio (Normal tt) key s'
      = AudioStorage.getAudio (Normal tt) key s.
Proof.
  eexists. split; [reflexivity|].
  unfold AudioStorage.getAudio. cbn [and_then]. split.
  - f_equal. apply get_delete_same.
  - intros key Hkey. f_equal. apply get_delete_other. exact Hkey.
Qed.

(** X22.  The home page stores the recording before it asks the backend.
    With a recording, a database that opens and a free id,
    [handleEvaluatePitch] leaves under the new id the recording as saved,
    with the [result] and the [overallScore] of the response when the
    backend answered (with something other than [null]), and with neither
    when the request failed or was never answered; the record of every
    other id is as before. *)
Theorem handleEvaluatePitch_stores {Blob : Type} (blob : Blob)
    (name : jsstring) (now now' : Z) (post : option (completion json))
    (s : AudioStorage.Store Blob) :
  AudioStorage.get (AudioStorage.decimalZ now) s = None ->
  exists outcome s',
    AudioStorage.handleEvaluatePitch (Normal (Some blob)) name (Normal tt)
                                     now now' post (Normal tt) (Normal tt) s
    = (outcome, s') /\
    AudioStorage.get (AudioStorage.decimalZ now) s'
    = Some {| AudioStorage.id := AudioStorage.decimalZ now;
              AudioStorage.name := name;
              AudioStorage.audioBlob := blob;
              AudioStorage.timestamp := now';
              AudioStorage.result :=
                match post with
                | Some (Normal data) => getProp data (lit "result")
                | _ => None
                end;
              AudioStorage.overallScore :=
                match post with
                | Some (Normal data) => getProp data (lit "overallScore")
                | _ => None
                end |} /\
    (forall key, key <> AudioStorage.decimalZ now ->
       AudioStorage.get key s' = AudioStorage.get key s) /\
    match post with
    | None => outcome = None
    | Some (Abrupt e) => outcome = Some (Abrupt e)
    | Some (Normal JNull) => outcome = Some (Abrupt JsTypeError)
    | Some (Normal _) => outcome = Some (Normal tt)
    end.
Proof.
  intros Hfresh.
  set (saved := {| AudioStorage.id := AudioStorage.decimalZ now;
                   AudioStorage.name := name;
                   AudioStorage.audioBlob := blob;
                   AudioStorage.timestamp := now';
                   AudioStorage.result := None;
                   AudioStorage.overallScore := None |}).
  assert (Hsave : AudioStorage.saveAudio (Normal tt) now now' blob name s
                  = (Normal (AudioStorage.decimalZ now), AudioStorage.put saved s)).
  { unfold AudioStorage.saveAudio, AudioStorage.add. cbv zeta.
    cbn [AudioStorage.id]. rewrite Hfresh. reflexivity. }
  assert (Hsaved : AudioStorage.get (AudioStorage.decimalZ now)
                                    (AudioStorage.put saved s) = Some saved)
    by apply (get_put_same saved).
  assert (Hother : forall key, key <> AudioStorage.decimalZ now ->
            AudioStorage.get key (AudioStorage.put saved s)
            = AudioStorage.get key s).
  { intros key Hkey. apply get_put_other. exact Hkey. }
  unfold AudioStorage.handleEvaluatePitch. rewrite Hsave.
  destruct post as [[data|e]|].
  - assert (Hnull : data = JNull \/ data <> JNull).
    { destruct data; auto; right; discriminate. }
    destruct Hnull as [->|Hnull].
    + cbn [member getProp]. eexists. eexists. split; [reflexivity|].
      split; [exact Hsaved|]. split; [exact Hother|reflexivity].
    + rewrite !member_not_null by exact Hnull. cbv zeta.
      unfold AudioStorage.updateAudio, AudioStorage.getAudio. cbn [and_then].
      rewrite Hsaved. cbv zeta.
      set (updated := AudioStorage.merge saved _).
      eexists. eexists. split; [reflexivity|].
      split; [apply (get_put_same updated)|].
      split.
      * intros key Hkey. rewrite get_put_other; [apply Hother; exact Hkey|].
        exact Hkey.
      * destruct data; try reflexivity. contradiction.
  - eexists. eexists. split; [reflexivity|].
    split; [exact Hsaved|]. split; [exact Hother|reflexivity].
  - eexists. eexists. split; [reflexivity|].
    split; [exact Hsaved|]. split; [exact Hother|reflexivity].
Qed.

Lemma handleEvaluatePitch_stores_witness :
  exists outcome s',
    AudioStorage.handleEvaluatePitch (Normal (Some [Byte.x00])) (lit "Recording")
                                     (Normal tt) 1700000000000 1700000000001
                                     None (Normal tt) (Normal tt) []
    = (outcome, s') /\
    AudioStorage.get (AudioStorage.decimalZ 1700000000000) s'
    = Some {| AudioStorage.id := AudioStorage.decimalZ 1700000000000;
              AudioStorage.name := lit "Recording";
              AudioStorage.audioBlob := [Byte.x00];
              AudioStorage.timestamp := 1700000000001;
              AudioStorage.result := None;
              AudioStorage.overallScore := None |} /\
    outcome = None.
Proof.
  destruct (handleEvaluatePitch_stores [Byte.x00] (lit "Recording")
              1700000000000 1700000000001 None [] eq_refl)
    as (outcome & s' & Hrun & Hget & _ & Hout).
  exists outcome, s'. split; [exact Hrun|]. split; [exact Hget|exact Hout].
Defined.
